(** * File organizer: a shallow embedding of [services.ts], [agent.ts],
    the [/apply] route and the terminal of the front end, with the
    properties of the plan engine proved over it.

    Conventions of the embedding.
    - JavaScript strings are Rocq [string]s (bytes); only ASCII letters
      change case under [toLowerCase] and only ASCII white space counts
      as [\s].
    - Epoch milliseconds and byte sizes are integers ([Z]).
    - The platform is POSIX ([path.sep] is [/]); Node's [path] functions
      are modelled on the segments of a path.
    - A function that can throw returns a [result]; a function that
      touches the disk takes the file system and returns the new one. *)

From Stdlib Require Import ZArith List String Ascii Bool Lia QArith_base.
From Stdlib Require DecimalString.
From stdpp Require Import base option list strings gmap.

Local Open Scope Z_scope.
Local Open Scope stdpp_scope.

(* ================================================================== *)
(** * Strings as JavaScript uses them *)
(* ================================================================== *)

Module Str.

Definition chars (s : string) : list ascii := list_ascii_of_string s.
Definition of_chars (l : list ascii) : string := string_of_list_ascii l.

Definition eqb (a b : string) : bool := bool_decide (a = b).
Definition ceqb (a b : ascii) : bool := bool_decide (a = b).

(** JS truthiness of a string: non-empty. *)
Definition truthy (s : string) : bool := negb (eqb s "").

(** [s.startsWith(p)] *)
Fixpoint startsWith (s p : string) : bool :=
  match p, s with
  | EmptyString, _ => true
  | String c p', String d s' => ceqb c d && startsWith s' p'
  | String _ _, EmptyString => false
  end.

(** [s.indexOf(p)], [None] for -1. *)
Fixpoint indexOf (s p : string) : option nat :=
  if startsWith s p then Some 0%nat
  else match s with
       | EmptyString => None
       | String _ s' => S <$> indexOf s' p
       end.

(** [s.endsWith(p)] *)
Definition endsWith (s p : string) : bool :=
  startsWith (String.rev s) (String.rev p).

(** [s.includes(p)] *)
Definition includes (s p : string) : bool :=
  match indexOf s p with Some _ => true | None => false end.

(** [s.lastIndexOf(c)] for a one-character needle. *)
Fixpoint lastIndexOfChar (s : string) (c : ascii) : option nat :=
  match s with
  | EmptyString => None
  | String d s' =>
      match lastIndexOfChar s' c with
      | Some i => Some (S i)
      | None => if ceqb c d then Some 0%nat else None
      end
  end.

Fixpoint drop (n : nat) (s : string) : string :=
  match n, s with
  | O, _ => s
  | S n', String _ s' => drop n' s'
  | S _, EmptyString => EmptyString
  end.

Fixpoint take (n : nat) (s : string) : string :=
  match n, s with
  | O, _ => EmptyString
  | S n', String c s' => String c (take n' s')
  | S _, EmptyString => EmptyString
  end.

(** [s.slice(a, b)] for [0 <= a], [0 <= b]. *)
Definition slice (a b : nat) (s : string) : string := take (b - a) (drop a s).

Definition lower_char (c : ascii) : ascii :=
  let n := nat_of_ascii c in
  if ((65 <=? n) && (n <=? 90))%nat then ascii_of_nat (n + 32) else c.

(** [s.toLowerCase()] *)
Fixpoint toLowerCase (s : string) : string :=
  match s with
  | EmptyString => EmptyString
  | String c s' => String (lower_char c) (toLowerCase s')
  end.

(** [arr.includes(x)] on an array of strings. *)
Definition mem (x : string) (l : list string) : bool :=
  existsb (eqb x) l.

(** [arr.join(sep)] *)
Fixpoint join (sep : string) (l : list string) : string :=
  match l with
  | [] => ""
  | [x] => x
  | x :: rest => x +:+ sep +:+ join sep rest
  end.

(** [s.split("/")]: never empty, [split "" = [""]]. *)
Fixpoint split_slash (s : string) : list string :=
  match s with
  | EmptyString => [EmptyString]
  | String c s' =>
      if ceqb c "/" then EmptyString :: split_slash s'
      else match split_slash s' with
           | [] => [String c EmptyString]
           | seg :: rest => String c seg :: rest
           end
  end.

(** Template-literal rendering of an integer, [`${n}`]. *)
Definition of_Z (z : Z) : string :=
  DecimalString.NilZero.string_of_int (Z.to_int z).

End Str.

Global Arguments Str.eqb : simpl never.
Global Arguments Str.ceqb : simpl never.

(* ================================================================== *)
(** * Node's POSIX [path] module *)
(* ================================================================== *)

Module Path.

Definition isAbsolute (p : string) : bool :=
  match p with String c _ => Str.ceqb c "/" | EmptyString => false end.

(** [normalizeString]: the segments that survive, kept in reverse in
    [acc].  Empty and [.] segments vanish, [..] removes the segment
    before it; where there is none, or only [..] before it, it is
    kept if [allowAboveRoot] and dropped otherwise. *)
Fixpoint normalize_segs (allowAboveRoot : bool) (acc segs : list string)
  : list string :=
  match segs with
  | [] => rev acc
  | seg :: rest =>
      if Str.eqb seg "" || Str.eqb seg "." then
        normalize_segs allowAboveRoot acc rest
      else if Str.eqb seg ".." then
        match acc with
        | top :: acc' =>
            if Str.eqb top ".." then
              (if allowAboveRoot
               then normalize_segs allowAboveRoot (".." :: acc) rest
               else normalize_segs allowAboveRoot acc rest)
            else normalize_segs allowAboveRoot acc' rest
        | [] =>
            if allowAboveRoot then normalize_segs allowAboveRoot [".."] rest
            else normalize_segs allowAboveRoot [] rest
        end
      else normalize_segs allowAboveRoot (seg :: acc) rest
  end.

Definition normalizeString (p : string) (allowAboveRoot : bool) : string :=
  Str.join "/" (normalize_segs allowAboveRoot [] (Str.split_slash p)).

(** The right-to-left scan of [path.resolve]: stop at the first
    absolute argument; empty arguments are skipped. *)
Fixpoint resolve_scan (rargs : list string) (resolved : string)
  : string * bool :=
  match rargs with
  | [] => (resolved, false)
  | p :: rest =>
      if Str.eqb p "" then resolve_scan rest resolved
      else
        let r := p +:+ "/" +:+ resolved in
        if isAbsolute p then (r, true) else resolve_scan rest r
  end.

(** [path.resolve(...args)] in a process whose working directory is
    [cwd] (absolute). *)
Definition resolve (cwd : string) (args : list string) : string :=
  let '(r, isabs) := resolve_scan (rev args) "" in
  let '(r, isabs) :=
    if isabs then (r, true)
    else if Str.eqb cwd "" then (r, false)
    else (cwd +:+ "/" +:+ r, isAbsolute cwd) in
  let n := normalizeString r (negb isabs) in
  if isabs then "/" +:+ n
  else if Str.eqb n "" then "." else n.

Definition endsWithSlash (p : string) : bool :=
  match rev (Str.chars p) with
  | c :: _ => Str.ceqb c "/"
  | [] => false
  end.

(** [path.normalize(p)] *)
Definition normalize (p : string) : string :=
  if Str.eqb p "" then "."
  else
    let isabs := isAbsolute p in
    let trailing := endsWithSlash p in
    let n := normalizeString p (negb isabs) in
    if Str.eqb n "" then
      (if isabs then "/" else if trailing then "./" else ".")
    else
      let n' := if trailing then n +:+ "/" else n in
      if isabs then "/" +:+ n' else n'.

(** [path.join(...args)] (and [path.posix.join]). *)
Definition join (args : list string) : string :=
  let joined := Str.join "/" (filter (λ a, Str.truthy a = true) args) in
  if Str.eqb joined "" then "." else normalize joined.

Definition is_slash (c : ascii) : bool := Str.ceqb c "/".

Fixpoint drop_while (f : ascii → bool) (l : list ascii) : list ascii :=
  match l with
  | c :: l' => if f c then drop_while f l' else l
  | [] => []
  end.

Fixpoint take_while (f : ascii → bool) (l : list ascii) : list ascii :=
  match l with
  | c :: l' => if f c then c :: take_while f l' else []
  | [] => []
  end.

(** [path.basename(p)]: the last segment, trailing slashes ignored. *)
Definition basename (p : string) : string :=
  let r := drop_while is_slash (rev (Str.chars p)) in
  Str.of_chars (rev (take_while (λ c, negb (is_slash c)) r)).

(** [path.dirname(p)] *)
Definition dirname (p : string) : string :=
  match p with
  | EmptyString => "."
  | String c0 rest =>
      let hasRoot := Str.ceqb c0 "/" in
      let r1 := drop_while is_slash (rev (Str.chars rest)) in
      let r2 := drop_while (λ c, negb (is_slash c)) r1 in
      match r2 with
      | [] => if hasRoot then "/" else "."
      | _ :: before =>
          if hasRoot && bool_decide (before = []) then "//"
          else Str.of_chars (c0 :: rev before)
      end
  end.

(** [path.extname(p)]: from the last dot of the base name, empty when
    there is no dot, when the dot leads the base name, and for [..]. *)
Definition extname (p : string) : string :=
  let b := basename p in
  if Str.eqb b ".." then ""
  else match Str.lastIndexOfChar b "." with
       | None => ""
       | Some O => ""
       | Some i => Str.drop i b
       end.

Definition segments (p : string) : list string :=
  normalize_segs false [] (Str.split_slash p).

Fixpoint strip_common (a b : list string) : list string * list string :=
  match a, b with
  | x :: a', y :: b' => if Str.eqb x y then strip_common a' b' else (a, b)
  | _, _ => (a, b)
  end.

(** [path.relative(from, to)]: both are resolved, the common leading
    segments go, each remaining segment of [from] becomes [..]. *)
Definition relative (cwd from to : string) : string :=
  if Str.eqb from to then ""
  else
    let '(fr, tr) := strip_common (segments (resolve cwd [from]))
                                  (segments (resolve cwd [to])) in
    Str.join "/" (map (λ _, "..") fr ++ tr).

End Path.


(* ================================================================== *)
(** * Errors and results *)
(* ================================================================== *)

(** The errors the back end can raise, with the text [e.message] has.
    The first is thrown by [sanitizePath]; the [E...] ones are Node's
    system errors; the others are thrown by fs-extra's [move]. *)
Inductive JsError :=
| PathEscapes
| ENOENT (syscall path : string)
| ENOTDIR (syscall path : string)
| EEXIST (syscall path : string)
| EISDIR (syscall path : string)
| DestExists
| SameFile
| OverwriteNonDir (dest src : string)
| OverwriteDir (dest src : string)
| MoveIntoSelf (src dest : string)
| TypeError (msg : string)
| OtherError (msg : string).

Definition sys_message (code what syscall path : string) : string :=
  code +:+ ": " +:+ what +:+ ", " +:+ syscall +:+ " '" +:+ path +:+ "'".

Definition message (e : JsError) : string :=
  match e with
  | PathEscapes => "Path escapes demo filesystem"
  | ENOENT sc p => sys_message "ENOENT" "no such file or directory" sc p
  | ENOTDIR sc p => sys_message "ENOTDIR" "not a directory" sc p
  | EEXIST sc p => sys_message "EEXIST" "file already exists" sc p
  | EISDIR sc p => sys_message "EISDIR" "illegal operation on a directory" sc p
  | DestExists => "dest already exists."
  | SameFile => "Source and destination must not be the same."
  | OverwriteNonDir d s =>
      "Cannot overwrite non-directory '" +:+ d +:+ "' with directory '" +:+ s +:+ "'."
  | OverwriteDir d s =>
      "Cannot overwrite directory '" +:+ d +:+ "' with non-directory '" +:+ s +:+ "'."
  | MoveIntoSelf s d =>
      "Cannot move '" +:+ s +:+ "' to a subdirectory of itself, '" +:+ d +:+ "'."
  | TypeError m => m
  | OtherError m => m
  end.

Inductive result (A : Type) :=
| OK (a : A)
| Err (e : JsError).
Arguments OK {A} a.
Arguments Err {A} e.

(** [result] is a monad; [x ← r; k] is stdpp's notation for its bind. *)
Global Instance result_ret : MRet result := λ A a, OK a.
Global Instance result_bind : MBind result := λ A B k r,
  match r with OK a => k a | Err e => Err e end.

Definition is_OK {A} (r : result A) : bool :=
  match r with OK _ => true | Err _ => false end.

(* ================================================================== *)
(** * The data model of [services.ts] *)
(* ================================================================== *)

Inductive NodeType := file | dir.

Global Instance NodeType_eq_dec : EqDecision NodeType.
Proof. solve_decision. Defined.

(** [FileNode]: the optional fields are [option]s, [None] for
    [undefined]. *)
#[warnings="-register-all"] Inductive FileNode := mkFileNode {
  name : string;
  path : string;
  type : NodeType;
  size : option Z;
  ext : option string;
  children : option (list FileNode);
  atimeMs : option Z;
  mtimeMs : option Z
}.

Record MoveOp := mkMoveOp { from : string; to : string; reason : string }.

Inductive Confidence := low | medium | high.

Record DeleteSuggestion := mkDeleteSuggestion {
  ds_file : string;
  ds_reason : string;
  confidence : Confidence;
  sizeBytes : option Z;
  safeToDelete : bool
}.

Record Plan := mkPlan { moves : list MoveOp; deletions : list DeleteSuggestion }.

Global Instance MoveOp_eq_dec : EqDecision MoveOp.
Proof. solve_decision. Defined.
Global Instance Confidence_eq_dec : EqDecision Confidence.
Proof. solve_decision. Defined.
Global Instance DeleteSuggestion_eq_dec : EqDecision DeleteSuggestion.
Proof. solve_decision. Defined.
Global Instance Plan_eq_dec : EqDecision Plan.
Proof. solve_decision. Defined.

Definition emptyPlan : Plan := {| moves := []; deletions := [] |}.

(** JS truthiness of an optional number ([undefined] and [0] are
    falsy) and of an optional string. *)
Definition truthyZ (o : option Z) : bool :=
  match o with Some z => negb (z =? 0) | None => false end.

Definition orEmpty (o : option string) : string := default "" o.

(** A structural induction principle that reaches the children. *)
Section FileNode_ind.
Variable P : FileNode → Prop.
Hypothesis Hleaf : ∀ n, children n = None → P n.
Hypothesis Hnode : ∀ n cs, children n = Some cs → Forall P cs → P n.

Fixpoint FileNode_nested_ind (n : FileNode) : P n :=
  match n as n0 return P n0 with
  | mkFileNode nm p t s e None a m =>
      Hleaf (mkFileNode nm p t s e None a m) eq_refl
  | mkFileNode nm p t s e (Some cs) a m =>
      Hnode (mkFileNode nm p t s e (Some cs) a m) cs eq_refl
        ((fix go (l : list FileNode) : Forall P l :=
            match l with
            | [] => @List.Forall_nil _ P
            | c :: l' => @List.Forall_cons _ P c l' (FileNode_nested_ind c) (go l')
            end) cs)
  end.
End FileNode_ind.

(** [flattenFiles]: the file leaves, depth first, in child order. *)
Fixpoint flattenFiles (node : FileNode) : list FileNode :=
  match node with
  | mkFileNode _ _ t _ _ cs _ _ =>
      match t with
      | file => [node]
      | dir =>
          match cs with
          | Some l => flat_map flattenFiles l
          | None => []
          end
      end
  end.

(* ================================================================== *)
(** * The disk *)
(* ================================================================== *)

(** What is on disk: regular files and directories.  [size] is the size
    [stat] reports, [content] what a read stream delivers, the entries
    of a directory are in the order [readdir] lists them.  Entry names
    are plain (non-empty, no [/], neither [.] nor [..]) and distinct
    within a directory. *)
#[warnings="-register-all"] Inductive Inode :=
| IFile (fsize fatimeMs fmtimeMs : Z) (content : string)
| IDir (datimeMs dmtimeMs : Z) (entries : list (string * Inode)).

(** The whole file system is the inode of [/]. *)
Definition FS := Inode.

Fixpoint assoc {A} (k : string) (l : list (string * A)) : option A :=
  match l with
  | [] => None
  | (k', v) :: l' => if Str.eqb k k' then Some v else assoc k l'
  end.

(** Walking down from an inode; [syscall] and [abs] only label the
    error.  The disk is one the process may read and search, and the
    segments are names a file system takes (no NUL byte, at most 255
    bytes each): the two errors left are the entry that is missing
    and the regular file on the way. *)
Fixpoint walk (syscall abs : string) (segs : list string) (n : Inode)
  : result Inode :=
  match segs with
  | [] => OK n
  | s :: rest =>
      match n with
      | IFile _ _ _ _ => Err (ENOTDIR syscall abs)
      | IDir _ _ es =>
          match assoc s es with
          | Some c => walk syscall abs rest c
          | None => Err (ENOENT syscall abs)
          end
      end
  end.

Definition fs_stat (syscall abs : string) (fs : FS) : result Inode :=
  walk syscall abs (Path.segments abs) fs.

(** [fse.pathExists] *)
Definition pathExists (abs : string) (fs : FS) : bool :=
  is_OK (fs_stat "access" abs fs).

Definition isDirectory (n : Inode) : bool :=
  match n with IDir _ _ _ => true | IFile _ _ _ _ => false end.

Fixpoint set_entry {A} (k : string) (v : A) (l : list (string * A))
  : list (string * A) :=
  match l with
  | [] => [(k, v)]
  | (k', v') :: l' =>
      if Str.eqb k k' then (k, v) :: l' else (k', v') :: set_entry k v l'
  end.

Fixpoint del_entry {A} (k : string) (l : list (string * A))
  : list (string * A) :=
  match l with
  | [] => []
  | (k', v') :: l' =>
      if Str.eqb k k' then del_entry k l' else (k', v') :: del_entry k l'
  end.

(** A chain of new, empty directories, stamped [now]. *)
Fixpoint fresh_dirs (now : Z) (segs : list string) : Inode :=
  match segs with
  | [] => IDir now now []
  | s :: rest => IDir now now [(s, fresh_dirs now rest)]
  end.

(** [mkdir -p]: existing directories are kept, missing ones are added
    at the end of their parent; a regular file on the way is an error
    and then nothing is created. *)
Fixpoint mkdirp (now : Z) (abs : string) (segs : list string) (n : Inode)
  : result Inode :=
  match n with
  | IFile _ _ _ _ =>
      Err (match segs with
           | [] => EEXIST "mkdir" abs
           | _ => ENOTDIR "mkdir" abs
           end)
  | IDir a m es =>
      match segs with
      | [] => OK n
      | s :: rest =>
          match assoc s es with
          | Some c =>
              c' ← mkdirp now abs rest c;
              OK (IDir a m (set_entry s c' es))
          | None => OK (IDir a m (es ++ [(s, fresh_dirs now rest)]))
          end
      end
  end.

(** [fse.ensureDir(dir)] *)
Definition ensureDir (now : Z) (d : string) (fs : FS) : FS * result () :=
  match mkdirp now d (Path.segments d) fs with
  | OK fs' => (fs', OK ())
  | Err e => (fs, Err e)
  end.

(** Unlinking the entry at a path (nothing happens if it is absent). *)
Fixpoint unlink (segs : list string) (n : Inode) : Inode :=
  match segs, n with
  | [s], IDir a m es => IDir a m (del_entry s es)
  | s :: rest, IDir a m es =>
      match assoc s es with
      | Some c => IDir a m (set_entry s (unlink rest c) es)
      | None => n
      end
  | _, _ => n
  end.

(** Linking [new] at a path whose parent directory exists. *)
Fixpoint link (abs : string) (segs : list string) (new n : Inode)
  : result Inode :=
  match segs, n with
  | [], _ => Err (EEXIST "rename" abs)
  | _ :: _, IFile _ _ _ _ => Err (ENOTDIR "rename" abs)
  | [s], IDir a m es => OK (IDir a m (set_entry s new es))
  | s :: rest, IDir a m es =>
      match assoc s es with
      | Some c =>
          c' ← link abs rest new c;
          OK (IDir a m (set_entry s c' es))
      | None => Err (ENOENT "rename" abs)
      end
  end.

(** [fs.rename(src, dest)] when [dest] does not exist. *)
Definition rename (src dest : string) (fs : FS) : FS * result () :=
  match fs_stat "rename" src fs with
  | Err e => (fs, Err e)
  | OK n =>
      match link dest (Path.segments dest) n (unlink (Path.segments src) fs) with
      | OK fs' => (fs', OK ())
      | Err e => (fs, Err e)
      end
  end.

(** [isSrcSubdir] of fs-extra: every segment of [src] is the segment of
    [dest] at the same place. *)
Definition isSrcSubdir (src dest : string) : bool :=
  bool_decide (Path.segments src `prefix_of` Path.segments dest).

(** The checks of fs-extra's [move] before anything is touched
    ([checkPaths]); without links two paths name the same file exactly
    when their segments agree. *)
Definition checkPaths (src dest : string) (fs : FS) : result () :=
  srcStat ← fs_stat "lstat" src fs;
  destStat ← match fs_stat "stat" dest fs with
             | OK d => OK (Some d)
             | Err (ENOENT _ _) => OK None
             | Err e => Err e
             end;
  _ ← match destStat with
      | Some d =>
          if bool_decide (Path.segments src = Path.segments dest)
          then Err SameFile
          else if isDirectory srcStat && negb (isDirectory d)
          then Err (OverwriteNonDir dest src)
          else if negb (isDirectory srcStat) && isDirectory d
          then Err (OverwriteDir dest src)
          else OK ()
      | None => OK ()
      end;
  if isDirectory srcStat && isSrcSubdir src dest
  then Err (MoveIntoSelf src dest)
  else OK ().

(** [fse.move(src, dest, { overwrite: false })] *)
Definition move (now : Z) (src dest : string) (fs : FS) : FS * result () :=
  match checkPaths src dest fs with
  | Err e => (fs, Err e)
  | OK _ =>
      let destParent := Path.dirname dest in
      let '(fs1, made) :=
        if Str.eqb destParent "/" then (fs, OK ())
        else ensureDir now destParent fs in
      match made with
      | Err e => (fs1, Err e)
      | OK _ =>
          if pathExists dest fs1 then (fs1, Err DestExists)
          else rename src dest fs1
      end
  end.

(* ================================================================== *)
(** * JSON values and the organizer agent ([agent.ts]) *)
(* ================================================================== *)

(** A value as [JSON.parse] delivers it.  The fields of an object are
    in key order with distinct keys; numbers are exact rationals. *)
#[warnings="-register-all"] Inductive json :=
| JNull
| JBool (b : bool)
| JNum (q : Q)
| JStr (s : string)
| JArr (items : list json)
| JObj (fields : list (string * json)).

Module Json.

(** JS truthiness: [null], [false], [0] and [""] are falsy. *)
Definition truthy (v : json) : bool :=
  match v with
  | JNull => false
  | JBool b => b
  | JNum q => negb (Qnum q =? 0)
  | JStr s => Str.truthy s
  | JArr _ | JObj _ => true
  end.

(** [v[k]] for a key that is no built-in property: [None] is
    [undefined]; reading a property of [null] throws. *)
Definition get (v : json) (k : string) : result (option json) :=
  match v with
  | JNull => Err (TypeError ("Cannot read properties of null (reading '" +:+ k +:+ "')"))
  | JObj fields => OK (assoc k fields)
  | _ => OK None
  end.

Definition of_move (m : MoveOp) : json :=
  JObj [("from", JStr (from m)); ("to", JStr (to m)); ("reason", JStr (reason m))].

End Json.

(** What [tryLlmOrganize] returns: [moves] is a JSON value because the
    organizer's answer is passed on as received. *)
Record AgentPlan := mkAgentPlan {
  ap_moves : json;
  ap_deletions : list DeleteSuggestion
}.

(** The typed reading of a move and of an agent plan, where there is
    one. *)
Definition move_of_json (v : json) : option MoveOp :=
  match v with
  | JObj fields =>
      match assoc "from" fields, assoc "to" fields, assoc "reason" fields with
      | Some (JStr f), Some (JStr t), Some (JStr r) => Some (mkMoveOp f t r)
      | _, _, _ => None
      end
  | _ => None
  end.

Definition plan_of_agent (p : AgentPlan) : option Plan :=
  match ap_moves p with
  | JArr items =>
      ms ← mapM move_of_json items;
      Some {| moves := ms; deletions := ap_deletions p |}
  | _ => None
  end.

(** One entry of the file list sent to the organizer and the model. *)
Record FileSummary := mkFileSummary {
  fs_name : string;
  fs_path : string;
  fs_type : NodeType;
  fs_ext : option string;
  fs_size : option Z;
  atimeDays : option Z
}.

Definition msPerDay : Z := 1000 * 60 * 60 * 24.

Definition summarize (now : Z) (f : FileNode) : FileSummary :=
  {| fs_name := name f;
     fs_path := path f;
     fs_type := type f;
     fs_ext := ext f;
     fs_size := size f;
     atimeDays := if truthyZ (atimeMs f)
                  then Some ((now - default 0 (atimeMs f)) / msPerDay)
                  else None |}.

(** The outcome of [fetch]: rejected, or a response with [res.ok] and
    a body. *)
Inductive FetchOutcome :=
| FetchRejected
| FetchResponse (ok : bool) (status : Z) (body : string).

(** [res.content] of the model's answer: a string, an array (with the
    [text] of its first element if it has one, and its
    [JSON.stringify]), or something else (with its [String(...)]). *)
Inductive RawContent :=
| RawString (s : string)
| RawArray (firstText : option string) (stringified : string)
| RawOther (asString : string).

(** The outside world of the agent.  [JSON_parse] is [None] where
    [JSON.parse] throws.  [fetch] gets the URL, the instructions and
    the file summaries of the request body; [invoke] gets the model
    name and what the prompt is built from, and is [None] when the
    import or the call throws. *)
Record World := mkWorld {
  LLM_BASE_URL : option string;
  GOOGLE_API_KEY : option string;
  GEMINI_MODEL : option string;
  Date_now : Z;
  JSON_parse : string → option json;
  fetch : string → string → list FileSummary → FetchOutcome;
  invoke : string → string → list FileSummary → option RawContent
}.

Module Agent.

Definition is_space (c : ascii) : bool :=
  let n := nat_of_ascii c in
  ((n =? 32) || ((9 <=? n) && (n <=? 13)))%nat.

Fixpoint skip_spaces (s : string) : string :=
  match s with
  | String c s' => if is_space c then skip_spaces s' else s
  | EmptyString => EmptyString
  end.

Definition fence_open : string := "```json".
Definition fence_close : string := "```".

(** The capture of the regular expression
    [/```json\s*([\s\S]*?)```/i]: after the first [```json] (in any
    case) and the white space behind it, everything up to the next
    [```]. *)
Definition match_codeBlock (text : string) : option string :=
  i ← Str.indexOf (Str.toLowerCase text) fence_open;
  let body := skip_spaces (Str.drop (i + String.length fence_open) text) in
  j ← Str.indexOf body fence_close;
  Some (Str.take j body).

Section Extract.
Variable parse : string → option json.

Definition try_whole (text : string) : option json := parse text.

Definition try_codeBlock (text : string) : option json :=
  match match_codeBlock text with
  | Some captured => if Str.truthy captured then parse captured else None
  | None => None
  end.

Definition try_curly (text : string) : option json :=
  match Str.indexOf text "{", Str.lastIndexOfChar text "}" with
  | Some firstCurly, Some lastCurly =>
      if (firstCurly <? lastCurly)%nat
      then parse (Str.slice firstCurly (lastCurly + 1) text)
      else None
  | _, _ => None
  end.

(** [extractJson]; the result [null] is [JNull]. *)
Definition extractJson (text : string) : json :=
  match try_whole text with
  | Some v => v
  | None =>
      match try_codeBlock text with
      | Some v => v
      | None =>
          match try_curly text with
          | Some v => v
          | None => JNull
          end
      end
  end.
End Extract.

(** The zod schema [{ moves: array({from, to, reason}).optional() }]:
    [None] when validation fails, [Some None] when [moves] is
    absent. *)
Definition schema_safeParse (v : json) : option (option (list MoveOp)) :=
  match v with
  | JObj fields =>
      match assoc "moves" fields with
      | None => Some None
      | Some (JArr items) =>
          match mapM move_of_json items with
          | Some ms => Some (Some ms)
          | None => None
          end
      | Some _ => None
      end
  | _ => None
  end.

Definition env_set (v : option string) : option string :=
  match v with
  | Some s => if Str.truthy s then Some s else None
  | None => None
  end.

(** The first tier: the organizer behind [LLM_BASE_URL].  [None]
    means the [catch] was reached (or no URL is set) and the next
    tier is tried. *)
Definition organizer_tier (w : World) (files : list FileNode)
    (instructions : string) : option AgentPlan :=
  match env_set (LLM_BASE_URL w) with
  | None => None
  | Some llmBase =>
      let summaries := map (summarize (Date_now w)) (take 500 files) in
      match fetch w (llmBase +:+ "/v1/organize") instructions summaries with
      | FetchRejected => None
      | FetchResponse ok _ body =>
          if negb ok then None
          else
            match JSON_parse w body with
            | None => None
            | Some data =>
                match Json.get data "moves" with
                | Err _ => None
                | OK m =>
                    let mv := default JNull m in
                    Some {| ap_moves := if Json.truthy mv then mv else JArr [];
                            ap_deletions := [] |}
                end
            end
      end
  end.

Definition content_text (raw : RawContent) : string :=
  match raw with
  | RawString s => s
  | RawArray (Some t) _ => t
  | RawArray None stringified => stringified
  | RawOther s => s
  end.

(** The second tier: the generative model behind [GOOGLE_API_KEY]. *)
Definition model_tier (w : World) (files : list FileNode)
    (instructions : string) : option AgentPlan :=
  match env_set (GOOGLE_API_KEY w) with
  | None => None
  | Some apiKey =>
      let modelName := default "gemini-1.5-flash" (GEMINI_MODEL w) in
      let fileSummaries := map (summarize (Date_now w)) (take 500 files) in
      match invoke w modelName instructions fileSummaries with
      | None => None
      | Some rawContent =>
          let text := content_text rawContent in
          let json := extractJson (JSON_parse w) text in
          let parsed := if Json.truthy json then schema_safeParse json else None in
          let moves := match parsed with
                       | Some (Some ms) => ms
                       | _ => []
                       end in
          Some {| ap_moves := JArr (map Json.of_move moves);
                  ap_deletions := [] |}
      end
  end.

(** [tryLlmOrganize]; [None] is [null]. *)
Definition tryLlmOrganize (w : World) (files : list FileNode)
    (instructions : string) : option AgentPlan :=
  match organizer_tier w files instructions with
  | Some plan => Some plan
  | None => model_tier w files instructions
  end.

End Agent.

(* ================================================================== *)
(** * The services ([services.ts]) *)
(* ================================================================== *)

(** [DEMO_FS_PATH]: the environment's value, else [data/demo_fs] under
    the working directory. *)
Definition default_DEMO_FS_PATH (cwd : string) (env : option string) : string :=
  match Agent.env_set env with
  | Some p => p
  | None => Path.resolve cwd ["data/demo_fs"]
  end.

Definition MiB : Z := 1024 * 1024.

Section Services.

(** The working directory of the process and the sandbox root, an
    absolute directory. *)
Variable cwd : string.
Variable DEMO_FS_PATH : string.

Definition safeRoot : string := Path.resolve cwd [DEMO_FS_PATH].

Definition sanitizePath (rel : string) : result string :=
  let target := Path.resolve cwd [safeRoot; "." +:+ rel] in
  if negb (Str.startsWith target safeRoot) then Err PathEscapes
  else OK target.

Definition toRel (absPath : string) : string :=
  let rel := Path.relative cwd DEMO_FS_PATH absPath in
  "/" +:+ Str.join "/" (Str.split_slash rel).

(** [buildTree] below an inode already found at [absPath]. *)
Fixpoint buildTreeAt (absPath : string) (st : Inode) : FileNode :=
  match st with
  | IFile sz atm mtm _ =>
      {| name := Path.basename absPath;
         path := toRel absPath;
         type := file;
         size := Some sz;
         ext := Some (Str.toLowerCase (Str.drop 1 (Path.extname absPath)));
         children := None;
         atimeMs := Some atm;
         mtimeMs := Some mtm |}
  | IDir atm mtm entries =>
      {| name := Path.basename absPath;
         path := toRel absPath;
         type := dir;
         size := None;
         ext := None;
         children :=
           Some (map (λ ent, buildTreeAt (Path.join [absPath; ent.1]) ent.2)
                     entries);
         atimeMs := Some atm;
         mtimeMs := Some mtm |}
  end.

Definition buildTree (absPath : string) (fs : FS) : result FileNode :=
  st ← fs_stat "stat" absPath fs;
  OK (buildTreeAt absPath st).

Definition scanDirectory (relativeDir : string) (fs : FS) : result FileNode :=
  root ← sanitizePath relativeDir;
  buildTree root fs.

(* ---------------------------------------------------------------- *)
(** ** Applying a plan *)

(** One turn of the loop of [applyPlan]. *)
Definition applyMove (now : Z) (m : MoveOp) (fs : FS) : FS * result () :=
  match sanitizePath (from m) with
  | Err e => (fs, Err e)
  | OK fromAbs =>
      match sanitizePath (to m) with
      | Err e => (fs, Err e)
      | OK toAbs =>
          match ensureDir now (Path.dirname toAbs) fs with
          | (fs1, Err e) => (fs1, Err e)
          | (fs1, OK _) => move now fromAbs toAbs fs1
          end
      end
  end.

(** The loop with its counter [moved]; when a move throws, the loop
    is left with the disk as it is and the counter where it was. *)
Fixpoint applyPlan_loop (now : Z) (ms : list MoveOp) (moved : nat) (fs : FS)
  : FS * nat * option JsError :=
  match ms with
  | [] => (fs, moved, None)
  | m :: rest =>
      match applyMove now m fs with
      | (fs', Err e) => (fs', moved, Some e)
      | (fs', OK _) => applyPlan_loop now rest (S moved) fs'
      end
  end.

(** [applyPlan]: what the caller gets is [{ moved }] or the error
    thrown; the local counter is gone with the exception. *)
Definition applyPlan (now : Z) (plan : Plan) (fs : FS) : FS * result nat :=
  match applyPlan_loop now (moves plan) 0 fs with
  | (fs', moved, None) => (fs', OK moved)
  | (fs', _, Some e) => (fs', Err e)
  end.

(* ---------------------------------------------------------------- *)
(** ** Previewing a plan *)

(** [afterPaths]: a [Map] filled by [set] in plan order. *)
Definition afterPaths (ms : list MoveOp) : gmap string string :=
  foldl (λ acc m, <[from m := to m]> acc) ∅ ms.

Definition mapPath (ap : gmap string string) (p : string) : string :=
  match ap !! p with
  | Some t => if Str.truthy t then t else p
  | None => p
  end.

Fixpoint cloneNode (ap : gmap string string) (n : FileNode) : FileNode :=
  match n with
  | mkFileNode nm p t s e cs a m =>
      match t with
      | dir =>
          mkFileNode nm p t s e
            (Some match cs with
                  | Some l => map (cloneNode ap) l
                  | None => []
                  end) a m
      | file => mkFileNode nm (mapPath ap p) t s e cs a m
      end
  end.

Definition previewPlan (plan : Plan) (fs : FS)
  : FS * result (FileNode * FileNode) :=
  (fs, before ← buildTree DEMO_FS_PATH fs;
       OK (before, cloneNode (afterPaths (moves plan)) before)).

(* ---------------------------------------------------------------- *)
(** ** Detecting garbage *)

(** [hashFile]: the SHA-1 of what the read stream delivers, in hex.
    [sha1_hex] stands for the digest; it is a string of forty hex
    digits, so as a key of an object it is an ordinary property, kept
    in insertion order. *)
Variable sha1_hex : string → string.

Definition hashFile (absPath : string) (fs : FS) : result string :=
  st ← fs_stat "open" absPath fs;
  match st with
  | IFile _ _ _ content => OK (sha1_hex content)
  | IDir _ _ _ => Err (EISDIR "read" absPath)
  end.

Definition junkExts : list string := ["tmp"; "log"; "cache"; "bak"; "old"].

(** [/(^~|\.DS_Store$)/.test(name)] *)
Definition junkName (nm : string) : bool :=
  Str.startsWith nm "~" || Str.endsWith nm ".DS_Store".

Definition lowerExt (f : FileNode) : string :=
  Str.toLowerCase (orEmpty (ext f)).

Definition isJunk (f : FileNode) : bool :=
  Str.mem (lowerExt f) junkExts || junkName (name f).

Definition ageDays (now : Z) (f : FileNode) : Z :=
  match atimeMs f with
  | Some a => if negb (a =? 0) then (now - a) / msPerDay else 0
  | None => 0
  end.

(** [(size / (1024 * 1024)).toFixed(1)] for a positive size: the
    nearest tenth, a tie going up. *)
Definition toFixed1_MiB (sz : Z) : string :=
  let tenths := (sz * 10 * 2 + MiB) / (2 * MiB) in
  Str.of_Z (tenths / 10) +:+ "." +:+ Str.of_Z (tenths mod 10).

Definition junkSuggestion (now : Z) (f : FileNode) : DeleteSuggestion :=
  {| ds_file := path f;
     ds_reason := "Temporary or system artifact ("
                  +:+ (if Str.truthy (lowerExt f) then lowerExt f else name f)
                  +:+ "), last accessed " +:+ Str.of_Z (ageDays now f)
                  +:+ " days ago";
     confidence := high;
     sizeBytes := size f;
     safeToDelete := true |}.

Definition largeSuggestion (now : Z) (f : FileNode) : DeleteSuggestion :=
  {| ds_file := path f;
     ds_reason := "Large file (" +:+ toFixed1_MiB (default 0 (size f))
                  +:+ " MB) rarely accessed (" +:+ Str.of_Z (ageDays now f)
                  +:+ " days)";
     confidence := medium;
     sizeBytes := size f;
     safeToDelete := false |}.

Definition duplicateSuggestion (original p : string) : DeleteSuggestion :=
  {| ds_file := p;
     ds_reason := "Duplicate of " +:+ original +:+ " (same content hash)";
     confidence := high;
     sizeBytes := None;
     safeToDelete := true |}.

Definition isStaleLarge (now : Z) (f : FileNode) : bool :=
  truthyZ (size f) && (50 * MiB <? default 0 (size f)) && (90 <? ageDays now f).

Definition isHashed (f : FileNode) : bool :=
  truthyZ (size f) && (default 0 (size f) <? 20 * MiB).

(** [hashToFile]: the keys in the order they were first set, each
    with the paths pushed under it. *)
Definition HashGroups := list (string * list string).

Fixpoint pushPath (hash p : string) (g : HashGroups) : HashGroups :=
  match g with
  | [] => [(hash, [p])]
  | (h, ps) :: g' =>
      if Str.eqb hash h then (h, ps ++ [p]) :: g'
      else (h, ps) :: pushPath hash p g'
  end.

(** The body of the first loop for one file. *)
Definition detectFile (now : Z) (fs : FS) (f : FileNode)
    (st : list DeleteSuggestion * HashGroups)
  : result (list DeleteSuggestion * HashGroups) :=
  let '(suggestions, hashToFile) := st in
  abs ← sanitizePath (path f);
  if isJunk f then OK (suggestions ++ [junkSuggestion now f], hashToFile)
  else
    let suggestions :=
      if isStaleLarge now f then suggestions ++ [largeSuggestion now f]
      else suggestions in
    if isHashed f then
      hash ← hashFile abs fs;
      OK (suggestions, pushPath hash (path f) hashToFile)
    else OK (suggestions, hashToFile).

Fixpoint detectFiles (now : Z) (fs : FS) (files : list FileNode)
    (st : list DeleteSuggestion * HashGroups)
  : result (list DeleteSuggestion * HashGroups) :=
  match files with
  | [] => OK st
  | f :: rest =>
      st' ← detectFile now fs f st;
      detectFiles now fs rest st'
  end.

(** The second loop: in every group the members after the first. *)
Definition duplicatesOf (g : HashGroups) : list DeleteSuggestion :=
  flat_map (λ files : string * list string,
              match files.2 with
              | [] => []
              | original :: others => map (duplicateSuggestion original) others
              end) g.

(** The two loops of [detectGarbage] on the flattened files. *)
Definition detectIn (now : Z) (fs : FS) (allFiles : list FileNode)
  : result (list DeleteSuggestion) :=
  st ← detectFiles now fs allFiles ([], []);
  OK (st.1 ++ duplicatesOf st.2).

Definition detectGarbage (now : Z) (fs : FS) : result (list DeleteSuggestion) :=
  tree ← buildTree DEMO_FS_PATH fs;
  detectIn now fs (flattenFiles tree).

(* ---------------------------------------------------------------- *)
(** ** Synthesizing a plan *)

Definition decideCategory (f : FileNode) (instructions : string) : string :=
  let ext := Str.toLowerCase (orEmpty (ext f)) in
  let text := Str.toLowerCase instructions in
  if Str.includes text "by type" || true then
    if Str.mem ext ["ts"; "tsx"; "js"; "jsx"; "py"; "go"; "java"; "rb"] then "Code"
    else if Str.mem ext ["md"; "txt"; "pdf"; "doc"; "docx"] then "Documents"
    else if Str.mem ext ["png"; "jpg"; "jpeg"; "gif"; "webp"; "svg"] then "Images"
    else if Str.mem ext ["zip"; "tar"; "gz"; "rar"; "7z"] then "Archives"
    else if Str.mem ext ["csv"; "json"; "xlsx"] then "Data"
    else "Misc"
  else "Misc".

Definition heuristicTarget (f : FileNode) (instructions : string) : string :=
  Path.join ["/demo"; decideCategory f instructions; name f].

(** The loop of the fallback for one file. *)
Definition heuristicStep (instructions : string) (acc : list MoveOp)
    (f : FileNode) : list MoveOp :=
  let category := decideCategory f instructions in
  let target := Path.join ["/demo"; category; name f] in
  if negb (Str.eqb (path f) target) then
    acc ++ [{| from := path f;
               to := target;
               reason := "Place in " +:+ category
                         +:+ " based on extension and instructions" |}]
  else acc.

(** The heuristic fallback of [createPlanFromInstructions]. *)
Definition heuristicPlan (files : list FileNode) (instructions : string) : Plan :=
  {| moves := foldl (heuristicStep instructions) [] files; deletions := [] |}.

(** The plan of [createPlanFromInstructions], tagged with where it
    came from. *)
Inductive Synthesized :=
| FromAgent (p : AgentPlan)
| FromHeuristic (p : Plan).

Definition createPlanFromInstructions (w : World) (instructions : string)
    (fs : FS) : result Synthesized :=
  tree ← buildTree DEMO_FS_PATH fs;
  let files := flattenFiles tree in
  match Agent.tryLlmOrganize w files instructions with
  | Some llmPlan => OK (FromAgent llmPlan)
  | None => OK (FromHeuristic (heuristicPlan files instructions))
  end.

End Services.

(* ================================================================== *)
(** * The [/apply] route ([routes.ts]) *)
(* ================================================================== *)

(** The server: the disk and the plan store.  The store holds a typed
    plan, which is what the heuristic tier and the model tier return
    and what [/apply] leaves behind; the moves of the organizer are
    stored as they were received and need not be one. *)
Record Server := mkServer { disk : FS; currentPlan : Plan }.

(** The two bodies [POST /apply] can answer with. *)
Inductive ApplyResponse :=
| ApplyOk (moved : nat)
| ApplyFailed (status : Z) (error : string).

Definition post_apply (cwd DEMO_FS_PATH : string) (now : Z) (s : Server)
  : Server * ApplyResponse :=
  let plan := currentPlan s in
  match applyPlan cwd DEMO_FS_PATH now plan (disk s) with
  | (fs', OK moved) =>
      ({| disk := fs'; currentPlan := emptyPlan |}, ApplyOk moved)
  | (fs', Err e) =>
      ({| disk := fs'; currentPlan := plan |},
       ApplyFailed 500 (if Str.truthy (message e) then message e else "apply_failed"))
  end.

(* ================================================================== *)
(** * The terminal of the front end ([Terminal.tsx]) *)
(* ================================================================== *)

Inductive TerminalLine :=
| cmd (text : string)
| out (text : string)
| err (text : string).

(** The characters written with an escape in the source. *)
Definition quote : ascii := "034"%char.
Definition newline : string := String "010"%char "".

(** [s.split(" ")]: never empty. *)
Fixpoint split_space (s : string) : list string :=
  match s with
  | EmptyString => [EmptyString]
  | String c s' =>
      if Str.ceqb c " " then EmptyString :: split_space s'
      else match split_space s' with
           | [] => [String c EmptyString]
           | seg :: rest => String c seg :: rest
           end
  end.

(** [s.trim()], for the white space that [Agent.is_space] knows: the
    space and the ASCII control characters 9 to 13. *)
Definition trim (s : string) : string :=
  String.rev (Agent.skip_spaces (String.rev (Agent.skip_spaces s))).

(** [s.replace(/^"|"$/g, "")]: a quote at the start goes, and a quote
    at the end of what is left. *)
Definition stripQuotes (s : string) : string :=
  let s1 := match s with
            | String c s' => if Str.ceqb c quote then s' else s
            | EmptyString => s
            end in
  match String.rev s1 with
  | String c r => if Str.ceqb c quote then String.rev r else s1
  | EmptyString => s1
  end.

(** What [fetch] and [res.json()] deliver: the request is rejected, or
    there is a response with [res.ok], the status and its text, and
    the body as [res.json()] returns or throws it. *)
Inductive HttpOutcome :=
| HttpRejected (e : JsError)
| HttpResponse (ok : bool) (status : Z) (statusText : string) (parsed : result json).

Section Terminal.

(** The network ([fetch] with the URL and the JSON of the body) and
    [JSON.stringify(data, null, 2)]. *)
Variable http : string → json → HttpOutcome.
Variable stringify : json → string.

(** [apiPost(base, path, body)] *)
Definition apiPost (base path : string) (body : json) : result json :=
  match http (base +:+ path) body with
  | HttpRejected e => Err e
  | HttpResponse ok status statusText parsed =>
      if negb ok then Err (OtherError (Str.of_Z status +:+ " " +:+ statusText))
      else parsed
  end.

Definition help : string :=
  Str.join newline
    ["Help:"; " scan <dir>";
     " organize " +:+ String quote "<instructions>" +:+ String quote "";
     " clean"; " preview"; " apply"; " reset"].

(** The state of the component: the lines shown and the input
    field. *)
Record Terminal := mkTerminal { lines : list TerminalLine; input : string }.

Definition print (l : TerminalLine) (t : Terminal) : Terminal :=
  {| lines := lines t ++ [l]; input := input t |}.

(** The [try] block of [run] around one request: the answer is
    printed, an exception is caught and its message printed. *)
Definition request (apiBase path : string) (body : json) (t : Terminal)
  : Terminal :=
  match apiPost apiBase path body with
  | OK data => print (out (stringify data)) t
  | Err e => print (err (if Str.truthy (message e) then message e else "Error")) t
  end.

(** [run]: what submitting the form does. *)
Definition run (apiBase : string) (t : Terminal) : Terminal :=
  let raw := trim (input t) in
  if negb (Str.truthy raw) then t
  else
    let t := {| lines := lines t ++ [cmd raw]; input := "" |} in
    match split_space raw with
    | [] => print (out help) t
    | command :: rest =>
        if Str.eqb command "scan" then
          let dir := trim (Str.join " " rest) in
          let dir := if Str.truthy dir then dir else "/demo" in
          request apiBase "/api/scan" (JObj [("dir", JStr dir)]) t
        else if Str.eqb command "organize" then
          let q := stripQuotes (trim (Str.drop (String.length "organize") raw)) in
          request apiBase "/api/organize" (JObj [("instructions", JStr q)]) t
        else if Str.eqb command "preview" then
          request apiBase "/api/preview" (JObj []) t
        else if Str.eqb command "apply" then
          request apiBase "/api/apply" (JObj []) t
        else if Str.eqb command "clean" then
          request apiBase "/api/detect-garbage" (JObj []) t
        else if Str.eqb command "reset" then
          request apiBase "/api/reset" (JObj []) t
        else print (out help) t
    end.

End Terminal.

(* ================================================================== *)
(** * Specification-side definitions *)
(* ================================================================== *)

(** Containment in the sandbox as the specification means it: the
    segments of the root lead the segments of the resolved path. *)
Definition insideRoot (root target : string) : Prop :=
  Path.segments root `prefix_of` Path.segments target.

Global Instance insideRoot_dec root target : Decision (insideRoot root target).
Proof. unfold insideRoot. apply _. Defined.

(** The category table of the heuristic tier, as the specification
    lists it, on a lower-case extension. *)
Definition categoryOf (e : string) : string :=
  if bool_decide (e ∈ ["ts"; "tsx"; "js"; "jsx"; "py"; "go"; "java"; "rb"]) then "Code"
  else if bool_decide (e ∈ ["md"; "txt"; "pdf"; "doc"; "docx"]) then "Documents"
  else if bool_decide (e ∈ ["png"; "jpg"; "jpeg"; "gif"; "webp"; "svg"]) then "Images"
  else if bool_decide (e ∈ ["zip"; "tar"; "gz"; "rar"; "7z"]) then "Archives"
  else if bool_decide (e ∈ ["csv"; "json"; "xlsx"]) then "Data"
  else "Misc".

(** A name as a directory lists it: not empty, no [/], neither [.] nor
    [..]. *)
Definition plainName (nm : string) : bool :=
  negb (Str.eqb nm "") && negb (Str.eqb nm ".") && negb (Str.eqb nm "..")
  && forallb (λ c, negb (Path.is_slash c)) (Str.chars nm).

Definition withPath (p : string) (f : FileNode) : FileNode :=
  match f with
  | mkFileNode nm _ t s e cs a m => mkFileNode nm p t s e cs a m
  end.

(** First success wins: the strategies are tried in order. *)
Fixpoint firstSuccess {A B} (strategies : list (A → option B)) (x : A) : option B :=
  match strategies with
  | [] => None
  | s :: rest =>
      match s x with
      | Some v => Some v
      | None => firstSuccess rest x
      end
  end.

(** The plan's from-to mapping as a function: the target of the last
    move that mentions the path, the path itself if none does. *)
Definition planMapping (ms : list MoveOp) (p : string) : string :=
  match find (λ m, Str.eqb (from m) p) (rev ms) with
  | Some m => to m
  | None => p
  end.

(** The mapping a preview shows: the target of the last move that
    mentions the path if that target is not the empty string, the
    path itself otherwise. *)
Definition previewMapping (ms : list MoveOp) (p : string) : string :=
  match find (λ m, Str.eqb (from m) p) (rev ms) with
  | Some m => if bool_decide (to m = "") then p else to m
  | None => p
  end.

(** Relabelling a tree: a file leaf gets its path rewritten, a
    directory keeps everything and has its children relabelled. *)
Fixpoint relabel (rho : string → string) (n : FileNode) : FileNode :=
  match n with
  | mkFileNode nm p t s e cs a m =>
      match t with
      | file => mkFileNode nm (rho p) t s e cs a m
      | dir => mkFileNode nm p t s e (option_map (map (relabel rho)) cs) a m
      end
  end.

(** The target of the heuristic tier for a file and the move to it. *)
Definition categoryTarget (f : FileNode) : string :=
  "/demo/" +:+ categoryOf (lowerExt f) +:+ "/" +:+ name f.

Definition categoryMove (f : FileNode) : MoveOp :=
  {| from := path f;
     to := categoryTarget f;
     reason := "Place in " +:+ categoryOf (lowerExt f)
               +:+ " based on extension and instructions" |}.

Definition categoryMoves (f : FileNode) : list MoveOp :=
  if decide (path f = categoryTarget f) then [] else [categoryMove f].

(** Every directory node lists its children (as [buildTree] makes
    them). *)
Fixpoint dirsListed (n : FileNode) : bool :=
  match n with
  | mkFileNode _ _ t _ _ cs _ _ =>
      match t with
      | file => true
      | dir =>
          match cs with
          | Some l => forallb dirsListed l
          | None => false
          end
      end
  end.

(** Induction on what is on disk, reaching the entries. *)
Section Inode_ind.
Variable P : Inode → Prop.
Hypothesis Hfile : ∀ sz a m c, P (IFile sz a m c).
Hypothesis Hdir : ∀ a m es, Forall (λ e, P e.2) es → P (IDir a m es).

Fixpoint Inode_nested_ind (n : Inode) : P n :=
  match n with
  | IFile sz a m c => Hfile sz a m c
  | IDir a m es =>
      Hdir a m es
        ((fix go (l : list (string * Inode)) : Forall (λ e, P e.2) l :=
            match l with
            | [] => @List.Forall_nil _ _
            | e :: l' =>
                @List.Forall_cons _ (λ e, P e.2) e l' (Inode_nested_ind e.2) (go l')
            end) es)
  end.
End Inode_ind.

(** The three regions of an answer that [extractJson] tries to parse,
    as the code computes them: all of it, the capture of the fence
    expression if it is not empty, and the slice from the first [{]
    to the last [}].  What these are is said by [fencedBody] and
    [bracedRegion] below. *)
Definition wholeResponse (text : string) : option string := Some text.

Definition fencedBlock (text : string) : option string :=
  match Agent.match_codeBlock text with
  | Some captured => if Str.truthy captured then Some captured else None
  | None => None
  end.

Definition widestBraces (text : string) : option string :=
  match Str.indexOf text "{", Str.lastIndexOfChar text "}" with
  | Some i, Some j =>
      if (i <? j)%nat then Some (Str.slice i (j + 1) text) else None
  | _, _ => None
  end.

Definition parseRegion (parse : string → option json)
    (region : string → option string) (text : string) : option json :=
  match region text with
  | Some r => parse r
  | None => None
  end.

(** The plan [{ moves: [], deletions: [] }] as the agent returns it. *)
Definition emptyAgentPlan : AgentPlan :=
  {| ap_moves := JArr []; ap_deletions := [] |}.

(** Segments as [path.resolve] leaves them. *)
Definition noSlash (s : string) : Prop :=
  forallb (λ c, negb (Path.is_slash c)) (Str.chars s) = true.

Definition cleanSeg (s : string) : Prop :=
  s ≠ "" ∧ s ≠ "." ∧ s ≠ ".." ∧ noSlash s.

(** Entry names are plain and distinct, all the way down. *)
Fixpoint wfInode (n : Inode) : bool :=
  match n with
  | IFile _ _ _ _ => true
  | IDir _ _ es =>
      forallb (λ e, plainName e.1 && wfInode e.2) es
      && bool_decide (NoDup es.*1)
  end.

(** A directory path as [path.resolve] returns it: [/] and clean
    segments with [/] between them. *)
Definition resolvedDir (p : string) : Prop :=
  ∃ segs, Forall cleanSeg segs ∧ p = "/" +:+ Str.join "/" segs.

(** ** Garbage detection, file by file *)

Section DetectSpec.
Variables (cwd DEMO_FS_PATH : string) (sha1_hex : string → string).
Variable fs : FS.

(** The files that reach the hashing step. *)
Definition eligible (f : FileNode) : bool := negb (isJunk f) && isHashed f.

(** What is read from the file behind a node, if it can be read. *)
Definition contentOf (f : FileNode) : option string :=
  match sanitizePath cwd DEMO_FS_PATH (path f) with
  | OK abs =>
      match fs_stat "open" abs fs with
      | OK (IFile _ _ _ c) => Some c
      | _ => None
      end
  | Err _ => None
  end.

(** The loop can be run on a file: its path resolves inside the
    sandbox and, if it is hashed, it can be read. *)
Definition scannable (f : FileNode) : bool :=
  match sanitizePath cwd DEMO_FS_PATH (path f) with
  | OK abs => negb (eligible f) || is_OK (hashFile sha1_hex abs fs)
  | Err _ => false
  end.

Definition digest (f : FileNode) : string :=
  match sanitizePath cwd DEMO_FS_PATH (path f) with
  | OK abs =>
      match hashFile sha1_hex abs fs with
      | OK h => h
      | Err _ => ""
      end
  | Err _ => ""
  end.

(** The suggestions of the first loop for one file. *)
Definition perFile (now : Z) (f : FileNode) : list DeleteSuggestion :=
  if isJunk f then [junkSuggestion now f]
  else if isStaleLarge now f then [largeSuggestion now f]
  else [].

(** [hashToFile] after the first loop. *)
Definition groupsOf (files : list FileNode) (g : HashGroups) : HashGroups :=
  foldl (λ g f, pushPath (digest f) (path f) g) g
        (filter (λ f, eligible f = true) files).

(** The paths filed under a digest, in file order. *)
Definition membersOf (h : string) (files : list FileNode) : list string :=
  map path (filter (λ f, eligible f = true ∧ digest f = h) files).
End DetectSpec.

(** The regular files of a disk, each with the segments that lead to
    it from the inode, in directory order. *)
Fixpoint regularFiles (n : Inode) : list (list string * Inode) :=
  match n with
  | IFile _ _ _ _ => [([], n)]
  | IDir _ _ es =>
      flat_map (λ e, (λ pf, (e.1 :: pf.1, pf.2)) <$> regularFiles e.2) es
  end.

(** The path of a file after a move from [s] to [d]. *)
Definition movedTo (s d : list string) (pf : list string * Inode)
  : list string * Inode :=
  (if bool_decide (s `prefix_of` pf.1) then d ++ drop (length s) pf.1 else pf.1,
   pf.2).

(** The node a snapshot has for a regular file [x] that is [below] the
    sandbox root: named after its last segment, with the lower-case
    extension of that name. *)
Definition snapshotFile (below : list string) (x : Inode) : FileNode :=
  let nm := List.last below "" in
  {| name := nm;
     path := "/" +:+ Str.join "/" below;
     type := if isDirectory x then dir else file;
     size := match x with IFile sz _ _ _ => Some sz | IDir _ _ _ => None end;
     ext := if isDirectory x then None
            else Some (Str.toLowerCase (Str.drop 1 (Path.extname nm)));
     children := if isDirectory x then Some [] else None;
     atimeMs := Some match x with IFile _ a _ _ | IDir a _ _ => a end;
     mtimeMs := Some match x with IFile _ _ m _ | IDir _ m _ => m end |}.

(** Where the heuristic tier wants the regular file that is [below]
    the sandbox root: in [demo], in the directory of its category,
    under its own name. *)
Definition homeOf (pf : list string * Inode) : list string * Inode :=
  let f := snapshotFile pf.1 pf.2 in
  (["demo"; categoryOf (lowerExt f); name f], pf.2).

(** A text without a backquote, and one that is white space only. *)
Definition noBackquote (s : string) : bool :=
  forallb (λ c, negb (Str.ceqb c "`")) (Str.chars s).

Definition allSpaces (s : string) : bool :=
  forallb Agent.is_space (Str.chars s).

(** The regions of an answer in the words of the specification.
    [body] is the contents of the first [```json] fence of [text]:
    the text has a fence, written in any case, with no fence starting
    before it; behind the fence and the white space that follows it
    comes [body], which is not empty, and then the next [```]. *)
Definition fencedBody (text body : string) : Prop :=
  ∃ pre fence ws post,
    text = pre +:+ fence +:+ ws +:+ body +:+ "```" +:+ post
    ∧ Str.toLowerCase fence = "```json"
    ∧ (∀ pre' fence' post',
         text = pre' +:+ fence' +:+ post' → Str.toLowerCase fence' = "```json" →
         (String.length pre ≤ String.length pre')%nat)
    ∧ allSpaces ws = true
    ∧ (∀ c rest, body +:+ "```" +:+ post = String c rest → Agent.is_space c = false)
    ∧ (∀ body' post',
         body +:+ "```" +:+ post = body' +:+ "```" +:+ post' →
         (String.length body ≤ String.length body')%nat)
    ∧ body ≠ "".

(** [region] is the widest [{...}] substring of [text]: from the
    first [{] to the last [}], which comes behind it. *)
Definition bracedRegion (text region : string) : Prop :=
  ∃ pre mid post,
    text = pre +:+ "{" +:+ mid +:+ "}" +:+ post
    ∧ ("{"%char ∉ Str.chars pre)
    ∧ ("}"%char ∉ Str.chars post)
    ∧ region = "{" +:+ mid +:+ "}".

(** First success wins: [v] is what the whole text parses to; or,
    when it does not parse, what the fenced contents parse to; or,
    when they do not either, what the widest braces parse to; and
    [null] when nothing parses. *)
Definition extracted (parse : string → option json) (text : string) (v : json)
  : Prop :=
  parse text = Some v
  ∨ (parse text = None
     ∧ ((∃ r, fencedBody text r ∧ parse r = Some v)
        ∨ ((∀ r, fencedBody text r → parse r = None)
           ∧ ((∃ r, bracedRegion text r ∧ parse r = Some v)
              ∨ ((∀ r, bracedRegion text r → parse r = None) ∧ v = JNull))))).

(** The expected shape of an answer: an object whose [moves], if it
    has any, is an array of objects with strings as [from], [to] and
    [reason]. *)
Definition isMoveObject (v : json) : Prop :=
  ∃ fields f t r,
    v = JObj fields
    ∧ assoc "from" fields = Some (JStr f)
    ∧ assoc "to" fields = Some (JStr t)
    ∧ assoc "reason" fields = Some (JStr r).

Definition expectedShape (v : json) : Prop :=
  ∃ fields,
    v = JObj fields
    ∧ (assoc "moves" fields = None
       ∨ ∃ items, assoc "moves" fields = Some (JArr items)
                  ∧ Forall isMoveObject items).

(* ================================================================== *)
(** * Sample deployments *)
(* ================================================================== *)

Module Sample.

Definition cwd : string := "/app".
Definition root : string := default_DEMO_FS_PATH cwd None.

(** The SHA-1 digests of the contents the samples use. *)
Definition sha1_hex (content : string) : string :=
  if Str.eqb content "hello" then "aaf4c61ddcc5e8a2dabede0f3b482cd9aea9434d"
  else if Str.eqb content "" then "da39a3ee5e6b4b0d3255bfef95601890afd80709"
  else if Str.eqb content "abc" then "a9993e364706816aba3e25717850c26c9cd0d89d"
  else "0000000000000000000000000000000000000000".

(** A disk whose sandbox root holds the directory [demo] with the
    given entries. *)
Definition diskWith (rootEntries : list (string * Inode)) : FS :=
  IDir 0 0 [("app", IDir 0 0 [("data", IDir 0 0
    [("demo_fs", IDir 0 0 rootEntries)])])].

Definition demoWith (entries : list (string * Inode)) : FS :=
  diskWith [("demo", IDir 0 0 entries)].

Definition day : Z := 86400000.

(** [a.txt] and [b.bak] have the same content; [big.log] is large and
    was last read long ago. *)
Definition junkDisk : FS :=
  demoWith [("a.txt", IFile 5 (1000 * day) (1000 * day) "hello");
            ("b.bak", IFile 5 (1000 * day) (1000 * day) "hello");
            ("big.log", IFile (60 * MiB) (1 * day) (1 * day) "abc")].

(** Two empty files. *)
Definition emptiesDisk : FS :=
  demoWith [("e1.txt", IFile 0 (1000 * day) (1000 * day) "");
            ("e2.txt", IFile 0 (1000 * day) (1000 * day) "")].

(** Two files with the same content and a third one. *)
Definition twinsDisk : FS :=
  demoWith [("one.txt", IFile 5 (1000 * day) (1000 * day) "hello");
            ("other.md", IFile 3 (1000 * day) (1000 * day) "abc");
            ("two.txt", IFile 5 (1000 * day) (1000 * day) "hello")].

(** [notes.bak] was last read at the epoch. *)
Definition epochDisk : FS :=
  demoWith [("notes.bak", IFile 5 0 (1000 * day) "hello")].

Definition notesDisk : FS :=
  demoWith [("notes.bak", IFile 5 (990 * day) (990 * day) "hello")].

(** [report.pdf] in [demo], and directly in the sandbox root. *)
Definition reportDisk : FS :=
  demoWith [("report.pdf", IFile 5 (1000 * day) (1000 * day) "hello")].

Definition rootReportDisk : FS :=
  diskWith [("report.pdf", IFile 5 (1000 * day) (1000 * day) "hello")].

Definition noNode : FileNode :=
  {| name := ""; path := ""; type := file; size := None; ext := None;
     children := None; atimeMs := None; mtimeMs := None |}.

(** The snapshot of a disk and its files. *)
Definition treeOf (fs : FS) : FileNode :=
  match buildTree cwd root root fs with
  | OK tree => tree
  | Err _ => noNode
  end.

(** Beside the sandbox root, a directory whose name starts with the
    name of the root. *)
Definition siblingDisk : FS :=
  IDir 0 0 [("app", IDir 0 0 [("data", IDir 0 0
    [("demo_fs", IDir 0 0 []);
     ("demo_fs_evil", IDir 0 0 [("secret.txt", IFile 6 1 1 "secret")])])])].

Definition siblingTree : FileNode :=
  {| name := "demo_fs_evil"; path := "/../demo_fs_evil"; type := dir;
     size := None; ext := None;
     children := Some [ {| name := "secret.txt";
                           path := "/../demo_fs_evil/secret.txt";
                           type := file; size := Some 6; ext := Some "txt";
                           children := None;
                           atimeMs := Some 1; mtimeMs := Some 1 |} ];
     atimeMs := Some 0; mtimeMs := Some 0 |}.

Definition filesOf (fs : FS) : list FileNode :=
  match buildTree cwd root root fs with
  | OK tree => flattenFiles tree
  | Err _ => []
  end.

Definition fileNode (nm p e : string) (sz atm mtm : Z) : FileNode :=
  {| name := nm; path := p; type := file; size := Some sz; ext := Some e;
     children := None; atimeMs := Some atm; mtimeMs := Some mtm |}.

Definition oneTxt : FileNode :=
  fileNode "one.txt" "/demo/one.txt" "txt" 5 (1000 * day) (1000 * day).
Definition otherMd : FileNode :=
  fileNode "other.md" "/demo/other.md" "md" 3 (1000 * day) (1000 * day).
Definition twoTxt : FileNode :=
  fileNode "two.txt" "/demo/two.txt" "txt" 5 (1000 * day) (1000 * day).
Definition notesBak : FileNode :=
  fileNode "notes.bak" "/demo/notes.bak" "bak" 5 (990 * day) (990 * day).
Definition reportPdf : FileNode :=
  fileNode "report.pdf" "/demo/report.pdf" "pdf" 5 (1000 * day) (1000 * day).

Definition reportMove : MoveOp :=
  {| from := "/demo/report.pdf";
     to := "/demo/Documents/report.pdf";
     reason := "Place in Documents based on extension and instructions" |}.

(** A move of [report.pdf] whose target is the empty string. *)
Definition emptyTargetMove : MoveOp :=
  {| from := "/demo/report.pdf"; to := ""; reason := "nowhere" |}.

(** A disk for [applyPlan]: [taken.txt] is in the way of [a.txt]. *)
Definition applyDisk : FS :=
  demoWith [("a.txt", IFile 5 (1000 * day) (1000 * day) "hello");
            ("b.txt", IFile 3 (1000 * day) (1000 * day) "abc");
            ("taken.txt", IFile 0 (1000 * day) (1000 * day) "")].

Definition blockedMove : MoveOp :=
  {| from := "/demo/a.txt"; to := "/demo/taken.txt"; reason := "rename" |}.
Definition goodMove : MoveOp :=
  {| from := "/demo/b.txt"; to := "/demo/Documents/b.txt"; reason := "sort" |}.
Definition lostMove : MoveOp :=
  {| from := "/demo/gone.txt"; to := "/demo/Misc/gone.txt"; reason := "sort" |}.

(** The disk after [goodMove], made at time 5. *)
Definition afterGoodMove : FS :=
  demoWith [("a.txt", IFile 5 (1000 * day) (1000 * day) "hello");
            ("taken.txt", IFile 0 (1000 * day) (1000 * day) "");
            ("Documents",
             IDir 5 5 [("b.txt", IFile 3 (1000 * day) (1000 * day) "abc")])].

Definition planB : Plan := {| moves := [goodMove; blockedMove]; deletions := [] |}.

(** [JSON.parse] on the texts the samples use. *)
Definition parseSample (text : string) : option json :=
  if Str.eqb text "{}" then Some (JObj [])
  else if Str.eqb text "[]" then Some (JArr [])
  else if Str.eqb text "null" then Some JNull
  else None.

(** No organizer and no model. *)
Definition offline : World :=
  {| LLM_BASE_URL := None; GOOGLE_API_KEY := None; GEMINI_MODEL := None;
     Date_now := 1000 * day; JSON_parse := parseSample;
     fetch := λ _ _ _, FetchRejected; invoke := λ _ _ _, None |}.

(** An organizer that answers [{}]. *)
Definition emptyOrganizer : World :=
  {| LLM_BASE_URL := Some "http://organizer:8000"; GOOGLE_API_KEY := None;
     GEMINI_MODEL := None; Date_now := 1000 * day; JSON_parse := parseSample;
     fetch := λ _ _ _, FetchResponse true 200 "{}"; invoke := λ _ _ _, None |}.

(** An organizer that answers [null]. *)
Definition nullOrganizer : World :=
  {| LLM_BASE_URL := Some "http://organizer:8000"; GOOGLE_API_KEY := None;
     GEMINI_MODEL := None; Date_now := 1000 * day; JSON_parse := parseSample;
     fetch := λ _ _ _, FetchResponse true 200 "null"; invoke := λ _ _ _, None |}.

(** A model that answers in prose. *)
Definition proseModel : World :=
  {| LLM_BASE_URL := None; GOOGLE_API_KEY := Some "key"; GEMINI_MODEL := None;
     Date_now := 1000 * day; JSON_parse := parseSample;
     fetch := λ _ _ _, FetchRejected;
     invoke := λ _ _ _, Some (RawString "Sorry, I cannot help.") |}.

(** The directory [demo] of [twinsDisk], and the sandbox roots of
    [twinsDisk] and [reportDisk]. *)
Definition twinsDemo : Inode :=
  IDir 0 0 [("one.txt", IFile 5 (1000 * day) (1000 * day) "hello");
            ("other.md", IFile 3 (1000 * day) (1000 * day) "abc");
            ("two.txt", IFile 5 (1000 * day) (1000 * day) "hello")].

Definition twinsRoot : Inode := IDir 0 0 [("demo", twinsDemo)].

Definition reportRoot : Inode :=
  IDir 0 0 [("demo", IDir 0 0
    [("report.pdf", IFile 5 (1000 * day) (1000 * day) "hello")])].

(** The disk after [reportMove], made at time 5. *)
Definition afterReportMove : FS :=
  demoWith [("Documents",
             IDir 5 5 [("report.pdf", IFile 5 (1000 * day) (1000 * day) "hello")])].

(** A large file that no junk rule covers, last read long ago. *)
Definition largeDisk : FS :=
  demoWith [("video.mp4", IFile (60 * MiB) (1 * day) (1 * day) "abc")].

Definition videoMp4 : FileNode :=
  fileNode "video.mp4" "/demo/video.mp4" "mp4" (60 * MiB) (1 * day) (1 * day).

(** A text in double quotes, and the answer of a model with one move:
    the JSON text and what it parses to. *)
Definition quoted (s : string) : string := String quote (s +:+ String quote "").

Definition planText : string :=
  "{" +:+ quoted "moves" +:+ ":[{"
  +:+ quoted "from" +:+ ":" +:+ quoted "/demo/b.txt" +:+ ","
  +:+ quoted "to" +:+ ":" +:+ quoted "/demo/Documents/b.txt" +:+ ","
  +:+ quoted "reason" +:+ ":" +:+ quoted "sort" +:+ "}]}".

Definition planItems : list json :=
  [JObj [("from", JStr "/demo/b.txt"); ("to", JStr "/demo/Documents/b.txt");
         ("reason", JStr "sort")]].

Definition parsePlan (text : string) : option json :=
  if Str.eqb text planText then Some (JObj [("moves", JArr planItems)])
  else parseSample text.

Definition planModel : World :=
  {| LLM_BASE_URL := None; GOOGLE_API_KEY := Some "key"; GEMINI_MODEL := None;
     Date_now := 1000 * day; JSON_parse := parsePlan;
     fetch := λ _ _ _, FetchRejected;
     invoke := λ _ _ _, Some (RawString planText) |}.

(** A network that is down, and a printer of JSON for the samples. *)
Definition noNetwork (url : string) (body : json) : HttpOutcome :=
  HttpRejected (TypeError "Failed to fetch").

Definition stringifySample (data : json) : string := "{}".

End Sample.

(* ================================================================== *)
(** * Properties *)
(* ================================================================== *)

(** ** Strings and paths *)

Lemma Str_eqb_eq a b : Str.eqb a b = true ↔ a = b.
Proof. unfold Str.eqb. apply bool_decide_eq_true. Qed.

Lemma Str_eqb_neq a b : Str.eqb a b = false ↔ a ≠ b.
Proof. unfold Str.eqb. apply bool_decide_eq_false. Qed.

Lemma Str_eqb_refl a : Str.eqb a a = true.
Proof. by apply Str_eqb_eq. Qed.

Lemma Str_mem_spec x l : Str.mem x l = bool_decide (x ∈ l).
Proof.
  unfold Str.mem. induction l as [|y l IH]; cbn [existsb].
  - symmetry. apply bool_decide_eq_false_2. by intros ?%elem_of_nil.
  - rewrite IH. unfold Str.eqb.
    destruct (decide (x = y)) as [->|Hne].
    + rewrite (bool_decide_eq_true_2 (y = y)) by done. cbn [orb].
      symmetry. apply bool_decide_eq_true_2. left.
    + rewrite (bool_decide_eq_false_2 (x = y)) by done. cbn [orb].
      apply bool_decide_ext. rewrite elem_of_cons. split; [by right|].
      by intros [?|?].
Qed.

Lemma append_cons x a b : String x a +:+ b = String x (a +:+ b).
Proof. reflexivity. Qed.

Lemma append_nil_l b : "" +:+ b = b.
Proof. reflexivity. Qed.

Lemma chars_app a b : Str.chars (a +:+ b) = Str.chars a ++ Str.chars b.
Proof.
  unfold Str.chars. induction a as [|c a IH]; [done|].
  rewrite append_cons. simpl. by f_equal.
Qed.

Lemma app_assoc_str a b c : (a +:+ b) +:+ c = a +:+ (b +:+ c).
Proof. induction a as [|x a IH]; [done|]. rewrite !append_cons. by f_equal. Qed.

Lemma split_slash_nonempty s : Str.split_slash s ≠ [].
Proof.
  destruct s as [|c s]; simpl; [done|].
  destruct (Str.ceqb c "/"); [done|]. by destruct (Str.split_slash s).
Qed.

Lemma split_slash_app a b :
  Str.split_slash (a +:+ "/" +:+ b) = Str.split_slash a ++ Str.split_slash b.
Proof.
  induction a as [|c a IH]; [done|].
  rewrite append_cons. simpl.
  destruct (Str.ceqb c "/"); simpl; [by rewrite IH|].
  rewrite IH. pose proof (split_slash_nonempty a).
  by destruct (Str.split_slash a).
Qed.

Lemma split_slash_plain nm :
  forallb (λ c, negb (Path.is_slash c)) (Str.chars nm) = true →
  Str.split_slash nm = [nm].
Proof.
  induction nm as [|c nm IH]; simpl; [done|].
  unfold Path.is_slash. intros [Hc Hnm]%andb_true_iff.
  apply negb_true_iff in Hc. rewrite Hc. by rewrite (IH Hnm).
Qed.

Lemma endsWithSlash_plain pre nm :
  nm ≠ "" →
  forallb (λ c, negb (Path.is_slash c)) (Str.chars nm) = true →
  Path.endsWithSlash (pre +:+ nm) = false.
Proof.
  intros Hne Hall. unfold Path.endsWithSlash. rewrite chars_app, rev_app_distr.
  assert (forallb (λ c, negb (Path.is_slash c)) (rev (Str.chars nm)) = true) as Hrev.
  { apply forallb_forall. intros c Hc%in_rev.
    by apply (proj1 (forallb_forall _ _) Hall). }
  destruct (rev (Str.chars nm)) as [|c l] eqn:Hr.
  - destruct nm; [done|]. apply (f_equal length) in Hr.
    rewrite length_rev in Hr. done.
  - simpl in *. apply andb_true_iff in Hrev as [Hc _].
    by apply negb_true_iff in Hc.
Qed.

Lemma plainName_spec nm :
  plainName nm = true →
  nm ≠ "" ∧ nm ≠ "." ∧ nm ≠ ".."
  ∧ forallb (λ c, negb (Path.is_slash c)) (Str.chars nm) = true.
Proof.
  unfold plainName. rewrite !andb_true_iff, !negb_true_iff, !Str_eqb_neq.
  tauto.
Qed.

(** Joining [/demo], a plain directory name and a plain file name only
    puts slashes between them. *)
Lemma join_demo_plain cat nm :
  plainName cat = true → plainName nm = true →
  Path.join ["/demo"; cat; nm] = "/demo/" +:+ cat +:+ "/" +:+ nm.
Proof.
  intros (Hc1 & Hc2 & Hc3 & Hc4)%plainName_spec (Hn1 & Hn2 & Hn3 & Hn4)%plainName_spec.
  unfold Path.join.
  assert (Str.truthy cat = true) as Htc
    by (unfold Str.truthy; apply negb_true_iff; by apply Str_eqb_neq).
  assert (Str.truthy nm = true) as Htn
    by (unfold Str.truthy; apply negb_true_iff; by apply Str_eqb_neq).
  assert (filter (λ a, Str.truthy a = true) ["/demo"; cat; nm] = ["/demo"; cat; nm]) as ->.
  { rewrite !filter_cons, filter_nil. rewrite !decide_True; done. }
  cbn [Str.join].
  change ("/demo" +:+ "/" +:+ cat +:+ "/" +:+ nm)
    with ("/demo/" +:+ (cat +:+ "/" +:+ nm)).
  set (p := "/demo/" +:+ (cat +:+ "/" +:+ nm)).
  assert (Str.eqb p "" = false) as -> by (by apply Str_eqb_neq).
  unfold Path.normalize.
  assert (Str.eqb p "" = false) as -> by (by apply Str_eqb_neq).
  assert (Path.isAbsolute p = true) as -> by reflexivity.
  assert (Path.endsWithSlash p = false) as ->.
  { replace p with (("/demo/" +:+ cat +:+ "/") +:+ nm)
      by (unfold p; by rewrite !app_assoc_str).
    by apply endsWithSlash_plain. }
  unfold Path.normalizeString.
  assert (Str.split_slash p = [""; "demo"; cat; nm]) as ->.
  { unfold p. change ("/demo/" +:+ (cat +:+ "/" +:+ nm))
      with ("/demo" +:+ "/" +:+ (cat +:+ "/" +:+ nm)).
    rewrite !split_slash_app. rewrite (split_slash_plain cat), (split_slash_plain nm) by done.
    reflexivity. }
  cbn [Path.normalize_segs negb].
  rewrite (Str_eqb_refl ""). cbn [orb].
  change (Str.eqb "demo" "") with false. change (Str.eqb "demo" ".") with false.
  change (Str.eqb "demo" "..") with false. cbn [orb].
  rewrite (proj2 (Str_eqb_neq cat "")), (proj2 (Str_eqb_neq cat ".")),
    (proj2 (Str_eqb_neq cat "..")) by done. cbn [orb].
  rewrite (proj2 (Str_eqb_neq nm "")), (proj2 (Str_eqb_neq nm ".")),
    (proj2 (Str_eqb_neq nm "..")) by done. cbn [orb rev app].
  cbn [Str.join].
  assert (Str.eqb ("demo" +:+ "/" +:+ cat +:+ "/" +:+ nm) "" = false) as ->
    by (by apply Str_eqb_neq).
  reflexivity.
Qed.

(** ** What the prefix check of [sanitizePath] does guarantee *)

Lemma split_slash_noSlash s : Forall noSlash (Str.split_slash s).
Proof.
  induction s as [|c s IH]; simpl.
  - by repeat constructor.
  - destruct (Str.ceqb c "/") eqn:Hc.
    + constructor; [done|exact IH].
    + assert (∀ seg, noSlash seg → noSlash (String c seg)) as Hcons.
      { intros seg Hseg. unfold noSlash, Str.chars in *. simpl.
        unfold Path.is_slash at 1. by rewrite Hc. }
      destruct (Str.split_slash s) as [|seg rest].
      * constructor; [by apply Hcons|constructor].
      * apply Forall_cons in IH as [Hseg Hrest]. constructor; [by apply Hcons|done].
Qed.

Lemma normalize_segs_clean acc segs :
  Forall cleanSeg acc → Forall noSlash segs →
  Forall cleanSeg (Path.normalize_segs false acc segs).
Proof.
  revert acc. induction segs as [|seg rest IH]; intros acc Hacc Hsegs; simpl.
  - by apply Forall_rev.
  - apply Forall_cons in Hsegs as [Hseg Hrest].
    destruct (Str.eqb seg "") eqn:H1; simpl; [by apply IH|].
    destruct (Str.eqb seg ".") eqn:H2; simpl; [by apply IH|].
    destruct (Str.eqb seg "..") eqn:H3.
    + destruct acc as [|top acc']; [by apply IH|].
      apply Forall_cons in Hacc as [Htop Hacc'].
      destruct (Str.eqb top "..") eqn:H4; [|by apply IH].
      apply Str_eqb_eq in H4. by destruct Htop as (_ & _ & ? & _).
    + apply IH; [|done]. constructor; [|done].
      apply Str_eqb_neq in H1, H2, H3. done.
Qed.

Lemma normalize_segs_of_clean acc segs :
  Forall cleanSeg segs → Path.normalize_segs false acc segs = rev acc ++ segs.
Proof.
  revert acc. induction segs as [|seg rest IH]; intros acc Hsegs; simpl.
  - by rewrite app_nil_r.
  - apply Forall_cons in Hsegs as [(H1 & H2 & H3 & _) Hrest].
    rewrite (proj2 (Str_eqb_neq _ _) H1), (proj2 (Str_eqb_neq _ _) H2),
      (proj2 (Str_eqb_neq _ _) H3). simpl.
    rewrite IH by done. simpl. by rewrite <- app_assoc.
Qed.

Lemma split_slash_join segs :
  Forall cleanSeg segs → segs ≠ [] →
  Str.split_slash (Str.join "/" segs) = segs.
Proof.
  induction segs as [|s [|t rest] IH]; intros Hall Hne; [done| |].
  - apply Forall_cons in Hall as [(_ & _ & _ & Hs) _]. simpl.
    by apply split_slash_plain.
  - apply Forall_cons in Hall as [(_ & _ & _ & Hs) Hrest].
    change (Str.join "/" (s :: t :: rest))
      with (s +:+ "/" +:+ Str.join "/" (t :: rest)).
    rewrite split_slash_app, (split_slash_plain s Hs), IH by done. done.
Qed.

(** The segments of a resolved absolute path are the segments it was
    built from. *)
Lemma segments_of_resolved segs :
  Forall cleanSeg segs → Path.segments ("/" +:+ Str.join "/" segs) = segs.
Proof.
  intros Hall. unfold Path.segments.
  change (Str.split_slash ("/" +:+ Str.join "/" segs))
    with ("" :: Str.split_slash (Str.join "/" segs)).
  cbn [Path.normalize_segs]. rewrite Str_eqb_refl. cbn [orb].
  destruct segs as [|s rest]; [reflexivity|].
  rewrite split_slash_join by done. by rewrite normalize_segs_of_clean.
Qed.

Lemma startsWith_app a b : Str.startsWith (a +:+ b) a = true.
Proof.
  induction a as [|c a IH]; [by destruct b|].
  rewrite append_cons. simpl. unfold Str.ceqb.
  by rewrite bool_decide_eq_true_2.
Qed.

Lemma startsWith_app_same a b c :
  Str.startsWith (a +:+ b) (a +:+ c) = Str.startsWith b c.
Proof.
  induction a as [|x a IH]; [done|].
  rewrite !append_cons. simpl. unfold Str.ceqb.
  by rewrite bool_decide_eq_true_2.
Qed.

Lemma startsWith_join pre suf :
  Str.startsWith (Str.join "/" (pre ++ suf)) (Str.join "/" pre) = true.
Proof.
  induction pre as [|x [|y pre] IH].
  - simpl. by destruct (Str.join "/" suf).
  - destruct suf as [|z suf]; simpl.
    + replace x with (x +:+ "") at 1; [apply startsWith_app|].
      clear. induction x as [|c x IH]; [done|]. by rewrite append_cons, IH.
    + apply startsWith_app.
  - change (Str.join "/" ((x :: y :: pre) ++ suf))
      with (x +:+ "/" +:+ Str.join "/" ((y :: pre) ++ suf)).
    change (Str.join "/" (x :: y :: pre))
      with (x +:+ "/" +:+ Str.join "/" (y :: pre)).
    by rewrite !startsWith_app_same.
Qed.

Section SandboxProps.
Variables (cwd DEMO_FS_PATH : string).
Hypothesis cwd_absolute : Path.isAbsolute cwd = true.

Lemma resolve_absolute_shape args :
  ∃ segs, Forall cleanSeg segs
          ∧ Path.resolve cwd args = "/" +:+ Str.join "/" segs.
Proof.
  unfold Path.resolve.
  destruct (Path.resolve_scan (rev args) "") as [r isabs].
  assert (∃ r', (if isabs then (r, true)
                 else if Str.eqb cwd "" then (r, false)
                 else (cwd +:+ "/" +:+ r, Path.isAbsolute cwd)) = (r', true))
    as [r' ->].
  { destruct isabs; [by eexists|].
    destruct (Str.eqb cwd "") eqn:Hc.
    - apply Str_eqb_eq in Hc. by rewrite Hc in cwd_absolute.
    - rewrite cwd_absolute. by eexists. }
  simpl. eexists. split; [|reflexivity].
  apply normalize_segs_clean; [constructor|apply split_slash_noSlash].
Qed.

(** A path that resolves to the root or below it is accepted and
    returned as resolved. *)
Lemma sanitizePath_accepts_inside rel :
  let target := Path.resolve cwd [safeRoot cwd DEMO_FS_PATH; "." +:+ rel] in
  insideRoot (safeRoot cwd DEMO_FS_PATH) target →
  sanitizePath cwd DEMO_FS_PATH rel = OK target.
Proof.
  intros target Hin. unfold sanitizePath. fold target.
  destruct (resolve_absolute_shape [DEMO_FS_PATH]) as (rs & Hrs & Hroot).
  destruct (resolve_absolute_shape [safeRoot cwd DEMO_FS_PATH; "." +:+ rel])
    as (ts & Hts & Htarget).
  fold target in Htarget. unfold insideRoot in Hin.
  unfold safeRoot in *. rewrite Hroot in Hin |- *. rewrite Htarget in Hin |- *.
  rewrite !segments_of_resolved in Hin by done.
  destruct Hin as [suf ->].
  by rewrite startsWith_app_same, startsWith_join.
Qed.

(** So whatever [sanitizePath] refuses is outside the root. *)
Lemma sanitizePath_refuses_only_outside rel e :
  sanitizePath cwd DEMO_FS_PATH rel = Err e →
  e = PathEscapes
  ∧ ¬ insideRoot (safeRoot cwd DEMO_FS_PATH)
        (Path.resolve cwd [safeRoot cwd DEMO_FS_PATH; "." +:+ rel]).
Proof.
  intros Herr. split.
  - unfold sanitizePath in Herr. destruct (negb _); congruence.
  - intros Hin. by rewrite (sanitizePath_accepts_inside rel Hin) in Herr.
Qed.
End SandboxProps.

(** ** Snapshots can be scanned *)

Lemma cleanSeg_of_plainName nm : plainName nm = true → cleanSeg nm.
Proof. intros H. by apply plainName_spec in H. Qed.

Lemma normalize_segs_clean_app acc segs rest :
  Forall cleanSeg segs →
  Path.normalize_segs false acc (segs ++ rest)
  = Path.normalize_segs false (rev segs ++ acc) rest.
Proof.
  revert acc. induction segs as [|seg segs IH]; intros acc Hsegs; [done|].
  apply Forall_cons in Hsegs as [(H1 & H2 & H3 & _) Hrest].
  cbn [app Path.normalize_segs].
  rewrite (proj2 (Str_eqb_neq _ _) H1), (proj2 (Str_eqb_neq _ _) H2),
    (proj2 (Str_eqb_neq _ _) H3). cbn [orb].
  rewrite IH by done. cbn [rev]. by rewrite <- app_assoc.
Qed.

(** Normalizing what a joined list of clean segments splits into. *)
Lemma normalize_segs_join acc segs rest :
  Forall cleanSeg segs →
  Path.normalize_segs false acc (Str.split_slash (Str.join "/" segs) ++ rest)
  = Path.normalize_segs false (rev segs ++ acc) rest.
Proof.
  intros Hsegs. destruct segs as [|s segs].
  - cbn [Str.join Str.split_slash app Path.normalize_segs rev].
    by rewrite Str_eqb_refl.
  - rewrite split_slash_join by done. by apply normalize_segs_clean_app.
Qed.

Lemma join_nonempty s segs : s ≠ "" → Str.join "/" (s :: segs) ≠ "".
Proof.
  intros Hs. destruct segs as [|t segs]; [done|].
  change (Str.join "/" (s :: t :: segs)) with (s +:+ "/" +:+ Str.join "/" (t :: segs)).
  destruct s; [done|]. by rewrite append_cons.
Qed.

Lemma join_snoc_nonempty segs s : s ≠ "" → Str.join "/" (segs ++ [s]) ≠ "".
Proof.
  intros Hs. destruct segs as [|t segs]; [done|].
  destruct (decide (t = "")) as [->|Ht]; [|by apply join_nonempty].
  simpl. destruct (segs ++ [s]) eqn:E; [by destruct segs|]. done.
Qed.

Lemma resolve_resolved cwd segs :
  Forall cleanSeg segs →
  Path.resolve cwd ["/" +:+ Str.join "/" segs] = "/" +:+ Str.join "/" segs.
Proof.
  intros Hsegs. unfold Path.resolve. cbn [rev app Path.resolve_scan].
  set (p := "/" +:+ Str.join "/" segs).
  assert (Str.eqb p "" = false) as -> by (by apply Str_eqb_neq).
  assert (Path.isAbsolute p = true) as -> by reflexivity.
  cbn [negb]. unfold Path.normalizeString.
  rewrite split_slash_app.
  change (Str.split_slash p) with ("" :: Str.split_slash (Str.join "/" segs)).
  cbn [app Path.normalize_segs]. rewrite Str_eqb_refl. cbn [orb].
  rewrite normalize_segs_join by done.
  cbn [Str.split_slash Path.normalize_segs]. rewrite Str_eqb_refl. cbn [orb].
  by rewrite app_nil_r, rev_involutive.
Qed.

(** The path of an entry of a resolved directory. *)
Lemma join_child segs ent :
  Forall cleanSeg segs → cleanSeg ent →
  Path.join ["/" +:+ Str.join "/" segs; ent]
  = "/" +:+ Str.join "/" (segs ++ [ent]).
Proof.
  intros Hsegs (He1 & He2 & He3 & He4). unfold Path.join.
  set (a := "/" +:+ Str.join "/" segs).
  assert (Str.truthy a = true) as Hta by reflexivity.
  assert (Str.truthy ent = true) as Hte
    by (unfold Str.truthy; apply negb_true_iff; by apply Str_eqb_neq).
  assert (filter (λ x, Str.truthy x = true) [a; ent] = [a; ent]) as ->.
  { rewrite !filter_cons, filter_nil. by rewrite !decide_True. }
  cbn [Str.join].
  assert (Str.eqb (a +:+ "/" +:+ ent) "" = false) as Hne by (by apply Str_eqb_neq).
  rewrite Hne. unfold Path.normalize. rewrite Hne.
  assert (Path.isAbsolute (a +:+ "/" +:+ ent) = true) as -> by reflexivity.
  assert (Path.endsWithSlash (a +:+ "/" +:+ ent) = false) as ->.
  { replace (a +:+ "/" +:+ ent) with ((a +:+ "/") +:+ ent)
      by (by rewrite app_assoc_str).
    by apply endsWithSlash_plain. }
  unfold Path.normalizeString. cbn [negb]. rewrite split_slash_app.
  change (Str.split_slash a) with ("" :: Str.split_slash (Str.join "/" segs)).
  cbn [app Path.normalize_segs]. rewrite Str_eqb_refl. cbn [orb].
  rewrite normalize_segs_join by done.
  rewrite (split_slash_plain ent He4). cbn [Path.normalize_segs].
  rewrite (proj2 (Str_eqb_neq _ _) He1), (proj2 (Str_eqb_neq _ _) He2),
    (proj2 (Str_eqb_neq _ _) He3). cbn [orb].
  rewrite app_nil_r. cbn [rev]. rewrite rev_involutive.
  rewrite (proj2 (Str_eqb_neq _ _) (join_snoc_nonempty segs ent He1)).
  reflexivity.
Qed.

Lemma assoc_elem {A} h (v : A) g : assoc h g = Some v → (h, v) ∈ g.
Proof.
  induction g as [|[k w] g IH]; simpl; [done|].
  destruct (Str.eqb h k) eqn:Hk.
  - apply Str_eqb_eq in Hk as ->. intros [= ->]. left.
  - intros H. right. by apply IH.
Qed.

Lemma strip_common_prefix pre suf :
  Path.strip_common pre (pre ++ suf) = ([], suf).
Proof.
  induction pre as [|x pre IH]; simpl; [by destruct suf|].
  by rewrite Str_eqb_refl.
Qed.

Lemma walk_app sc lbl a b n :
  walk sc lbl (a ++ b) n = walk sc lbl a n ≫= walk sc lbl b.
Proof.
  revert n. induction a as [|s a IH]; intros n; simpl; [done|].
  destruct n as [|? ? es]; [done|]. destruct (assoc s es); [apply IH|done].
Qed.

Lemma assoc_NoDup_elem {A} k (v : A) l :
  NoDup l.*1 → (k, v) ∈ l → assoc k l = Some v.
Proof.
  induction l as [|[j w] l IH]; simpl; intros Hnd Hin; [by apply elem_of_nil in Hin|].
  apply NoDup_cons in Hnd as [Hj Hnd].
  apply elem_of_cons in Hin as [[= -> ->]|Hin].
  - by rewrite Str_eqb_refl.
  - destruct (Str.eqb k j) eqn:Hk; [|by apply IH].
    apply Str_eqb_eq in Hk as ->. destruct Hj.
    by apply (list_elem_of_fmap_2 fst _ (j, v)).
Qed.

Section SnapshotProps.
Variables (cwd DEMO_FS_PATH : string) (sha : string → string).
Variable rootSegs : list string.
Hypothesis rootSegs_clean : Forall cleanSeg rootSegs.
Hypothesis root_resolved : DEMO_FS_PATH = "/" +:+ Str.join "/" rootSegs.

Lemma safeRoot_resolved : safeRoot cwd DEMO_FS_PATH = DEMO_FS_PATH.
Proof. unfold safeRoot. rewrite root_resolved. by apply resolve_resolved. Qed.

Lemma relative_below segs :
  Forall cleanSeg segs →
  Path.relative cwd DEMO_FS_PATH ("/" +:+ Str.join "/" (rootSegs ++ segs))
  = Str.join "/" segs.
Proof.
  intros Hsegs. unfold Path.relative.
  assert (Forall cleanSeg (rootSegs ++ segs)) as Hall by (by apply Forall_app).
  destruct (Str.eqb DEMO_FS_PATH _) eqn:Heq.
  - apply Str_eqb_eq in Heq. rewrite root_resolved in Heq.
    apply (f_equal Path.segments) in Heq.
    rewrite !segments_of_resolved in Heq by done.
    rewrite <- (app_nil_r rootSegs) in Heq at 1.
    by apply app_inv_head in Heq as <-.
  - rewrite root_resolved, !resolve_resolved by done.
    rewrite !segments_of_resolved by done.
    by rewrite strip_common_prefix.
Qed.

Lemma toRel_below segs :
  Forall cleanSeg segs →
  toRel cwd DEMO_FS_PATH ("/" +:+ Str.join "/" (rootSegs ++ segs))
  = "/" +:+ Str.join "/" segs.
Proof.
  intros Hsegs. unfold toRel. rewrite relative_below by done.
  destruct segs as [|s segs]; [done|]. by rewrite split_slash_join.
Qed.

Lemma sanitizePath_below segs :
  Forall cleanSeg segs →
  sanitizePath cwd DEMO_FS_PATH ("/" +:+ Str.join "/" segs)
  = OK ("/" +:+ Str.join "/" (rootSegs ++ segs)).
Proof.
  intros Hsegs. unfold sanitizePath. rewrite safeRoot_resolved.
  assert (Path.resolve cwd [DEMO_FS_PATH; "." +:+ "/" +:+ Str.join "/" segs]
          = "/" +:+ Str.join "/" (rootSegs ++ segs)) as ->.
  { unfold Path.resolve. cbn [rev app Path.resolve_scan].
    set (b := "." +:+ "/" +:+ Str.join "/" segs).
    assert (Str.eqb b "" = false) as -> by (by apply Str_eqb_neq).
    assert (Path.isAbsolute b = false) as -> by reflexivity.
    rewrite root_resolved.
    set (a := "/" +:+ Str.join "/" rootSegs).
    assert (Str.eqb a "" = false) as -> by (by apply Str_eqb_neq).
    assert (Path.isAbsolute a = true) as -> by reflexivity.
    cbn [negb]. unfold Path.normalizeString.
    rewrite split_slash_app.
    change (Str.split_slash a) with ("" :: Str.split_slash (Str.join "/" rootSegs)).
    change (b +:+ "/" +:+ "") with ("." +:+ "/" +:+ (Str.join "/" segs +:+ "/" +:+ "")).
    rewrite !split_slash_app.
    cbn [app Path.normalize_segs]. rewrite Str_eqb_refl. cbn [orb].
    rewrite normalize_segs_join by done.
    change (Str.split_slash ".") with ["."].
    cbn [app Path.normalize_segs]. rewrite Str_eqb_refl.
    rewrite orb_true_r.
    rewrite normalize_segs_join by done.
    cbn [Str.split_slash Path.normalize_segs]. rewrite Str_eqb_refl. cbn [orb].
    by rewrite app_nil_r, rev_app_distr, !rev_involutive. }
  rewrite root_resolved. by rewrite startsWith_app_same, startsWith_join.
Qed.
End SnapshotProps.

Lemma wfInode_entry a m es ent c :
  wfInode (IDir a m es) = true → (ent, c) ∈ es →
  cleanSeg ent ∧ wfInode c = true ∧ assoc ent es = Some c.
Proof.
  simpl. intros [Hall Hnd]%andb_true_iff Hin.
  apply bool_decide_eq_true in Hnd.
  pose proof (proj1 (forallb_forall _ _) Hall (ent, c)
                (proj1 (list_elem_of_In _ _) Hin)) as He.
  simpl in He. apply andb_true_iff in He as [Hp Hw].
  split; [by apply cleanSeg_of_plainName|]. split; [done|].
  by apply assoc_NoDup_elem.
Qed.

Lemma walk_wf sc lbl p n n' :
  wfInode n = true → walk sc lbl p n = OK n' → wfInode n' = true.
Proof.
  revert n. induction p as [|s p IH]; intros n Hwf; simpl.
  - by intros [= <-].
  - destruct n as [|a m es]; [done|].
    destruct (assoc s es) as [c|] eqn:Hs; [|done].
    apply IH. apply assoc_elem in Hs.
    by destruct (wfInode_entry _ _ _ _ _ Hwf Hs) as (_ & ? & _).
Qed.

Lemma walk_found sc lbl sc' lbl' p n n' :
  walk sc lbl p n = OK n' → walk sc' lbl' p n = OK n'.
Proof.
  revert n. induction p as [|s p IH]; intros n; simpl; [done|].
  destruct n as [|a m es]; [done|]. destruct (assoc s es); [apply IH|done].
Qed.

Section SnapshotScan.
Variables (cwd DEMO_FS_PATH : string) (sha : string → string).
Variable rootSegs : list string.
Hypothesis rootSegs_clean : Forall cleanSeg rootSegs.
Hypothesis root_resolved : DEMO_FS_PATH = "/" +:+ Str.join "/" rootSegs.

(** Every file of a snapshot sits on disk where its path says. *)
Lemma snapshot_file_on_disk n :
  ∀ segs f,
    Forall cleanSeg segs → wfInode n = true →
    f ∈ flattenFiles (buildTreeAt cwd DEMO_FS_PATH
                        ("/" +:+ Str.join "/" (rootSegs ++ segs)) n) →
    ∃ below sz a m c,
      Forall cleanSeg below
      ∧ path f = "/" +:+ Str.join "/" (segs ++ below)
      ∧ ∀ sc lbl, walk sc lbl below n = OK (IFile sz a m c).
Proof.
  induction n as [sz a m c|a m es IH] using Inode_nested_ind;
    intros segs f Hsegs Hwf Hf.
  - simpl in Hf. apply list_elem_of_singleton in Hf as ->.
    exists [], sz, a, m, c. split; [constructor|]. split; [|done].
    simpl. rewrite app_nil_r.
    by apply (toRel_below cwd DEMO_FS_PATH rootSegs).
  - simpl in Hf. apply list_elem_of_In, in_flat_map in Hf as (t & Ht & Hf).
    apply in_map_iff in Ht as ([ent c] & <- & Hin). simpl in Hf.
    apply list_elem_of_In in Hin, Hf.
    destruct (wfInode_entry _ _ _ _ _ Hwf Hin) as (Hent & Hc & Hassoc).
    rewrite Forall_forall in IH. specialize (IH _ Hin). simpl in IH.
    rewrite join_child in Hf by (done || by apply Forall_app).
    rewrite <- app_assoc in Hf.
    destruct (IH (segs ++ [ent]) f) as (below & sz & a' & m' & c' & Hb & Hp & Hw);
      [apply Forall_app; split; [done|by constructor]|done|done|].
    exists (ent :: below), sz, a', m', c'.
    split; [by constructor|]. split.
    + by rewrite <- app_assoc in Hp.
    + intros sc lbl. simpl. by rewrite Hassoc.
Qed.

(** On a well-formed disk the garbage loop can be run on every file of
    the snapshot of the sandbox root. *)
Lemma snapshot_is_scannable fs tree :
  wfInode fs = true →
  buildTree cwd DEMO_FS_PATH DEMO_FS_PATH fs = OK tree →
  forallb (scannable cwd DEMO_FS_PATH sha fs) (flattenFiles tree) = true.
Proof.
  intros Hwf Htree. unfold buildTree, fs_stat in Htree.
  assert (Path.segments DEMO_FS_PATH = rootSegs) as Hsegs
    by (rewrite root_resolved; by apply segments_of_resolved).
  rewrite Hsegs in Htree.
  destruct (walk "stat" DEMO_FS_PATH rootSegs fs) as [n|e] eqn:Hroot; [|done].
  simpl in Htree. injection Htree as <-.
  apply forallb_forall. intros f Hf%list_elem_of_In.
  assert (buildTreeAt cwd DEMO_FS_PATH DEMO_FS_PATH n
          = buildTreeAt cwd DEMO_FS_PATH
              ("/" +:+ Str.join "/" (rootSegs ++ [])) n) as Hat
    by (by rewrite app_nil_r, <- root_resolved).
  rewrite Hat in Hf.
  destruct (snapshot_file_on_disk n [] f (Forall_nil_2 _) (walk_wf _ _ _ _ _ Hwf Hroot) Hf)
    as (below & sz & a & m & c & Hb & Hp & Hw).
  simpl in Hp. unfold scannable. rewrite Hp.
  rewrite (sanitizePath_below cwd DEMO_FS_PATH rootSegs) by done.
  unfold hashFile, fs_stat.
  rewrite segments_of_resolved by (by apply Forall_app).
  rewrite walk_app, (walk_found _ _ "open" ("/" +:+ Str.join "/" (rootSegs ++ below)) _ _ _ Hroot).
  simpl. rewrite Hw. simpl. by rewrite orb_true_r.
Qed.

(** The paths of the files of a snapshot: one per way down to a
    file. *)
Lemma snapshot_paths n :
  ∀ segs,
    Forall cleanSeg segs → wfInode n = true →
    ∃ belows : list (list string),
      NoDup belows ∧ Forall (Forall cleanSeg) belows
      ∧ map path (flattenFiles (buildTreeAt cwd DEMO_FS_PATH
                                  ("/" +:+ Str.join "/" (rootSegs ++ segs)) n))
        = map (λ b, "/" +:+ Str.join "/" (segs ++ b)) belows.
Proof.
  induction n as [sz a m c|a m es IH] using Inode_nested_ind;
    intros segs Hsegs Hwf.
  - exists [[]]. split; [apply NoDup_singleton|]. split; [by repeat constructor|].
    simpl. rewrite app_nil_r.
    by rewrite (toRel_below cwd DEMO_FS_PATH rootSegs).
  - simpl in Hwf. apply andb_true_iff in Hwf as [Hall Hnd].
    apply bool_decide_eq_true in Hnd.
    cbn [buildTreeAt flattenFiles].
    assert (∃ belows : list (list string),
               NoDup belows ∧ Forall (Forall cleanSeg) belows
               ∧ (∀ b, b ∈ belows → ∃ ent b', b = ent :: b' ∧ ent ∈ es.*1)
               ∧ map path
                   (flat_map flattenFiles
                      (map (λ ent, buildTreeAt cwd DEMO_FS_PATH
                                     (Path.join ["/" +:+ Str.join "/" (rootSegs ++ segs); ent.1])
                                     ent.2) es))
                 = map (λ b, "/" +:+ Str.join "/" (segs ++ b)) belows)
      as (belows & H1 & H2 & _ & H4); [|by exists belows].
    induction es as [|[ent c] es IHes].
    { exists []. split; [constructor|]. split; [constructor|].
      split; [|done]. by intros b ?%elem_of_nil. }
    apply Forall_cons in IH as [IHc IHrest]. simpl in IHc.
    simpl in Hall. apply andb_true_iff in Hall as [Hec Hall].
    apply andb_true_iff in Hec as [Hent%cleanSeg_of_plainName Hc].
    simpl in Hnd. apply NoDup_cons in Hnd as [Hfresh Hnd].
    destruct (IHes IHrest Hall Hnd) as (bs & Hbs1 & Hbs2 & Hbs3 & Hbs4).
    destruct (IHc (segs ++ [ent])) as (cs & Hcs1 & Hcs2 & Hcs3);
      [apply Forall_app; split; [done|by constructor]|done|].
    exists (map (cons ent) cs ++ bs). split; [|split; [|split]].
    + apply NoDup_app. split; [|split; [|done]].
      * apply NoDup_fmap_2; [|done]. by intros ?? [= ->].
      * intros b (b' & -> & _)%list_elem_of_fmap Hb.
        destruct (Hbs3 _ Hb) as (ent' & b'' & [= <- <-] & Hin). by apply Hfresh.
    + apply Forall_app. split; [|done].
      apply Forall_fmap. eapply Forall_impl; [exact Hcs2|].
      intros b Hb. simpl. by constructor.
    + intros b [(b' & -> & _)%list_elem_of_fmap|Hb]%elem_of_app.
      * exists ent, b'. split; [done|]. simpl. left.
      * destruct (Hbs3 _ Hb) as (ent' & b'' & -> & Hin).
        exists ent', b''. split; [done|]. simpl. by right.
    + cbn [map flat_map]. rewrite !map_app, Hbs4. f_equal.
      cbn [fst snd]. rewrite join_child by (done || by apply Forall_app).
      rewrite <- app_assoc, Hcs3, map_map. apply map_ext. intros b.
      by rewrite <- app_assoc.
Qed.

(** On a well-formed disk the files of the snapshot of the sandbox
    root have distinct paths. *)
Lemma snapshot_paths_distinct fs tree :
  wfInode fs = true →
  buildTree cwd DEMO_FS_PATH DEMO_FS_PATH fs = OK tree →
  NoDup (map path (flattenFiles tree)).
Proof.
  intros Hwf Htree. unfold buildTree, fs_stat in Htree.
  assert (Path.segments DEMO_FS_PATH = rootSegs) as Hsegs
    by (rewrite root_resolved; by apply segments_of_resolved).
  rewrite Hsegs in Htree.
  destruct (walk "stat" DEMO_FS_PATH rootSegs fs) as [n|e] eqn:Hroot; [|done].
  simpl in Htree. injection Htree as <-.
  assert (buildTreeAt cwd DEMO_FS_PATH DEMO_FS_PATH n
          = buildTreeAt cwd DEMO_FS_PATH
              ("/" +:+ Str.join "/" (rootSegs ++ [])) n) as ->
    by (by rewrite app_nil_r, <- root_resolved).
  destruct (snapshot_paths n [] (Forall_nil_2 _) (walk_wf _ _ _ _ _ Hwf Hroot))
    as (belows & Hnd & Hclean & ->).
  apply NoDup_fmap_2_strong; [|done].
  intros b1 b2 Hb1 Hb2 Heq. simpl in Heq.
  rewrite Forall_forall in Hclean.
  apply (f_equal Path.segments) in Heq.
  by rewrite !segments_of_resolved in Heq by (by apply Hclean).
Qed.
End SnapshotScan.

Lemma take_while_app_stop f l c rest :
  forallb f l = true → f c = false →
  Path.take_while f (l ++ c :: rest) = l.
Proof.
  intros Hl Hc. induction l as [|x l IH]; simpl.
  - by rewrite Hc.
  - simpl in Hl. apply andb_true_iff in Hl as [Hx Hl]. by rewrite Hx, IH.
Qed.

Lemma of_chars_chars s : Str.of_chars (Str.chars s) = s.
Proof. apply string_of_list_ascii_of_string. Qed.

(** The base name of a path that ends in a clean segment. *)
Lemma basename_child pre ent :
  cleanSeg ent → Path.basename (pre +:+ "/" +:+ ent) = ent.
Proof.
  intros (Hne & _ & _ & Hns). unfold Path.basename.
  rewrite !chars_app, !rev_app_distr.
  change (Str.chars "/") with ["/"%char]. cbn [rev app].
  rewrite <- app_assoc. cbn [app].
  assert (forallb (λ c, negb (Path.is_slash c)) (rev (Str.chars ent)) = true) as Hrev.
  { apply forallb_forall. intros c Hc%in_rev.
    by apply (proj1 (forallb_forall _ _) Hns). }
  destruct (rev (Str.chars ent)) as [|c l] eqn:Hr.
  { destruct ent; [done|]. apply (f_equal length) in Hr.
    by rewrite length_rev in Hr. }
  assert (Path.is_slash c = false) as Hc.
  { simpl in Hrev. apply andb_true_iff in Hrev as [Hc _].
    by apply negb_true_iff in Hc. }
  cbn [app Path.drop_while]. rewrite Hc.
  change (c :: l ++ "/"%char :: rev (Str.chars pre))
    with ((c :: l) ++ "/"%char :: rev (Str.chars pre)).
  rewrite take_while_app_stop by done.
  rewrite <- Hr, rev_involutive. apply of_chars_chars.
Qed.

Lemma resolved_snoc segs ent :
  "/" +:+ Str.join "/" (segs ++ [ent])
  = (match segs with [] => "" | _ => "/" +:+ Str.join "/" segs end)
    +:+ "/" +:+ ent.
Proof.
  destruct segs as [|s segs]; [done|].
  rewrite app_assoc_str. f_equal.
  revert s. induction segs as [|t segs IH]; intros s; [done|].
  change (Str.join "/" ((s :: t :: segs) ++ [ent]))
    with (s +:+ "/" +:+ Str.join "/" ((t :: segs) ++ [ent])).
  change (Str.join "/" (s :: t :: segs))
    with (s +:+ "/" +:+ Str.join "/" (t :: segs)).
  rewrite IH. by rewrite !app_assoc_str.
Qed.

Lemma plainName_of_cleanSeg nm : cleanSeg nm → plainName nm = true.
Proof.
  intros (H1 & H2 & H3 & H4). unfold plainName.
  by rewrite (proj2 (Str_eqb_neq _ _) H1), (proj2 (Str_eqb_neq _ _) H2),
    (proj2 (Str_eqb_neq _ _) H3), H4.
Qed.

Section SnapshotNames.
Variables (cwd DEMO_FS_PATH : string).
Variable rootSegs : list string.
Hypothesis rootSegs_clean : Forall cleanSeg rootSegs.

Lemma snapshot_names n :
  ∀ segs,
    Forall cleanSeg segs → wfInode n = true →
    isDirectory n = true ∨ rootSegs ++ segs ≠ [] →
    Forall (λ f, plainName (name f) = true)
      (flattenFiles (buildTreeAt cwd DEMO_FS_PATH
                       ("/" +:+ Str.join "/" (rootSegs ++ segs)) n)).
Proof.
  induction n as [sz a m c|a m es IH] using Inode_nested_ind;
    intros segs Hsegs Hwf Hpos.
  - destruct Hpos as [?|Hne]; [done|].
    destruct (exists_last Hne) as (init & last & Heq).
    apply Forall_singleton. simpl. rewrite Heq, resolved_snoc.
    assert (cleanSeg last) as Hlast.
    { assert (Forall cleanSeg (init ++ [last])) as Hall.
      { rewrite <- Heq. apply Forall_app. by split. }
      apply Forall_app in Hall as [_ Hl].
      exact (proj1 (Forall_singleton _ _) Hl). }
    rewrite basename_child by done. by apply plainName_of_cleanSeg.
  - simpl in Hwf. apply andb_true_iff in Hwf as [Hall _].
    cbn [buildTreeAt flattenFiles].
    induction es as [|[ent c] es IHes]; [constructor|].
    apply Forall_cons in IH as [IHc IHrest]. simpl in IHc.
    simpl in Hall. apply andb_true_iff in Hall as [Hec Hall].
    apply andb_true_iff in Hec as [Hent%cleanSeg_of_plainName Hc].
    cbn [map flat_map]. apply Forall_app. split; [|by apply IHes].
    cbn [fst snd]. rewrite join_child by (done || by apply Forall_app).
    rewrite <- app_assoc. apply IHc; [|done|].
    + apply Forall_app. split; [done|by constructor].
    + right. rewrite app_assoc. by destruct (rootSegs ++ segs).
Qed.

(** On a well-formed disk the files of the snapshot of the sandbox
    root have plain names. *)
Lemma snapshot_names_plain fs tree :
  DEMO_FS_PATH = "/" +:+ Str.join "/" rootSegs →
  isDirectory fs = true → wfInode fs = true →
  buildTree cwd DEMO_FS_PATH DEMO_FS_PATH fs = OK tree →
  Forall (λ f, plainName (name f) = true) (flattenFiles tree).
Proof.
  intros Hroot Hdir Hwf Htree. unfold buildTree, fs_stat in Htree.
  assert (Path.segments DEMO_FS_PATH = rootSegs) as Hsegs
    by (rewrite Hroot; by apply segments_of_resolved).
  rewrite Hsegs in Htree.
  destruct (walk "stat" DEMO_FS_PATH rootSegs fs) as [n|e] eqn:Hwalk; [|done].
  simpl in Htree. injection Htree as <-.
  assert (buildTreeAt cwd DEMO_FS_PATH DEMO_FS_PATH n
          = buildTreeAt cwd DEMO_FS_PATH
              ("/" +:+ Str.join "/" (rootSegs ++ [])) n) as ->
    by (by rewrite app_nil_r, <- Hroot).
  apply snapshot_names; [constructor|by apply (walk_wf _ _ _ _ _ Hwf Hwalk)|].
  destruct rootSegs as [|s segs]; [|by right].
  left. simpl in Hwalk. by injection Hwalk as <-.
Qed.
End SnapshotNames.

(** ** The heuristic tier and the instruction text *)

Lemma decideCategory_instructions f i1 i2 :
  decideCategory f i1 = decideCategory f i2.
Proof. unfold decideCategory. by rewrite !orb_true_r. Qed.

Lemma heuristicStep_instructions i1 i2 acc f :
  heuristicStep i1 acc f = heuristicStep i2 acc f.
Proof.
  unfold heuristicStep. by rewrite (decideCategory_instructions f i1 i2).
Qed.

(** C7. The heuristic tier gives the same plan whatever the instruction
    text is: for every list of files and every two instruction strings
    the plans are equal. *)
Theorem heuristicPlan_ignores_instructions (files : list FileNode) (i1 i2 : string) :
  heuristicPlan files i1 = heuristicPlan files i2.
Proof.
  unfold heuristicPlan. f_equal.
  generalize (@nil MoveOp). induction files as [|f files IH]; intros acc; simpl.
  - done.
  - by rewrite (heuristicStep_instructions i1 i2), IH.
Qed.

(** ** The path sandbox *)

(** C1. A path beside the root whose name starts with the name of the
    root is let through: with the root [/app/data/demo_fs], the relative
    path [/../demo_fs_evil/secret.txt] resolves to
    [/app/data/demo_fs_evil/secret.txt], which is outside the root, and
    [sanitizePath] returns it instead of failing; a scan of
    [/../demo_fs_evil] lists that directory. *)
Theorem sanitizePath_sibling_prefix_escapes :
  safeRoot Sample.cwd Sample.root = "/app/data/demo_fs"
  ∧ sanitizePath Sample.cwd Sample.root "/../demo_fs_evil/secret.txt"
    = OK "/app/data/demo_fs_evil/secret.txt"
  ∧ ¬ insideRoot (safeRoot Sample.cwd Sample.root)
                 "/app/data/demo_fs_evil/secret.txt"
  ∧ scanDirectory Sample.cwd Sample.root "/../demo_fs_evil" Sample.siblingDisk
    = OK Sample.siblingTree.
Proof.
  split; [reflexivity|]. split; [reflexivity|]. split.
  - apply (bool_decide_eq_false_1 _). vm_compute. reflexivity.
  - vm_compute. reflexivity.
Qed.

(** ** The heuristic tier *)

Lemma decideCategory_table f instructions :
  decideCategory f instructions = categoryOf (lowerExt f).
Proof.
  unfold decideCategory, categoryOf, lowerExt.
  rewrite orb_true_r, !Str_mem_spec. reflexivity.
Qed.

Lemma categoryOf_plain e : plainName (categoryOf e) = true.
Proof. unfold categoryOf. repeat case_bool_decide; reflexivity. Qed.

Lemma heuristicTarget_plain f instructions :
  plainName (name f) = true →
  Path.join ["/demo"; decideCategory f instructions; name f] = categoryTarget f.
Proof.
  intros Hn. rewrite decideCategory_table.
  apply join_demo_plain; [apply categoryOf_plain|done].
Qed.

Lemma heuristicStep_spec instructions acc f :
  plainName (name f) = true →
  heuristicStep instructions acc f = acc ++ categoryMoves f.
Proof.
  intros Hn. unfold heuristicStep, categoryMoves.
  rewrite (heuristicTarget_plain _ _ Hn), decideCategory_table.
  destruct (decide (path f = categoryTarget f)) as [Heq|Hne].
  - rewrite (proj2 (Str_eqb_eq _ _) Heq). simpl. by rewrite app_nil_r.
  - by rewrite (proj2 (Str_eqb_neq _ _) Hne).
Qed.

Lemma heuristic_foldl instructions files acc :
  Forall (λ f, plainName (name f) = true) files →
  foldl (heuristicStep instructions) acc files = acc ++ flat_map categoryMoves files.
Proof.
  intros Hall. revert acc.
  induction Hall as [|f files Hf _ IH]; intros acc; simpl.
  - by rewrite app_nil_r.
  - rewrite (heuristicStep_spec _ _ _ Hf), IH. by rewrite <- app_assoc.
Qed.

Lemma categoryTarget_withPath p f : categoryTarget (withPath p f) = categoryTarget f.
Proof. by destruct f. Qed.

Lemma path_withPath p f : path (withPath p f) = p.
Proof. by destruct f. Qed.

Lemma name_withPath p f : name (withPath p f) = name f.
Proof. by destruct f. Qed.

(** On files with plain names the heuristic tier plans the moves of
    [categoryMoves], file by file. *)
Lemma heuristic_on_plain_names (files : list FileNode) (instructions : string) :
  Forall (λ f, plainName (name f) = true) files →
  heuristicPlan files instructions
    = {| moves := flat_map categoryMoves files; deletions := [] |}
  ∧ (∀ f, f ∈ files →
       decideCategory f instructions = categoryOf (lowerExt f)
       ∧ heuristicTarget f instructions
         = "/demo/" +:+ categoryOf (lowerExt f) +:+ "/" +:+ name f
       ∧ categoryMoves (withPath (heuristicTarget f instructions) f) = []
       ∧ moves (heuristicPlan [withPath (heuristicTarget f instructions) f] instructions) = []).
Proof.
  intros Hall. split.
  - unfold heuristicPlan. by rewrite (heuristic_foldl _ _ _ Hall).
  - intros f Hf. rewrite Forall_forall in Hall. specialize (Hall f Hf).
    unfold heuristicTarget. rewrite (heuristicTarget_plain _ _ Hall).
    assert (categoryMoves (withPath (categoryTarget f) f) = []) as Hnone.
    { unfold categoryMoves.
      rewrite path_withPath, categoryTarget_withPath. by rewrite decide_True. }
    repeat split; [apply decideCategory_table|done|].
    unfold heuristicPlan. cbn [moves]. rewrite heuristic_foldl.
    + simpl. by rewrite Hnone.
    + constructor; [by rewrite name_withPath|constructor].
Qed.

(** C5 (as amended). On a well-formed disk the heuristic tier takes the
    category of every file of the snapshot from the table on its
    lower-case extension, targets [/demo/<category>/<name>] below the
    sandbox root, emits the move exactly for the files that are not at
    their target, in file order, and suggests no deletion; this is the
    plan of [createPlanFromInstructions] whenever the agent returns
    [null].  A file that is at its target gets no move. *)
Theorem heuristic_tier_moves_to_demo_category cwd root (instructions : string)
    (fs : FS) (tree : FileNode) :
  resolvedDir root → isDirectory fs = true → wfInode fs = true →
  buildTree cwd root root fs = OK tree →
  heuristicPlan (flattenFiles tree) instructions
    = {| moves := flat_map categoryMoves (flattenFiles tree); deletions := [] |}
  ∧ (∀ w, Agent.tryLlmOrganize w (flattenFiles tree) instructions = None →
       createPlanFromInstructions cwd root w instructions fs
       = OK (FromHeuristic
               {| moves := flat_map categoryMoves (flattenFiles tree);
                  deletions := [] |}))
  ∧ (∀ f, f ∈ flattenFiles tree →
       decideCategory f instructions = categoryOf (lowerExt f)
       ∧ heuristicTarget f instructions
         = "/demo/" +:+ categoryOf (lowerExt f) +:+ "/" +:+ name f
       ∧ categoryMoves (withPath (heuristicTarget f instructions) f) = []
       ∧ moves (heuristicPlan [withPath (heuristicTarget f instructions) f] instructions) = []).
Proof.
  intros (segs & Hsegs & Hroot) Hdir Hwf Htree.
  pose proof (snapshot_names_plain cwd root segs Hsegs fs tree Hroot Hdir Hwf Htree)
    as Hplain.
  destruct (heuristic_on_plain_names _ instructions Hplain) as [Hplan Hfiles].
  split; [done|]. split; [|done].
  intros w Hnull. unfold createPlanFromInstructions. rewrite Htree. simpl.
  by rewrite Hnull, Hplan.
Qed.

(** ** The preview *)

Lemma afterPaths_snoc ms m :
  afterPaths (ms ++ [m]) = <[from m := to m]> (afterPaths ms).
Proof. unfold afterPaths. by rewrite foldl_app. Qed.

Lemma afterPaths_lookup ms p :
  afterPaths ms !! p = to <$> find (λ m, Str.eqb (from m) p) (rev ms).
Proof.
  induction ms as [|m ms IH] using rev_ind.
  - unfold afterPaths. simpl. apply lookup_empty.
  - rewrite afterPaths_snoc, rev_app_distr. simpl.
    destruct (decide (from m = p)) as [->|Hne].
    + rewrite lookup_insert_eq. by rewrite Str_eqb_refl.
    + rewrite lookup_insert_ne by done.
      by rewrite (proj2 (Str_eqb_neq _ _) Hne).
Qed.

Lemma mapPath_planMapping ms p :
  Forall (λ m, to m ≠ "") ms →
  mapPath (afterPaths ms) p = planMapping ms p.
Proof.
  intros Hall. unfold mapPath, planMapping. rewrite afterPaths_lookup.
  destruct (find _ (rev ms)) as [m|] eqn:Hfind; simpl; [|done].
  apply find_some in Hfind as [Hin _].
  apply in_rev in Hin. rewrite Forall_forall in Hall.
  assert (to m ≠ "") as Hto by (apply Hall; by apply list_elem_of_In).
  unfold Str.truthy. by rewrite (proj2 (Str_eqb_neq _ _) Hto).
Qed.

Lemma relabel_ext rho1 rho2 n :
  (∀ p, rho1 p = rho2 p) → relabel rho1 n = relabel rho2 n.
Proof.
  intros Hext. induction n as [n Hn|n cs Hn IH] using FileNode_nested_ind.
  - destruct n as [nm p t s e cs a m]. simpl in Hn. subst cs.
    destruct t; simpl; by rewrite ?Hext.
  - destruct n as [nm p t s e cs' a m]. simpl in Hn. subst cs'.
    destruct t; simpl; [by rewrite Hext|].
    do 2 f_equal. apply map_ext_Forall. exact IH.
Qed.

Lemma cloneNode_relabel ap n :
  dirsListed n = true → cloneNode ap n = relabel (mapPath ap) n.
Proof.
  induction n as [n Hn|n cs Hn IH] using FileNode_nested_ind; intros Hwf.
  - destruct n as [nm p t s e cs a m]. simpl in Hn. subst cs.
    destruct t; [done|]. simpl in Hwf. done.
  - destruct n as [nm p t s e cs' a m]. simpl in Hn. subst cs'.
    destruct t; [done|]. simpl in Hwf. simpl. do 2 f_equal.
    apply map_ext_Forall.
    rewrite Forall_forall in IH. apply Forall_forall. intros c Hc.
    apply IH; [done|].
    apply (proj1 (forallb_forall _ _) Hwf). by apply list_elem_of_In.
Qed.

Lemma flattenFiles_relabel rho n :
  flattenFiles (relabel rho n)
  = map (λ f, withPath (rho (path f)) f) (flattenFiles n).
Proof.
  induction n as [n Hn|n cs Hn IH] using FileNode_nested_ind.
  - destruct n as [nm p t s e cs a m]. simpl in Hn. subst cs.
    destruct t; done.
  - destruct n as [nm p t s e cs' a m]. simpl in Hn. subst cs'.
    destruct t; [done|]. simpl.
    induction IH as [|c cs Hc _ IHcs]; simpl; [done|].
    by rewrite map_app, Hc, IHcs.
Qed.

Lemma buildTreeAt_dirsListed cwd root st :
  ∀ absPath, dirsListed (buildTreeAt cwd root absPath st) = true.
Proof.
  induction st as [|a m es IH] using Inode_nested_ind; intros absPath; [done|].
  simpl. induction IH as [|e es He _ IHes]; simpl; [done|].
  by rewrite He, IHes.
Qed.

Lemma buildTree_dirsListed cwd root absPath fs tree :
  buildTree cwd root absPath fs = OK tree → dirsListed tree = true.
Proof.
  unfold buildTree. destruct (fs_stat _ _ _) as [st|e]; simpl; [|done].
  intros [= <-]. apply buildTreeAt_dirsListed.
Qed.

Lemma mapPath_previewMapping ms p :
  mapPath (afterPaths ms) p = previewMapping ms p.
Proof.
  unfold mapPath, previewMapping. rewrite afterPaths_lookup.
  destruct (find _ (rev ms)) as [m|]; simpl; [|done].
  unfold Str.truthy, Str.eqb. by destruct (bool_decide (to m = "")).
Qed.

Lemma previewMapping_unmentioned ms p :
  (∀ m, m ∈ ms → from m ≠ p) → previewMapping ms p = p.
Proof.
  intros Hno. unfold previewMapping.
  destruct (find _ (rev ms)) as [m|] eqn:Hfind; [|done].
  apply find_some in Hfind as [Hin Heq]. apply in_rev, list_elem_of_In in Hin.
  apply Str_eqb_eq in Heq. by destruct (Hno m Hin).
Qed.

Lemma previewMapping_planMapping ms p :
  (∀ m, m ∈ ms → from m = p → to m ≠ "") →
  previewMapping ms p = planMapping ms p.
Proof.
  intros Hto. unfold previewMapping, planMapping.
  destruct (find _ (rev ms)) as [m|] eqn:Hfind; [|done].
  apply find_some in Hfind as [Hin Heq]. apply in_rev, list_elem_of_In in Hin.
  apply Str_eqb_eq in Heq. by rewrite bool_decide_eq_false_2 by by apply Hto.
Qed.

Lemma previewMapping_empty_target pre m post :
  (∀ m', m' ∈ post → from m' ≠ from m) → to m = "" →
  previewMapping (pre ++ m :: post) (from m) = from m.
Proof.
  intros Hlast Hto. unfold previewMapping.
  assert (find (λ m', Str.eqb (from m') (from m)) (rev (pre ++ m :: post)) = Some m)
    as ->; [|by rewrite bool_decide_eq_true_2].
  rewrite rev_app_distr. simpl. rewrite <- app_assoc. simpl.
  assert (∀ l, (∀ m', m' ∈ l → from m' ≠ from m) →
               find (λ m', Str.eqb (from m') (from m)) (l ++ m :: rev pre) = Some m)
    as Hfind.
  { induction l as [|x l IH]; intros Hl; simpl.
    - by rewrite Str_eqb_refl.
    - rewrite (proj2 (Str_eqb_neq _ _)) by (apply Hl; by left).
      apply IH. intros m' Hm'. apply Hl. by right. }
  apply Hfind. intros m' Hm'. apply Hlast.
  by apply list_elem_of_In, in_rev, list_elem_of_In.
Qed.

(** C6 (as amended). A preview leaves the disk as it is, and for every
    plan its [after] view is [before] relabelled by the mapping the
    preview shows: file leaves get the mapped path, directories are
    kept and their children relabelled, so the files of [after] are
    the files of [before], one for one and in the same order, with
    only the path rewritten.  The mapping is the identity on a path
    no move mentions, and the from-to mapping of the plan on a path
    whose moves all have a target other than the empty string; where
    the last move of a path has the empty string as target the path
    stays.  The preview fails exactly when the snapshot fails. *)
Theorem previewPlan_relabels_snapshot cwd root (plan : Plan) (fs : FS) :
  (previewPlan cwd root plan fs).1 = fs
  ∧ (∀ before, buildTree cwd root root fs = OK before →
       (previewPlan cwd root plan fs).2
         = OK (before, relabel (previewMapping (moves plan)) before)
       ∧ flattenFiles (relabel (previewMapping (moves plan)) before)
         = map (λ f, withPath (previewMapping (moves plan) (path f)) f)
               (flattenFiles before))
  ∧ (∀ p, (∀ m, m ∈ moves plan → from m ≠ p) →
       previewMapping (moves plan) p = p)
  ∧ (∀ p, (∀ m, m ∈ moves plan → from m = p → to m ≠ "") →
       previewMapping (moves plan) p = planMapping (moves plan) p)
  ∧ (∀ pre m post, moves plan = pre ++ m :: post →
       (∀ m', m' ∈ post → from m' ≠ from m) → to m = "" →
       previewMapping (moves plan) (from m) = from m)
  ∧ (∀ e, buildTree cwd root root fs = Err e →
       (previewPlan cwd root plan fs).2 = Err e).
Proof.
  split; [done|]. split_and!.
  - intros before Hb. split; [|apply flattenFiles_relabel].
    unfold previewPlan. simpl. rewrite Hb. simpl. do 2 f_equal.
    rewrite (cloneNode_relabel _ _ (buildTree_dirsListed _ _ _ _ _ Hb)).
    apply relabel_ext. intros p. apply mapPath_previewMapping.
  - intros p. apply previewMapping_unmentioned.
  - intros p. apply previewMapping_planMapping.
  - intros pre m post -> Hlast Hto. by apply previewMapping_empty_target.
  - intros e He. unfold previewPlan. simpl. by rewrite He.
Qed.

(** ** Garbage detection *)

Section DetectProps.
Variables (cwd root : string) (sha : string → string).
Variable fs : FS.

Local Abbreviation scannable_ := (scannable cwd root sha fs).
Local Abbreviation digest_ := (digest cwd root sha fs).
Local Abbreviation groupsOf_ := (groupsOf cwd root sha fs).
Local Abbreviation membersOf_ := (membersOf cwd root sha fs).
Local Abbreviation detectFile_ := (detectFile cwd root sha).
Local Abbreviation detectFiles_ := (detectFiles cwd root sha).
Local Abbreviation detectIn_ := (detectIn cwd root sha).

Lemma detectFile_ok now f s g :
  scannable_ f = true →
  detectFile_ now fs f (s, g)
  = OK (s ++ perFile now f,
        if eligible f then pushPath (digest_ f) (path f) g else g).
Proof.
  unfold scannable, detectFile, perFile, eligible, digest.
  destruct (sanitizePath cwd root (path f)) as [abs|e]; [|done].
  simpl. destruct (isJunk f); simpl; [done|].
  destruct (isHashed f); simpl.
  - destruct (hashFile sha abs fs) as [h|e]; [|done]. simpl. intros _.
    destruct (isStaleLarge now f); simpl; by rewrite ?app_nil_r.
  - intros _. destruct (isStaleLarge now f); simpl; by rewrite ?app_nil_r.
Qed.

Lemma detectFiles_ok now files s g :
  forallb scannable_ files = true →
  detectFiles_ now fs files (s, g)
  = OK (s ++ flat_map (perFile now) files, groupsOf_ files g).
Proof.
  revert s g. induction files as [|f files IH]; intros s g Hall.
  - simpl. by rewrite app_nil_r.
  - simpl in Hall. apply andb_true_iff in Hall as [Hf Hall].
    cbn [detectFiles]. rewrite (detectFile_ok _ _ _ _ Hf).
    cbn [mbind result_bind flat_map].
    rewrite (IH _ _ Hall). rewrite <- app_assoc. f_equal. f_equal.
    unfold groupsOf. rewrite filter_cons.
    destruct (decide (eligible f = true)) as [He|He].
    + by rewrite He.
    + apply not_true_is_false in He. by rewrite He.
Qed.

Lemma detectIn_ok now files :
  forallb scannable_ files = true →
  detectIn_ now fs files
  = OK (flat_map (perFile now) files ++ duplicatesOf (groupsOf_ files [])).
Proof.
  intros Hall. unfold detectIn. by rewrite (detectFiles_ok _ _ _ _ Hall).
Qed.

Lemma isJunk_spec f :
  isJunk f = true ↔
  lowerExt f ∈ junkExts ∨ Str.startsWith (name f) "~" = true
  ∨ Str.endsWith (name f) ".DS_Store" = true.
Proof.
  unfold isJunk, junkName. rewrite Str_mem_spec, !orb_true_iff.
  rewrite bool_decide_eq_true. tauto.
Qed.

Lemma junkSuggestion_in now files f :
  f ∈ files → isJunk f = true →
  junkSuggestion now f ∈ flat_map (perFile now) files.
Proof.
  intros Hin Hj. apply list_elem_of_In, in_flat_map. exists f.
  split; [by apply list_elem_of_In|]. unfold perFile. rewrite Hj. by left.
Qed.

(** A junk artifact among the files gets its suggestion, with the
    extension, or the name, and the age in days in the reason. *)
Lemma junk_artifact_in_suggestions (now : Z) (files : list FileNode) (f : FileNode) :
  forallb scannable_ files = true →
  f ∈ files →
  lowerExt f ∈ ["tmp"; "log"; "cache"; "bak"; "old"]
  ∨ Str.startsWith (name f) "~" = true
  ∨ Str.endsWith (name f) ".DS_Store" = true →
  ∃ s, detectIn_ now fs files = OK s
     ∧ {| ds_file := path f;
          ds_reason :=
            "Temporary or system artifact ("
            +:+ (if decide (lowerExt f = "") then name f else lowerExt f)
            +:+ "), last accessed "
            +:+ Str.of_Z (match atimeMs f with
                          | Some a => if decide (a = 0) then 0
                                      else (now - a) / 86400000
                          | None => 0
                          end)
            +:+ " days ago";
          confidence := high;
          sizeBytes := size f;
          safeToDelete := true |} ∈ s.
Proof.
  intros Hall Hin Hj. apply isJunk_spec in Hj.
  eexists. split; [by apply detectIn_ok|].
  apply elem_of_app. left.
  pose proof (junkSuggestion_in now files f Hin Hj) as H.
  unfold junkSuggestion, ageDays, Str.truthy in H.
  replace (negb (Str.eqb (lowerExt f) ""))
    with (if decide (lowerExt f = "") then false else true) in H.
  2:{ unfold Str.eqb. by case_decide; [rewrite bool_decide_eq_true_2|rewrite bool_decide_eq_false_2]. }
  destruct (decide (lowerExt f = "")) as [He|He];
  destruct (atimeMs f) as [a|]; try exact H.
  - destruct (decide (a = 0)) as [->|Ha]; [exact H|].
    by rewrite (proj2 (Z.eqb_neq _ _) Ha) in H.
  - destruct (decide (a = 0)) as [->|Ha]; [exact H|].
    by rewrite (proj2 (Z.eqb_neq _ _) Ha) in H.
Qed.
End DetectProps.

(** ** Hash groups *)

Lemma assoc_pushPath h h' p g :
  assoc h (pushPath h' p g)
  = if decide (h = h') then Some (default [] (assoc h g) ++ [p]) else assoc h g.
Proof.
  induction g as [|[k ps] g IH]; simpl.
  - destruct (decide (h = h')) as [->|Hne].
    + by rewrite Str_eqb_refl.
    + by rewrite (proj2 (Str_eqb_neq _ _) Hne).
  - destruct (Str.eqb h' k) eqn:Hk; simpl.
    + apply Str_eqb_eq in Hk as ->.
      destruct (decide (h = k)) as [->|Hne].
      * by rewrite Str_eqb_refl.
      * by rewrite (proj2 (Str_eqb_neq _ _) Hne).
    + apply Str_eqb_neq in Hk. rewrite IH.
      destruct (Str.eqb h k) eqn:Hhk.
      * apply Str_eqb_eq in Hhk as ->. by rewrite decide_False.
      * done.
Qed.

Lemma pushPath_elem h ps h' p' g :
  (h, ps) ∈ pushPath h' p' g →
  ∀ p, p ∈ ps → (∃ ps0, (h, ps0) ∈ g ∧ p ∈ ps0) ∨ (h = h' ∧ p = p').
Proof.
  induction g as [|[k qs] g IH]; simpl; intros Hin p Hp.
  - apply list_elem_of_singleton in Hin as [= -> ->].
    apply list_elem_of_singleton in Hp as ->. by right.
  - destruct (Str.eqb h' k) eqn:Hk.
    + apply Str_eqb_eq in Hk as ->.
      apply elem_of_cons in Hin as [[= -> ->]|Hin].
      * apply elem_of_app in Hp as [Hp|Hp].
        -- left. exists qs. split; [left|done].
        -- apply list_elem_of_singleton in Hp as ->. by right.
      * left. exists ps. split; [by right|done].
    + apply elem_of_cons in Hin as [[= -> ->]|Hin].
      * left. exists qs. split; [left|done].
      * destruct (IH Hin p Hp) as [(ps0 & H0 & H1)|H]; [|by right].
        left. exists ps0. split; [by right|done].
Qed.

Lemma concat_pushPath h p g :
  concat (map snd (pushPath h p g)) ≡ₚ p :: concat (map snd g).
Proof.
  induction g as [|[k qs] g IH]; simpl; [done|].
  destruct (Str.eqb h k); simpl.
  - rewrite <- app_assoc. simpl. by rewrite <- Permutation_middle.
  - rewrite IH. by rewrite <- Permutation_middle.
Qed.

Lemma duplicatesOf_cons h ps g :
  duplicatesOf ((h, ps) :: g)
  = match ps with
    | [] => []
    | original :: others => map (duplicateSuggestion original) others
    end ++ duplicatesOf g.
Proof. reflexivity. Qed.

Lemma duplicatesOf_in g h original others p :
  (h, original :: others) ∈ g → p ∈ others →
  duplicateSuggestion original p ∈ duplicatesOf g.
Proof.
  intros Hg Hp. apply list_elem_of_In, in_flat_map.
  exists (h, original :: others). split; [by apply list_elem_of_In|].
  simpl. apply in_map. by apply list_elem_of_In.
Qed.

Lemma duplicatesOf_elem sg g :
  sg ∈ duplicatesOf g →
  ∃ h original others p,
    (h, original :: others) ∈ g ∧ p ∈ others
    ∧ sg = duplicateSuggestion original p.
Proof.
  intros Hin. apply list_elem_of_In, in_flat_map in Hin as ([h ps] & Hg & Hs).
  simpl in Hs. destruct ps as [|original others]; [done|].
  apply in_map_iff in Hs as (p & <- & Hp).
  exists h, original, others, p.
  split; [by apply list_elem_of_In|]. split; [by apply list_elem_of_In|done].
Qed.

Lemma duplicatesOf_files g :
  map ds_file (duplicatesOf g) ⊆+ concat (map snd g).
Proof.
  induction g as [|[h ps] g IH]; [done|].
  rewrite duplicatesOf_cons, map_app. simpl. apply submseteq_app; [|done].
  destruct ps as [|original others]; [done|].
  rewrite map_map. simpl. rewrite map_id. by apply submseteq_cons.
Qed.

Lemma filter_disjoint_submseteq {A} (P Q : A → Prop)
    `{!∀ x, Decision (P x), !∀ x, Decision (Q x)} (l : list A) :
  (∀ x, P x → Q x → False) → filter P l ++ filter Q l ⊆+ l.
Proof.
  intros Hdis. induction l as [|x l IH]; [done|].
  rewrite !filter_cons.
  destruct (decide (P x)) as [HP|HP], (decide (Q x)) as [HQ|HQ].
  - destruct (Hdis x HP HQ).
  - simpl. by apply submseteq_skip.
  - rewrite <- Permutation_middle. by apply submseteq_skip.
  - by apply submseteq_cons.
Qed.

Lemma submseteq_NoDup {A} (l k : list A) : l ⊆+ k → NoDup k → NoDup l.
Proof.
  intros [k' Hk]%submseteq_Permutation Hnd. rewrite Hk in Hnd.
  by apply NoDup_app in Hnd as [? _].
Qed.

Lemma filter_key_absent {A B} `{EqDecision B} (g : A → B) (l : list A) (b : B) :
  b ∉ map g l → filter (λ y, g y = b) l = [].
Proof.
  induction l as [|z l IH]; [done|]. simpl.
  intros [Hz Hl]%not_elem_of_cons. rewrite filter_cons.
  rewrite decide_False by done. by apply IH.
Qed.

Lemma filter_same_key {A B} `{EqDecision B} (g : A → B) (l : list A) (x : A) :
  NoDup (map g l) → x ∈ l → filter (λ y, g y = g x) l = [x].
Proof.
  induction l as [|y l IH]; simpl; intros Hnd Hin; [by apply elem_of_nil in Hin|].
  apply NoDup_cons in Hnd as [Hy Hnd]. rewrite filter_cons.
  apply elem_of_cons in Hin as [->|Hin].
  - rewrite decide_True by done. f_equal. by apply filter_key_absent.
  - rewrite decide_False; [by apply IH|].
    intros Heq. apply Hy. rewrite Heq. by apply (list_elem_of_fmap_2 g).
Qed.

Section GroupProps.
Variables (cwd root : string) (sha : string → string).
Variable fs : FS.

Local Abbreviation scannable_ := (scannable cwd root sha fs).
Local Abbreviation digest_ := (digest cwd root sha fs).
Local Abbreviation contentOf_ := (contentOf cwd root fs).
Local Abbreviation groupsOf_ := (groupsOf cwd root sha fs).
Local Abbreviation membersOf_ := (membersOf cwd root sha fs).
Local Abbreviation detectIn_ := (detectIn cwd root sha).

Lemma groupsOf_cons f files g :
  groupsOf_ (f :: files) g
  = groupsOf_ files (if eligible f then pushPath (digest_ f) (path f) g else g).
Proof.
  unfold groupsOf. rewrite filter_cons.
  destruct (decide (eligible f = true)) as [He|He].
  - by rewrite He.
  - apply not_true_is_false in He. by rewrite He.
Qed.

Lemma membersOf_cons h f files :
  membersOf_ h (f :: files)
  = (if decide (eligible f = true ∧ digest_ f = h) then [path f] else [])
    ++ membersOf_ h files.
Proof. unfold membersOf. rewrite filter_cons. by case_decide. Qed.

Lemma membersOf_app h l1 l2 :
  membersOf_ h (l1 ++ l2) = membersOf_ h l1 ++ membersOf_ h l2.
Proof. unfold membersOf. by rewrite filter_app, map_app. Qed.

Lemma assoc_groupsOf h files g :
  assoc h (groupsOf_ files g)
  = match assoc h g, membersOf_ h files with
    | None, [] => None
    | o, ms => Some (default [] o ++ ms)
    end.
Proof.
  revert g. induction files as [|f files IH]; intros g.
  - unfold groupsOf, membersOf. simpl.
    destruct (assoc h g); simpl; by rewrite ?app_nil_r.
  - rewrite groupsOf_cons, IH, membersOf_cons.
    destruct (eligible f) eqn:He.
    + rewrite assoc_pushPath.
      destruct (decide (h = digest_ f)) as [->|Hne].
      * rewrite decide_True by done. simpl.
        destruct (assoc (digest_ f) g) as [q|]; simpl.
        -- rewrite <- app_assoc. simpl. by destruct (membersOf_ _ files).
        -- by destruct (membersOf_ _ files).
      * rewrite decide_False by (intros [_ ?]; congruence). done.
    + rewrite decide_False by (intros [? _]; congruence). done.
Qed.

Lemma groupsOf_elem files g h ps :
  (h, ps) ∈ groupsOf_ files g →
  ∀ p, p ∈ ps →
    (∃ ps0, (h, ps0) ∈ g ∧ p ∈ ps0)
    ∨ (∃ f, f ∈ files ∧ eligible f = true ∧ digest_ f = h ∧ path f = p).
Proof.
  revert g. induction files as [|f files IH]; intros g Hin p Hp.
  - left. by exists ps.
  - rewrite groupsOf_cons in Hin.
    destruct (IH _ Hin p Hp) as [(ps0 & H0 & H1)|(f' & Hf' & H')].
    + destruct (eligible f) eqn:He.
      * destruct (pushPath_elem _ _ _ _ _ H0 p H1) as [?|[-> ->]]; [by left|].
        right. exists f. split; [left|done].
      * left. by exists ps0.
    + right. exists f'. split; [by right|done].
Qed.

Lemma concat_groupsOf files g :
  concat (map snd (groupsOf_ files g))
  ≡ₚ concat (map snd g) ++ map path (filter (λ f, eligible f = true) files).
Proof.
  revert g. induction files as [|f files IH]; intros g.
  - unfold groupsOf. simpl. by rewrite app_nil_r.
  - rewrite groupsOf_cons, IH, filter_cons.
    destruct (decide (eligible f = true)) as [He|He].
    + rewrite He, concat_pushPath. simpl. by rewrite <- Permutation_middle.
    + apply not_true_is_false in He. by rewrite He.
Qed.

Lemma perFile_files now files :
  map ds_file (flat_map (perFile now) files)
  = map path (filter (λ f, isJunk f || isStaleLarge now f = true) files).
Proof.
  induction files as [|f files IH]; [done|].
  simpl. rewrite map_app, IH, filter_cons. unfold perFile.
  destruct (isJunk f); simpl; [done|].
  destruct (isStaleLarge now f); simpl; done.
Qed.

Lemma eligible_not_perFile now f :
  isJunk f || isStaleLarge now f = true → eligible f = true → False.
Proof.
  unfold eligible, isStaleLarge, isHashed. unfold MiB.
  destruct (isJunk f); simpl; [done|].
  rewrite !andb_true_iff, !Z.ltb_lt. lia.
Qed.

Lemma detect_files_submseteq now files :
  map ds_file (flat_map (perFile now) files ++ duplicatesOf (groupsOf_ files []))
  ⊆+ map path files.
Proof.
  rewrite map_app, perFile_files.
  transitivity (map path (filter (λ f, isJunk f || isStaleLarge now f = true) files)
                ++ map path (filter (λ f, eligible f = true) files)).
  - apply submseteq_app; [done|].
    etransitivity; [apply duplicatesOf_files|].
    by rewrite concat_groupsOf.
  - rewrite <- map_app. apply (fmap_submseteq path).
    apply filter_disjoint_submseteq. apply eligible_not_perFile.
Qed.

(** The suggested files are taken from the files without
    repetition. *)
Lemma suggested_files_are_files (now : Z) (files : list FileNode) :
  forallb scannable_ files = true →
  ∃ s, detectIn_ now fs files = OK s
     ∧ map ds_file s ⊆+ map path files
     ∧ (NoDup (map path files) →
        NoDup (map ds_file s)
        ∧ ∀ f, f ∈ files → isJunk f = true →
            filter (λ sg, ds_file sg = path f) s = [junkSuggestion now f]).
Proof.
  intros Hall. eexists. split; [by apply detectIn_ok|].
  split; [apply detect_files_submseteq|]. intros Hnd.
  pose proof (submseteq_NoDup _ _ (detect_files_submseteq now files) Hnd) as Hs.
  split; [done|]. intros f Hf Hj.
  apply (filter_same_key ds_file _ (junkSuggestion now f)); [done|].
  apply elem_of_app. left. by apply junkSuggestion_in.
Qed.

Lemma eligible_spec f :
  eligible f = true ↔
  isJunk f = false ∧ ∃ z, size f = Some z ∧ z ≠ 0 ∧ z < 20 * 1024 * 1024.
Proof.
  unfold eligible, isHashed, truthyZ, MiB.
  rewrite !andb_true_iff, negb_true_iff. destruct (size f) as [z|]; simpl.
  - rewrite negb_true_iff, Z.eqb_neq, Z.ltb_lt. split.
    + intros (? & ? & ?). split; [done|]. exists z. repeat split; [done..|lia].
    + intros (? & z' & [= <-] & ? & ?). repeat split; [done..|lia].
  - split; [intros (_ & ? & _); done|]. by intros (_ & z & ? & _).
Qed.

Lemma contentOf_digest f c : contentOf_ f = Some c → digest_ f = sha c.
Proof.
  unfold contentOf, digest, hashFile.
  destruct (sanitizePath cwd root (path f)) as [abs|e]; [|done].
  destruct (fs_stat "open" abs fs) as [[sz a m c'|a m es]|e]; simpl; try done.
  by intros [= ->].
Qed.

(** The later of two hashed files with the same content is reported
    as a duplicate of the first file hashed to their digest. *)
Lemma duplicate_in_suggestions
    (now : Z) (l1 l2 l3 : list FileNode) (f1 f2 : FileNode) (c : string) (z1 z2 : Z) :
  forallb scannable_ (l1 ++ f1 :: l2 ++ f2 :: l3) = true →
  isJunk f1 = false → size f1 = Some z1 → z1 ≠ 0 → z1 < 20 * 1024 * 1024 →
  isJunk f2 = false → size f2 = Some z2 → z2 ≠ 0 → z2 < 20 * 1024 * 1024 →
  contentOf_ f1 = Some c → contentOf_ f2 = Some c →
  ∃ dups,
    detectIn_ now fs (l1 ++ f1 :: l2 ++ f2 :: l3)
      = OK (flat_map (perFile now) (l1 ++ f1 :: l2 ++ f2 :: l3) ++ dups)
    ∧ {| ds_file := path f2;
         ds_reason := "Duplicate of "
                      +:+ hd (path f1) (membersOf_ (sha c) l1)
                      +:+ " (same content hash)";
         confidence := high;
         sizeBytes := None;
         safeToDelete := true |} ∈ dups
    ∧ ∀ sg, sg ∈ dups →
        ∃ f original z,
          f ∈ l1 ++ f1 :: l2 ++ f2 :: l3 ∧ sg = duplicateSuggestion original (path f)
          ∧ isJunk f = false ∧ size f = Some z ∧ z ≠ 0 ∧ z < 20 * 1024 * 1024.
Proof.
  intros Hall Hj1 Hs1 Hz1 Hlt1 Hj2 Hs2 Hz2 Hlt2 Hc1 Hc2.
  assert (eligible f1 = true) as He1 by (apply eligible_spec; eauto 10).
  assert (eligible f2 = true) as He2 by (apply eligible_spec; eauto 10).
  apply contentOf_digest in Hc1, Hc2.
  set (files := l1 ++ f1 :: l2 ++ f2 :: l3) in *.
  exists (duplicatesOf (groupsOf_ files [])).
  split; [by apply detectIn_ok|]. split.
  - assert (membersOf_ (sha c) files
            = membersOf_ (sha c) l1 ++ path f1 :: membersOf_ (sha c) l2
              ++ path f2 :: membersOf_ (sha c) l3) as Hm.
    { unfold files. rewrite membersOf_app, membersOf_cons, membersOf_app, membersOf_cons.
      rewrite !decide_True by done. reflexivity. }
    pose proof (assoc_groupsOf (sha c) files []) as Hg. simpl in Hg.
    rewrite Hm in Hg.
    destruct (membersOf_ (sha c) l1) as [|x r] eqn:Hl1; simpl in Hg |- *.
    + apply assoc_elem in Hg.
      apply (duplicatesOf_in _ _ _ _ (path f2) Hg).
      apply elem_of_app. right. left.
    + apply assoc_elem in Hg.
      apply (duplicatesOf_in _ _ _ _ (path f2) Hg).
      apply elem_of_app. right. right. apply elem_of_app. right. left.
  - intros sg (h & original & others & p & Hg & Hp & ->)%duplicatesOf_elem.
    destruct (groupsOf_elem _ _ _ _ Hg p) as [(ps0 & H0 & _)|(f & Hf & He & _ & <-)].
    { by right. }
    { by apply elem_of_nil in H0. }
    apply eligible_spec in He as (Hj & z & Hs & Hz & Hlt).
    exists f, original, z. done.
Qed.
End GroupProps.

(** ** Garbage detection on a snapshot *)

Section GarbageProps.
Variables (cwd root : string) (sha : string → string).
Hypothesis root_resolved : resolvedDir root.

(** On a well-formed disk [detectGarbage] returns the suggestions of
    the first loop, file by file, and then the duplicates. *)
Lemma detectGarbage_ok now fs tree :
  wfInode fs = true →
  buildTree cwd root root fs = OK tree →
  forallb (scannable cwd root sha fs) (flattenFiles tree) = true
  ∧ NoDup (map path (flattenFiles tree))
  ∧ detectGarbage cwd root sha now fs
    = detectIn cwd root sha now fs (flattenFiles tree).
Proof.
  intros Hwf Htree. destruct root_resolved as (segs & Hsegs & Hroot).
  split; [by apply (snapshot_is_scannable cwd root sha segs)|].
  split; [by apply (snapshot_paths_distinct cwd root segs Hsegs Hroot fs)|].
  unfold detectGarbage. by rewrite Htree.
Qed.

(** C8 (as amended). On a well-formed disk, a file of the snapshot
    whose extension is one of tmp, log, cache, bak, old, or whose name
    starts with [~] or ends with [.DS_Store], gets a suggestion with
    confidence high that is safe to delete, whatever its size, access
    time and content; the reason names the extension (the name if
    there is no extension) and the age in days, which is
    [floor((now - atime) / 86400000)] when the access time is not
    zero and [0] when it is zero or absent. *)
Theorem junk_artifact_is_suggested (now : Z) (fs : FS) (tree f : FileNode) :
  wfInode fs = true →
  buildTree cwd root root fs = OK tree →
  f ∈ flattenFiles tree →
  lowerExt f ∈ ["tmp"; "log"; "cache"; "bak"; "old"]
  ∨ Str.startsWith (name f) "~" = true
  ∨ Str.endsWith (name f) ".DS_Store" = true →
  ∃ s, detectGarbage cwd root sha now fs = OK s
     ∧ {| ds_file := path f;
          ds_reason :=
            "Temporary or system artifact ("
            +:+ (if decide (lowerExt f = "") then name f else lowerExt f)
            +:+ "), last accessed "
            +:+ Str.of_Z (match atimeMs f with
                          | Some a => if decide (a = 0) then 0
                                      else (now - a) / 86400000
                          | None => 0
                          end)
            +:+ " days ago";
          confidence := high;
          sizeBytes := size f;
          safeToDelete := true |} ∈ s.
Proof.
  intros Hwf Htree Hf Hj.
  destruct (detectGarbage_ok now fs tree Hwf Htree) as (Hscan & _ & ->).
  by apply junk_artifact_in_suggestions.
Qed.

(** C2 (as amended). On a well-formed disk the rules exclude one
    another: the suggested files are taken from the files of the
    snapshot without repetition, no file is suggested twice, and a
    junk artifact has its junk suggestion and no other. *)
Theorem each_file_is_suggested_at_most_once (now : Z) (fs : FS) (tree : FileNode) :
  wfInode fs = true →
  buildTree cwd root root fs = OK tree →
  ∃ s, detectGarbage cwd root sha now fs = OK s
     ∧ map ds_file s ⊆+ map path (flattenFiles tree)
     ∧ NoDup (map ds_file s)
     ∧ ∀ f, f ∈ flattenFiles tree → isJunk f = true →
         filter (λ sg, ds_file sg = path f) s = [junkSuggestion now f].
Proof.
  intros Hwf Htree.
  destruct (detectGarbage_ok now fs tree Hwf Htree) as (Hscan & Hnd & ->).
  destruct (suggested_files_are_files cwd root sha fs now _ Hscan)
    as (s & Hs & Hsub & Hrest).
  exists s. split; [done|]. split; [done|]. by destruct (Hrest Hnd).
Qed.

(** C4 (as amended). On a well-formed disk, take two files of the
    snapshot, the second after the first, that are no junk artifacts,
    have a size other than zero and under 20 MiB, and have the same
    content.  The second is reported as a duplicate of the first file
    in snapshot order that is hashed to their digest (the first of the
    two, if none comes before it), with confidence high, safe to
    delete, no size and a reason that names that original.  Every
    duplicate suggestion names a file that is no junk artifact and has
    a size other than zero and under 20 MiB. *)
Theorem same_content_is_reported_as_duplicate
    (now : Z) (fs : FS) (tree : FileNode) (l1 l2 l3 : list FileNode)
    (f1 f2 : FileNode) (c : string) (z1 z2 : Z) :
  wfInode fs = true →
  buildTree cwd root root fs = OK tree →
  flattenFiles tree = l1 ++ f1 :: l2 ++ f2 :: l3 →
  isJunk f1 = false → size f1 = Some z1 → z1 ≠ 0 → z1 < 20 * 1024 * 1024 →
  isJunk f2 = false → size f2 = Some z2 → z2 ≠ 0 → z2 < 20 * 1024 * 1024 →
  contentOf cwd root fs f1 = Some c → contentOf cwd root fs f2 = Some c →
  ∃ dups,
    detectGarbage cwd root sha now fs
      = OK (flat_map (perFile now) (flattenFiles tree) ++ dups)
    ∧ {| ds_file := path f2;
         ds_reason := "Duplicate of "
                      +:+ hd (path f1) (membersOf cwd root sha fs (sha c) l1)
                      +:+ " (same content hash)";
         confidence := high;
         sizeBytes := None;
         safeToDelete := true |} ∈ dups
    ∧ ∀ sg, sg ∈ dups →
        ∃ f original z,
          f ∈ flattenFiles tree ∧ sg = duplicateSuggestion original (path f)
          ∧ isJunk f = false ∧ size f = Some z ∧ z ≠ 0 ∧ z < 20 * 1024 * 1024.
Proof.
  intros Hwf Htree Hfiles Hj1 Hs1 Hz1 Hlt1 Hj2 Hs2 Hz2 Hlt2 Hc1 Hc2.
  destruct (detectGarbage_ok now fs tree Hwf Htree) as (Hscan & _ & ->).
  rewrite Hfiles in Hscan |- *.
  by apply (duplicate_in_suggestions cwd root sha fs now l1 l2 l3 f1 f2 c z1 z2).
Qed.
End GarbageProps.

(** ** The disk *)

Lemma assoc_set_entry {A} k k' (v : A) l :
  assoc k (set_entry k' v l) = if decide (k = k') then Some v else assoc k l.
Proof.
  induction l as [|[j w] l IH]; simpl.
  - destruct (decide (k = k')) as [->|Hne].
    + by rewrite Str_eqb_refl.
    + by rewrite (proj2 (Str_eqb_neq _ _) Hne).
  - destruct (Str.eqb k' j) eqn:Hj; simpl.
    + apply Str_eqb_eq in Hj as ->.
      destruct (decide (k = j)) as [->|Hne].
      * by rewrite Str_eqb_refl.
      * by rewrite (proj2 (Str_eqb_neq _ _) Hne).
    + apply Str_eqb_neq in Hj. rewrite IH.
      destruct (Str.eqb k j) eqn:Hkj; [|done].
      apply Str_eqb_eq in Hkj as ->. by rewrite decide_False.
Qed.

Lemma set_entry_same {A} k (v : A) l : assoc k l = Some v → set_entry k v l = l.
Proof.
  induction l as [|[j w] l IH]; simpl; [done|].
  destruct (Str.eqb k j) eqn:Hj.
  - apply Str_eqb_eq in Hj as ->. by intros [= ->].
  - intros H. by rewrite IH.
Qed.

Lemma assoc_app_Some {A} k (v : A) l l' :
  assoc k l = Some v → assoc k (l ++ l') = Some v.
Proof.
  induction l as [|[j w] l IH]; simpl; [done|].
  by destruct (Str.eqb k j).
Qed.

Lemma assoc_app_None {A} k (l l' : list (string * A)) :
  assoc k l = None → assoc k (l ++ l') = assoc k l'.
Proof.
  induction l as [|[j w] l IH]; simpl; [done|].
  by destruct (Str.eqb k j).
Qed.

Lemma mkdirp_fresh now abs segs :
  mkdirp now abs segs (fresh_dirs now segs) = OK (fresh_dirs now segs).
Proof.
  induction segs as [|s rest IH]; simpl; [done|].
  by rewrite Str_eqb_refl, IH.
Qed.

(** Making a directory that has just been made changes nothing. *)
Lemma mkdirp_idem now abs segs n n' :
  mkdirp now abs segs n = OK n' → mkdirp now abs segs n' = OK n'.
Proof.
  revert n n'. induction segs as [|s rest IH]; intros n n'.
  - destruct n; simpl; [done|]. by intros [= <-].
  - destruct n as [|a m es]; simpl; [done|].
    destruct (assoc s es) as [c|] eqn:Hs.
    + destruct (mkdirp now abs rest c) as [c'|e] eqn:Hc; simpl; [|done].
      intros [= <-]. simpl. rewrite assoc_set_entry, decide_True by done.
      rewrite (IH _ _ Hc). simpl. f_equal. f_equal.
      apply set_entry_same. by rewrite assoc_set_entry, decide_True.
    + intros [= <-]. simpl. rewrite (assoc_app_None _ _ _ Hs). simpl.
      rewrite Str_eqb_refl, mkdirp_fresh. simpl. f_equal. f_equal.
      apply set_entry_same. rewrite (assoc_app_None _ _ _ Hs). simpl.
      by rewrite Str_eqb_refl.
Qed.

(** Making directories keeps every regular file where and as it is. *)
Lemma mkdirp_keeps_files now abs segs n n' :
  mkdirp now abs segs n = OK n' →
  ∀ sc lbl p sz a mt c,
    walk sc lbl p n = OK (IFile sz a mt c) →
    walk sc lbl p n' = OK (IFile sz a mt c).
Proof.
  revert n n'. induction segs as [|s rest IH]; intros n n'.
  - destruct n; simpl; [done|]. by intros [= <-].
  - destruct n as [|a m es]; simpl; [done|].
    destruct (assoc s es) as [c|] eqn:Hs.
    + destruct (mkdirp now abs rest c) as [c'|e] eqn:Hc; simpl; [|done].
      intros [= <-] sc lbl p sz a' mt c0. destruct p as [|t p]; simpl; [done|].
      rewrite assoc_set_entry. destruct (decide (t = s)) as [->|Hne]; [|done].
      rewrite Hs. by apply IH.
    + intros [= <-] sc lbl p sz a' mt c0. destruct p as [|t p]; simpl; [done|].
      destruct (assoc t es) as [c1|] eqn:Ht; [|done].
      by rewrite (assoc_app_Some _ _ _ _ Ht).
Qed.

Lemma ensureDir_idem now d fs fs' :
  ensureDir now d fs = (fs', OK ()) → ensureDir now d fs' = (fs', OK ()).
Proof.
  unfold ensureDir. destruct (mkdirp now d _ fs) as [n|e] eqn:Hm; [|done].
  intros [= <-]. by rewrite (mkdirp_idem _ _ _ _ _ Hm).
Qed.



Lemma rename_error_disk src dest fs fs' e :
  rename src dest fs = (fs', Err e) → fs' = fs.
Proof.
  unfold rename. destruct (fs_stat _ src fs); [|by intros [= <-]].
  destruct (link _ _ _ _); [done|]. by intros [= <-].
Qed.

Section ApplyProps.
Variables (cwd root : string).

Local Abbreviation sanitizePath_ := (sanitizePath cwd root).
Local Abbreviation applyMove_ := (applyMove cwd root).
Local Abbreviation applyPlan_loop_ := (applyPlan_loop cwd root).
Local Abbreviation applyPlan_ := (applyPlan cwd root).


Lemma move_error_disk now src dest fs0 fs fs' e :
  ensureDir now (Path.dirname dest) fs0 = (fs, OK ()) →
  move now src dest fs = (fs', Err e) → fs' = fs.
Proof.
  intros Hdir. unfold move. destruct (checkPaths src dest fs); [|by intros [= <-]].
  destruct (Str.eqb (Path.dirname dest) "/").
  - destruct (pathExists dest fs); [by intros [= <-]|]. apply rename_error_disk.
  - rewrite (ensureDir_idem _ _ _ _ Hdir).
    destruct (pathExists dest fs); [by intros [= <-]|]. apply rename_error_disk.
Qed.



Lemma applyPlan_loop_count now ms k fs fs' k' :
  applyPlan_loop_ now ms k fs = (fs', k', None) → k' = (k + length ms)%nat.
Proof.
  revert k fs. induction ms as [|m ms IH]; intros k fs; simpl.
  - intros [= _ <-]. lia.
  - destruct (applyMove_ now m fs) as [fs1 [[]|e]]; [|done].
    intros H%IH. lia.
Qed.

Lemma applyPlan_ok_loop now ms dels fs fs' n :
  applyPlan_ now {| moves := ms; deletions := dels |} fs = (fs', OK n) →
  applyPlan_loop_ now ms 0 fs = (fs', length ms, None).
Proof.
  unfold applyPlan. simpl.
  destruct (applyPlan_loop_ now ms 0 fs) as [[fs1 k] [e|]] eqn:Hl; [done|].
  intros [= <- <-]. by rewrite (applyPlan_loop_count _ _ _ _ _ _ Hl).
Qed.
End ApplyProps.

(** ** The organizer agent *)

Lemma plan_of_emptyAgentPlan : plan_of_agent emptyAgentPlan = Some emptyPlan.
Proof. reflexivity. Qed.

Lemma organizer_tier_without_moves w files instructions llmBase status body data :
  Agent.env_set (LLM_BASE_URL w) = Some llmBase →
  fetch w (llmBase +:+ "/v1/organize") instructions
        (map (summarize (Date_now w)) (take 500 files))
    = FetchResponse true status body →
  JSON_parse w body = Some data →
  Json.get data "moves" = OK None →
  Agent.organizer_tier w files instructions = Some emptyAgentPlan.
Proof.
  intros Hbase Hfetch Hparse Hget. unfold Agent.organizer_tier.
  by rewrite Hbase, Hfetch, Hparse, Hget.
Qed.

(** C10 (as amended). When the organizer answers with [res.ok] and a
    JSON value other than [null] that has no [moves] property,
    [tryLlmOrganize] returns the plan [{ moves: [], deletions: [] }],
    and [createPlanFromInstructions] returns that plan: neither the
    model tier nor the heuristic tier is tried. *)
Theorem organizer_without_moves_yields_empty_plan
    cwd root w instructions fs tree llmBase status body data :
  buildTree cwd root root fs = OK tree →
  Agent.env_set (LLM_BASE_URL w) = Some llmBase →
  fetch w (llmBase +:+ "/v1/organize") instructions
        (map (summarize (Date_now w)) (take 500 (flattenFiles tree)))
    = FetchResponse true status body →
  JSON_parse w body = Some data →
  data ≠ JNull →
  (∀ fields, data = JObj fields → assoc "moves" fields = None) →
  Agent.tryLlmOrganize w (flattenFiles tree) instructions = Some emptyAgentPlan
  ∧ createPlanFromInstructions cwd root w instructions fs
      = OK (FromAgent emptyAgentPlan)
  ∧ plan_of_agent emptyAgentPlan = Some {| moves := []; deletions := [] |}.
Proof.
  intros Htree Hbase Hfetch Hparse Hnull Hmoves.
  assert (Json.get data "moves" = OK None) as Hget.
  { destruct data as [| | | | |fields]; try done. simpl. by rewrite (Hmoves fields). }
  assert (Agent.tryLlmOrganize w (flattenFiles tree) instructions
          = Some emptyAgentPlan) as Htry.
  { unfold Agent.tryLlmOrganize.
    by rewrite (organizer_tier_without_moves _ _ _ _ _ _ _ Hbase Hfetch Hparse Hget). }
  split; [done|]. split; [|done].
  unfold createPlanFromInstructions. rewrite Htree. simpl. by rewrite Htry.
Qed.

(** The JSON literal [null] is the one value without a [moves] property
    that is not an empty answer: reading the property throws, the
    [catch] is reached and the next tier is tried. *)
Lemma organizer_tier_null_body w files instructions llmBase status body :
  Agent.env_set (LLM_BASE_URL w) = Some llmBase →
  fetch w (llmBase +:+ "/v1/organize") instructions
        (map (summarize (Date_now w)) (take 500 files))
    = FetchResponse true status body →
  JSON_parse w body = Some JNull →
  Agent.organizer_tier w files instructions = None.
Proof.
  intros Hbase Hfetch Hparse. unfold Agent.organizer_tier.
  by rewrite Hbase, Hfetch, Hparse.
Qed.

(** ** Extracting JSON from the model's answer *)

Lemma extractJson_firstSuccess parse text :
  Agent.extractJson parse text
  = default JNull
      (firstSuccess [parseRegion parse wholeResponse; parseRegion parse fencedBlock;
                     parseRegion parse widestBraces] text).
Proof.
  unfold Agent.extractJson, Agent.try_whole, Agent.try_codeBlock,
    Agent.try_curly, parseRegion, wholeResponse, fencedBlock, widestBraces.
  simpl.
  destruct (parse text); [done|].
  destruct (Agent.match_codeBlock text) as [c|]; simpl.
  - destruct (Str.truthy c); simpl.
    + destruct (parse c); [done|].
      destruct (Str.indexOf text "{"), (Str.lastIndexOfChar text "}"); try done.
      destruct (_ <? _)%nat; [|done]. by destruct (parse _).
    + destruct (Str.indexOf text "{"), (Str.lastIndexOfChar text "}"); try done.
      destruct (_ <? _)%nat; [|done]. by destruct (parse _).
  - destruct (Str.indexOf text "{"), (Str.lastIndexOfChar text "}"); try done.
    destruct (_ <? _)%nat; [|done]. by destruct (parse _).
Qed.

(* ================================================================== *)
(** * The properties on the sample deployments *)
(* ================================================================== *)

Section Samples.
Import Sample.

Example sample_root : root = "/app/data/demo_fs".
Proof. reflexivity. Qed.

Example sample_snapshots :
  filesOf twinsDisk = [oneTxt; otherMd; twoTxt]
  ∧ filesOf notesDisk = [notesBak]
  ∧ filesOf reportDisk = [reportPdf].
Proof. split_and!; vm_compute; reflexivity. Qed.

(** A path that climbs out of the root is refused. *)
Example sanitizePath_refuses_etc :
  sanitizePath cwd root "/../../etc" = Err PathEscapes
  ∧ sanitizePath cwd root "/demo/../demo/a.txt" = OK "/app/data/demo_fs/demo/a.txt".
Proof. split; reflexivity. Qed.

(** C2, counterexample. [b.bak] is a junk artifact and has the content
    of [a.txt] before it; [big.log] is a junk artifact, larger than
    50 MiB and last read 999 days ago.  Each is suggested once, as a
    junk artifact. *)
Lemma junk_rule_skips_the_other_rules :
  let files := filesOf junkDisk in
  map path files = ["/demo/a.txt"; "/demo/b.bak"; "/demo/big.log"]
  ∧ map isJunk files = [false; true; true]
  ∧ map (contentOf cwd root junkDisk) files
    = [Some "hello"; Some "hello"; Some "abc"]
  ∧ map (isStaleLarge (1000 * day)) files = [false; false; true]
  ∧ detectGarbage cwd root sha1_hex (1000 * day) junkDisk
    = OK [ {| ds_file := "/demo/b.bak";
              ds_reason := "Temporary or system artifact (bak), last accessed 0 days ago";
              confidence := high; sizeBytes := Some 5; safeToDelete := true |};
           {| ds_file := "/demo/big.log";
              ds_reason := "Temporary or system artifact (log), last accessed 999 days ago";
              confidence := high; sizeBytes := Some 62914560; safeToDelete := true |} ].
Proof. split_and!; vm_compute; reflexivity. Qed.

(** C4, counterexample. Two empty files have the same content and a
    size under 20 MiB; neither is hashed and no duplicate is
    reported. *)
Lemma empty_twins_are_not_reported :
  let files := filesOf emptiesDisk in
  map path files = ["/demo/e1.txt"; "/demo/e2.txt"]
  ∧ map size files = [Some 0; Some 0]
  ∧ map (contentOf cwd root emptiesDisk) files = [Some ""; Some ""]
  ∧ map isHashed files = [false; false]
  ∧ detectGarbage cwd root sha1_hex (1000 * day) emptiesDisk = OK [].
Proof. split_and!; vm_compute; reflexivity. Qed.

(** C8, counterexample. [notes.bak] was last read at the epoch and now
    is ten days later: the reason says 0 days, not 10. *)
Lemma epoch_atime_is_reported_as_zero_days :
  map atimeMs (filesOf epochDisk) = [Some 0]
  ∧ Str.of_Z ((10 * day - 0) / 86400000) = "10"
  ∧ detectGarbage cwd root sha1_hex (10 * day) epochDisk
    = OK [ {| ds_file := "/demo/notes.bak";
              ds_reason := "Temporary or system artifact (bak), last accessed 0 days ago";
              confidence := high; sizeBytes := Some 5; safeToDelete := true |} ].
Proof. split_and!; vm_compute; reflexivity. Qed.


(** C5, counterexample. [report.pdf] directly in the sandbox root is
    moved to [demo/Documents] below the root, not to [Documents]
    below the root. *)
Lemma root_file_goes_below_demo :
  map path (filesOf rootReportDisk) = ["/report.pdf"]
  ∧ createPlanFromInstructions cwd root offline "tidy" rootReportDisk
    = OK (FromHeuristic
            {| moves := [ {| from := "/report.pdf";
                             to := "/demo/Documents/report.pdf";
                             reason := "Place in Documents based on extension and instructions" |} ];
               deletions := [] |})
  ∧ sanitizePath cwd root "/demo/Documents/report.pdf"
    = OK "/app/data/demo_fs/demo/Documents/report.pdf"
  ∧ Path.join [safeRoot cwd root; "Documents"; "report.pdf"]
    = "/app/data/demo_fs/Documents/report.pdf".
Proof. split_and!; vm_compute; reflexivity. Qed.

(** [report.pdf] in [demo]: the heuristic tier moves it to
    [demo/Documents], and after the move is applied it plans no
    move. *)
Example report_pdf_is_moved_once :
  createPlanFromInstructions cwd root offline "tidy" reportDisk
    = OK (FromHeuristic {| moves := [reportMove]; deletions := [] |})
  ∧ ∃ fs', applyPlan cwd root 5 {| moves := [reportMove]; deletions := [] |} reportDisk
           = (fs', OK 1%nat)
         ∧ createPlanFromInstructions cwd root offline "tidy" fs'
           = OK (FromHeuristic {| moves := []; deletions := [] |}).
Proof.
  split; [vm_compute; reflexivity|].
  eexists. split.
  - vm_compute. reflexivity.
  - vm_compute. reflexivity.
Qed.

(** C6, counterexample. The plan maps [/demo/report.pdf] to the empty
    string, and a clone rewritten through that mapping would show the
    file with the empty path; the preview shows it where it is. *)
Lemma empty_target_is_previewed_in_place :
  planMapping [emptyTargetMove] "/demo/report.pdf" = ""
  ∧ map path (flattenFiles (relabel (planMapping [emptyTargetMove])
                              (treeOf reportDisk))) = [""]
  ∧ (previewPlan cwd root {| moves := [emptyTargetMove]; deletions := [] |}
       reportDisk).2
    = OK (treeOf reportDisk, treeOf reportDisk)
  ∧ map path (flattenFiles (treeOf reportDisk)) = ["/demo/report.pdf"].
Proof. split_and!; vm_compute; reflexivity. Qed.

(** C10, counterexample. The organizer answers [null] with [res.ok]:
    the body parses and has no [moves], yet reading [data.moves]
    throws, the tier falls through, and with no model key the plan is
    the one of the heuristic tier, which has a move. *)
Lemma null_answer_falls_through :
  fetch nullOrganizer "http://organizer:8000/v1/organize" "tidy"
        (map (summarize (Date_now nullOrganizer)) (take 500 (filesOf reportDisk)))
  = FetchResponse true 200 "null"
  ∧ JSON_parse nullOrganizer "null" = Some JNull
  ∧ Agent.tryLlmOrganize nullOrganizer (filesOf reportDisk) "tidy" = None
  ∧ createPlanFromInstructions cwd root nullOrganizer "tidy" reportDisk
    = OK (FromHeuristic {| moves := [reportMove]; deletions := [] |}).
Proof. split_and!; vm_compute; reflexivity. Qed.

(** C9, counterexample. The model answers in prose: no region parses,
    the extraction is [null], and the synthesis returns the empty plan
    of the model tier although the heuristic tier has a move to
    offer. *)
Lemma prose_answer_gives_the_empty_plan :
  parseRegion parseSample wholeResponse "Sorry, I cannot help." = None
  ∧ parseRegion parseSample fencedBlock "Sorry, I cannot help." = None
  ∧ parseRegion parseSample widestBraces "Sorry, I cannot help." = None
  ∧ Agent.extractJson parseSample "Sorry, I cannot help." = JNull
  ∧ Agent.tryLlmOrganize proseModel (filesOf reportDisk) "tidy"
    = Some emptyAgentPlan
  ∧ createPlanFromInstructions cwd root proseModel "tidy" reportDisk
    = OK (FromAgent emptyAgentPlan)
  ∧ heuristicPlan (filesOf reportDisk) "tidy"
    = {| moves := [reportMove]; deletions := [] |}.
Proof. split_and!; vm_compute; reflexivity. Qed.

(** The fence and the braces on an answer with both. *)
Example regions_of_an_answer :
  fencedBlock "Here: ```JSON  {} ``` and {more}" = Some "{} "
  ∧ widestBraces "Here: ```JSON  {} ``` and {more}" = Some "{} ``` and {more}"
  ∧ Agent.extractJson parseSample "Plan: {}" = JObj [].
Proof. split_and!; vm_compute; reflexivity. Qed.
End Samples.

(** ** The theorems at the samples *)

Section Witnesses.
Import Sample.

Lemma sample_root_resolved : resolvedDir root.
Proof.
  exists ["app"; "data"; "demo_fs"]. split; [|reflexivity].
  repeat apply List.Forall_cons; try apply List.Forall_nil;
    unfold cleanSeg, noSlash; (split_and!; [discriminate..|reflexivity]).
Defined.

Lemma heuristic_tier_moves_to_demo_category_witness :
  resolvedDir root
  ∧ isDirectory reportDisk = true
  ∧ wfInode reportDisk = true
  ∧ buildTree cwd root root reportDisk = OK (treeOf reportDisk)
  ∧ heuristicPlan (flattenFiles (treeOf reportDisk)) "tidy"
    = {| moves := [reportMove]; deletions := [] |}
  ∧ createPlanFromInstructions cwd root offline "tidy" reportDisk
    = OK (FromHeuristic {| moves := [reportMove]; deletions := [] |}).
Proof.
  assert (wfInode reportDisk = true) as H1 by (vm_compute; reflexivity).
  assert (buildTree cwd root root reportDisk = OK (treeOf reportDisk)) as H2
    by (vm_compute; reflexivity).
  split; [exact sample_root_resolved|]. split; [reflexivity|].
  split; [exact H1|]. split; [exact H2|].
  destruct (heuristic_tier_moves_to_demo_category cwd root "tidy" reportDisk
              (treeOf reportDisk) sample_root_resolved eq_refl H1 H2)
    as (Hplan & Hsynth & _).
  split; [rewrite Hplan; vm_compute; reflexivity|].
  rewrite (Hsynth offline eq_refl). vm_compute. reflexivity.
Defined.

Lemma junk_artifact_is_suggested_witness :
  resolvedDir root
  ∧ wfInode notesDisk = true
  ∧ buildTree cwd root root notesDisk = OK (treeOf notesDisk)
  ∧ notesBak ∈ flattenFiles (treeOf notesDisk)
  ∧ lowerExt notesBak ∈ ["tmp"; "log"; "cache"; "bak"; "old"]
  ∧ ∃ s, detectGarbage cwd root sha1_hex (1000 * day) notesDisk = OK s
       ∧ {| ds_file := "/demo/notes.bak";
            ds_reason := "Temporary or system artifact (bak), last accessed 10 days ago";
            confidence := high;
            sizeBytes := Some 5;
            safeToDelete := true |} ∈ s.
Proof.
  assert (wfInode notesDisk = true) as H1 by (vm_compute; reflexivity).
  assert (buildTree cwd root root notesDisk = OK (treeOf notesDisk)) as H2
    by (vm_compute; reflexivity).
  assert (notesBak ∈ flattenFiles (treeOf notesDisk)) as H3
    by (vm_compute; apply list_elem_of_here).
  assert (lowerExt notesBak ∈ ["tmp"; "log"; "cache"; "bak"; "old"]) as H4
    by (apply (bool_decide_eq_true_1 _); vm_compute; reflexivity).
  split; [exact sample_root_resolved|].
  split; [exact H1|]. split; [exact H2|]. split; [exact H3|]. split; [exact H4|].
  exact (junk_artifact_is_suggested cwd root sha1_hex sample_root_resolved
           (1000 * day) notesDisk (treeOf notesDisk) notesBak H1 H2 H3 (or_introl H4)).
Defined.

Lemma each_file_is_suggested_at_most_once_witness :
  resolvedDir root
  ∧ wfInode twinsDisk = true
  ∧ buildTree cwd root root twinsDisk = OK (treeOf twinsDisk)
  ∧ ∃ s, detectGarbage cwd root sha1_hex (1000 * day) twinsDisk = OK s
       ∧ map ds_file s ⊆+ map path (flattenFiles (treeOf twinsDisk))
       ∧ NoDup (map ds_file s).
Proof.
  assert (wfInode twinsDisk = true) as H1 by (vm_compute; reflexivity).
  assert (buildTree cwd root root twinsDisk = OK (treeOf twinsDisk)) as H2
    by (vm_compute; reflexivity).
  split; [exact sample_root_resolved|]. split; [exact H1|]. split; [exact H2|].
  destruct (each_file_is_suggested_at_most_once cwd root sha1_hex
              sample_root_resolved (1000 * day) twinsDisk (treeOf twinsDisk) H1 H2)
    as (s & Hs & Hsub & Hnd & _).
  exists s. split; [exact Hs|]. split; [exact Hsub|exact Hnd].
Defined.

Lemma same_content_is_reported_as_duplicate_witness :
  resolvedDir root
  ∧ wfInode twinsDisk = true
  ∧ buildTree cwd root root twinsDisk = OK (treeOf twinsDisk)
  ∧ flattenFiles (treeOf twinsDisk) = [] ++ oneTxt :: [otherMd] ++ twoTxt :: []
  ∧ (isJunk oneTxt = false ∧ size oneTxt = Some 5 ∧ 5 ≠ 0 ∧ 5 < 20 * 1024 * 1024)
  ∧ (isJunk twoTxt = false ∧ size twoTxt = Some 5 ∧ 5 ≠ 0 ∧ 5 < 20 * 1024 * 1024)
  ∧ (contentOf cwd root twinsDisk oneTxt = Some "hello"
     ∧ contentOf cwd root twinsDisk twoTxt = Some "hello")
  ∧ ∃ dups,
      detectGarbage cwd root sha1_hex (1000 * day) twinsDisk
        = OK (flat_map (perFile (1000 * day)) (flattenFiles (treeOf twinsDisk)) ++ dups)
      ∧ {| ds_file := "/demo/two.txt";
           ds_reason := "Duplicate of /demo/one.txt (same content hash)";
           confidence := high;
           sizeBytes := None;
           safeToDelete := true |} ∈ dups.
Proof.
  assert (wfInode twinsDisk = true) as H1 by (vm_compute; reflexivity).
  assert (buildTree cwd root root twinsDisk = OK (treeOf twinsDisk)) as H2
    by (vm_compute; reflexivity).
  assert (flattenFiles (treeOf twinsDisk) = [] ++ oneTxt :: [otherMd] ++ twoTxt :: [])
    as H3 by (vm_compute; reflexivity).
  assert (5 ≠ 0) as Hz by discriminate.
  assert (5 < 20 * 1024 * 1024) as Hlt by reflexivity.
  assert (contentOf cwd root twinsDisk oneTxt = Some "hello") as Hc1
    by (vm_compute; reflexivity).
  assert (contentOf cwd root twinsDisk twoTxt = Some "hello") as Hc2
    by (vm_compute; reflexivity).
  split; [exact sample_root_resolved|]. split; [exact H1|]. split; [exact H2|].
  split; [exact H3|]. split; [by split_and!|]. split; [by split_and!|].
  split; [by split|].
  destruct (same_content_is_reported_as_duplicate cwd root sha1_hex
              sample_root_resolved (1000 * day) twinsDisk (treeOf twinsDisk)
              [] [otherMd] [] oneTxt twoTxt "hello" 5 5
              H1 H2 H3 eq_refl eq_refl Hz Hlt eq_refl eq_refl Hz Hlt Hc1 Hc2)
    as (dups & Hd & Hin & _).
  exists dups. split; [exact Hd|exact Hin].
Defined.

Lemma organizer_without_moves_yields_empty_plan_witness :
  buildTree cwd root root reportDisk = OK (treeOf reportDisk)
  ∧ JSON_parse emptyOrganizer "{}" = Some (JObj [])
  ∧ JObj [] ≠ JNull
  ∧ (∀ fields, JObj [] = JObj fields → assoc "moves" fields = None)
  ∧ Agent.tryLlmOrganize emptyOrganizer (flattenFiles (treeOf reportDisk)) "tidy"
    = Some emptyAgentPlan
  ∧ createPlanFromInstructions cwd root emptyOrganizer "tidy" reportDisk
    = OK (FromAgent emptyAgentPlan).
Proof.
  assert (buildTree cwd root root reportDisk = OK (treeOf reportDisk)) as Htree
    by (vm_compute; reflexivity).
  assert (JObj [] ≠ JNull) as Hnull by discriminate.
  assert (∀ fields, JObj [] = JObj fields → assoc "moves" fields = None) as Hmoves
    by (intros fields [= <-]; reflexivity).
  split; [exact Htree|]. split; [reflexivity|]. split; [exact Hnull|].
  split; [exact Hmoves|].
  destruct (organizer_without_moves_yields_empty_plan cwd root emptyOrganizer "tidy"
              reportDisk (treeOf reportDisk) "http://organizer:8000" 200 "{}" (JObj [])
              Htree eq_refl eq_refl eq_refl Hnull Hmoves) as (Htry & Hplan & _).
  split; [exact Htry|exact Hplan].
Defined.
End Witnesses.

(* ================================================================== *)
(** * Further properties *)
(* ================================================================== *)

(** ** Where the regular files are after the disk has changed *)

Lemma walk_fresh_dirs now sc lbl p segs sz a mt c :
  walk sc lbl p (fresh_dirs now segs) ≠ OK (IFile sz a mt c).
Proof.
  revert segs. induction p as [|t p IH]; intros segs.
  - by destruct segs.
  - destruct segs as [|s rest]; simpl; [done|].
    destruct (Str.eqb t s); [apply IH|done].
Qed.

(** Making directories neither adds nor removes a regular file. *)
Lemma mkdirp_files now abs segs n n' :
  mkdirp now abs segs n = OK n' →
  ∀ sc lbl p sz a mt c,
    walk sc lbl p n' = OK (IFile sz a mt c) ↔
    walk sc lbl p n = OK (IFile sz a mt c).
Proof.
  intros Hm sc lbl p sz a mt c. split; [|by apply (mkdirp_keeps_files _ _ _ _ _ Hm)].
  revert n n' Hm p. induction segs as [|s rest IH]; intros n n'.
  - destruct n; simpl; [done|]. by intros [= <-].
  - destruct n as [|a0 m0 es]; simpl; [done|].
    destruct (assoc s es) as [c0|] eqn:Hs.
    + destruct (mkdirp now abs rest c0) as [c'|e] eqn:Hc; simpl; [|done].
      intros [= <-] p. destruct p as [|t p]; simpl; [done|].
      rewrite assoc_set_entry. destruct (decide (t = s)) as [->|Hne]; [|done].
      rewrite Hs. by apply IH.
    + intros [= <-] p. destruct p as [|t p]; simpl; [done|].
      destruct (assoc t es) as [c1|] eqn:Ht.
      * by rewrite (assoc_app_Some _ _ _ _ Ht).
      * rewrite (assoc_app_None _ _ _ Ht). simpl.
        destruct (Str.eqb t s); [|done].
        intros H. by apply walk_fresh_dirs in H.
Qed.

Lemma ensureDir_files now d fs fs' r :
  ensureDir now d fs = (fs', r) →
  ∀ sc lbl p sz a mt c,
    walk sc lbl p fs' = OK (IFile sz a mt c) ↔
    walk sc lbl p fs = OK (IFile sz a mt c).
Proof.
  unfold ensureDir. destruct (mkdirp now d _ fs) as [n|e] eqn:Hm.
  - intros [= <- _]. by apply (mkdirp_files _ _ _ _ _ Hm).
  - by intros [= <- _].
Qed.

Lemma assoc_del_entry {A} k k' (l : list (string * A)) :
  assoc k (del_entry k' l) = if decide (k = k') then None else assoc k l.
Proof.
  induction l as [|[j w] l IH]; simpl; [by destruct (decide _)|].
  destruct (Str.eqb k' j) eqn:Hj; simpl.
  - apply Str_eqb_eq in Hj as ->. rewrite IH.
    destruct (decide (k = j)) as [->|Hne]; [done|].
    by rewrite (proj2 (Str_eqb_neq _ _) Hne).
  - apply Str_eqb_neq in Hj. rewrite IH.
    destruct (Str.eqb k j) eqn:Hkj; [|done].
    apply Str_eqb_eq in Hkj as ->. by rewrite decide_False.
Qed.

Lemma unlink_step s1 s2 rest a m es :
  unlink (s1 :: s2 :: rest) (IDir a m es)
  = match assoc s1 es with
    | Some c => IDir a m (set_entry s1 (unlink (s2 :: rest) c) es)
    | None => IDir a m es
    end.
Proof. done. Qed.

Lemma link_step abs d1 d2 rest new a m es :
  link abs (d1 :: d2 :: rest) new (IDir a m es)
  = match assoc d1 es with
    | Some c =>
        c' ← link abs (d2 :: rest) new c;
        OK (IDir a m (set_entry d1 c' es))
    | None => Err (ENOENT "rename" abs)
    end.
Proof. done. Qed.

(** After a path is unlinked, the regular files are those that were
    not at or below it. *)
Lemma unlink_files s n :
  s ≠ [] →
  ∀ sc lbl p sz a mt c,
    walk sc lbl p (unlink s n) = OK (IFile sz a mt c) ↔
    walk sc lbl p n = OK (IFile sz a mt c) ∧ ¬ s `prefix_of` p.
Proof.
  revert n. induction s as [|s1 srest IH]; intros n Hne sc lbl p sz a mt c; [done|].
  destruct n as [fsz fa fm fc|a0 m0 es].
  { assert (unlink (s1 :: srest) (IFile fsz fa fm fc) = IFile fsz fa fm fc) as ->
      by by destruct srest.
    destruct p as [|t p]; simpl.
    - split; [|by intros [? _]]. intros H. split; [done|].
      intros Hpre. by apply prefix_nil_inv in Hpre.
    - split; [done|by intros [? _]]. }
  destruct p as [|t p].
  { split; [|by intros [? _]].
    destruct srest as [|s2 srest]; simpl; [done|]. by destruct (assoc s1 es). }
  destruct srest as [|s2 srest].
  - simpl. rewrite assoc_del_entry. destruct (decide (t = s1)) as [->|Hts].
    + split; [done|]. intros [_ []]. by apply prefix_cons, prefix_nil.
    + split; [|by intros [? _]]. intros H. split; [done|].
      intros [k Hk]. simpl in Hk. by simplify_eq.
  - rewrite unlink_step. destruct (assoc s1 es) as [c0|] eqn:Hs.
    + cbn [walk]. rewrite assoc_set_entry. destruct (decide (t = s1)) as [->|Hts].
      * rewrite Hs, IH by done. split.
        -- intros [H Hp]. split; [done|]. intros Hpre. apply Hp.
           by apply prefix_cons_inv_2 in Hpre.
        -- intros [H Hp]. split; [done|]. intros Hpre. apply Hp.
           by apply prefix_cons.
      * split; [|by intros [? _]]. intros H. split; [done|].
        intros [k Hk]. simpl in Hk. by simplify_eq.
    + split; [|by intros [? _]]. intros H. split; [done|].
      intros [k Hk]. simpl in Hk. simplify_eq. simpl in H. by rewrite Hs in H.
Qed.

(** After an inode is linked at a path, the regular files are those
    of the inode, below the path, and those that were elsewhere. *)
Lemma link_files abs d new n n' :
  link abs d new n = OK n' →
  ∀ sc lbl p sz a mt c,
    walk sc lbl p n' = OK (IFile sz a mt c) ↔
    (∃ q, p = d ++ q ∧ walk sc lbl q new = OK (IFile sz a mt c))
    ∨ (¬ d `prefix_of` p ∧ walk sc lbl p n = OK (IFile sz a mt c)).
Proof.
  revert n n'. induction d as [|d1 drest IH]; intros n n'; [by destruct n|].
  destruct n as [|a0 m0 es]; [by destruct drest|].
  destruct drest as [|d2 drest].
  - simpl. intros [= <-] sc lbl p sz a mt c.
    destruct p as [|t p].
    { simpl. split; [done|]. intros [(q & ? & _)|[_ ?]]; done. }
    simpl. rewrite assoc_set_entry. destruct (decide (t = d1)) as [->|Hne].
    + split.
      * intros H. left. by exists p.
      * intros [(q & [= ->] & H)|[Hp _]]; [done|].
        destruct Hp. by apply prefix_cons, prefix_nil.
    + split.
      * intros H. right. split; [|done]. intros [k Hk]. simpl in Hk. by simplify_eq.
      * intros [(q & [= ? ?] & _)|[_ H]]; done.
  - rewrite link_step. destruct (assoc d1 es) as [c0|] eqn:Hs; [|done].
    destruct (link abs (d2 :: drest) new c0) as [c'|e] eqn:Hc; simpl; [|done].
    intros [= <-] sc lbl p sz a mt c.
    destruct p as [|t p].
    { simpl. split; [done|]. intros [(q & ? & _)|[_ ?]]; done. }
    simpl. rewrite assoc_set_entry. destruct (decide (t = d1)) as [->|Hne].
    + rewrite Hs, (IH _ _ Hc). split.
      * intros [(q & -> & H)|[Hp H]].
        -- left. by exists q.
        -- right. split; [|done]. intros Hpre. apply Hp.
           by apply prefix_cons_inv_2 in Hpre.
      * intros [(q & [= ->] & H)|[Hp H]].
        -- left. by exists q.
        -- right. split; [|done]. intros Hpre. apply Hp. by apply prefix_cons.
    + split.
      * intros H. right. split; [|done]. intros [k Hk]. simpl in Hk. by simplify_eq.
      * intros [(q & [= ? ?] & _)|[_ H]]; done.
Qed.


Lemma walk_prefix_found sc lbl d q n x :
  walk sc lbl (d ++ q) n = OK x → ∃ y, walk sc lbl d n = OK y.
Proof.
  rewrite walk_app. destruct (walk sc lbl d n) as [y|e]; [by exists y|done].
Qed.

Lemma pathExists_found sc lbl abs fs x :
  walk sc lbl (Path.segments abs) fs = OK x → pathExists abs fs = true.
Proof.
  intros H. unfold pathExists, fs_stat.
  by rewrite (walk_found _ _ "access" abs _ _ _ H).
Qed.

(** [checkPaths] lets no move of the root through. *)
Lemma checkPaths_source src dest fs :
  checkPaths src dest fs = OK () →
  Path.segments src ≠ []
  ∧ ∃ n, fs_stat "lstat" src fs = OK n
         ∧ (isDirectory n = true →
            ¬ Path.segments src `prefix_of` Path.segments dest).
Proof.
  unfold checkPaths, fs_stat.
  destruct (walk "lstat" src (Path.segments src) fs) as [n|e] eqn:Hsrc; simpl; [|done].
  intros H. split.
  - intros Hnil. rewrite Hnil in Hsrc. simpl in Hsrc. injection Hsrc as ->.
    destruct (walk "stat" dest (Path.segments dest) n) as [d|e] eqn:Hd; simpl in H.
    + rewrite Hnil in H.
      destruct (Path.segments dest) as [|d1 drest] eqn:Hsegs.
      * by rewrite bool_decide_eq_true_2 in H.
      * destruct n; [done|].
        rewrite bool_decide_eq_false_2 in H by done.
        simpl in Hd. simpl in H.
        destruct (isDirectory d); simpl in H; [|done].
        unfold isSrcSubdir in H. rewrite Hnil in H.
        rewrite bool_decide_eq_true_2 in H by apply prefix_nil. done.
    + destruct e; simpl in H; try done.
      destruct n; simpl in H.
      * destruct (Path.segments dest); simpl in Hd; done.
      * unfold isSrcSubdir in H. rewrite Hnil in H.
        rewrite bool_decide_eq_true_2 in H by apply prefix_nil. done.
  - exists n. split; [done|]. intros Hdir Hpre.
    rewrite Hdir in H. unfold isSrcSubdir in H.
    rewrite (bool_decide_eq_true_2 _ Hpre) in H.
    destruct (walk "stat" dest (Path.segments dest) fs) as [d|e]; simpl in H.
    + destruct (bool_decide _); [done|]. simpl in H.
      destruct (negb (isDirectory d)); done.
    + destruct e; done.
Qed.

(** After a rename the regular files of the source are below the
    target and the others are where they were. *)
Lemma rename_files src dest fs fs' :
  Path.segments src ≠ [] →
  rename src dest fs = (fs', OK ()) →
  ∀ sc lbl p sz a mt c,
    walk sc lbl p fs' = OK (IFile sz a mt c) ↔
    (∃ q, p = Path.segments dest ++ q
          ∧ walk sc lbl (Path.segments src ++ q) fs = OK (IFile sz a mt c))
    ∨ (¬ Path.segments dest `prefix_of` p ∧ ¬ Path.segments src `prefix_of` p
       ∧ walk sc lbl p fs = OK (IFile sz a mt c)).
Proof.
  intros Hne. unfold rename, fs_stat.
  destruct (walk "rename" src (Path.segments src) fs) as [n|e] eqn:Hsrc; [|done].
  destruct (link dest _ n _) as [fs1|e] eqn:Hlink; [|done].
  intros [= <-] sc lbl p sz a mt c.
  rewrite (link_files _ _ _ _ _ Hlink).
  apply (walk_found _ _ sc lbl) in Hsrc.
  split.
  - intros [(q & -> & H)|[Hd H]].
    + left. exists q. split; [done|]. by rewrite walk_app, Hsrc.
    + right. apply unlink_files in H as [H Hs]; done.
  - intros [(q & -> & H)|(Hd & Hs & H)].
    + left. exists q. split; [done|]. by rewrite walk_app, Hsrc in H.
    + right. split; [done|]. by apply unlink_files.
Qed.

(** A move that succeeds takes what is at the source to the target
    and leaves every other regular file where and as it is. *)
Lemma move_files now src dest fs fs' :
  move now src dest fs = (fs', OK ()) →
  ∀ sc lbl p sz a mt c,
    walk sc lbl p fs' = OK (IFile sz a mt c) ↔
    (∃ q, p = Path.segments dest ++ q
          ∧ walk sc lbl (Path.segments src ++ q) fs = OK (IFile sz a mt c))
    ∨ (¬ Path.segments src `prefix_of` p
       ∧ walk sc lbl p fs = OK (IFile sz a mt c)).
Proof.
  unfold move. destruct (checkPaths src dest fs) as [[]|e] eqn:Hchk; [|done].
  apply checkPaths_source in Hchk as [Hne _].
  destruct (if Str.eqb (Path.dirname dest) "/" then (fs, OK ())
            else ensureDir now (Path.dirname dest) fs) as [fs1 made] eqn:Hmade.
  assert (∀ sc lbl p sz a mt c,
            walk sc lbl p fs1 = OK (IFile sz a mt c) ↔
            walk sc lbl p fs = OK (IFile sz a mt c)) as Hsame.
  { destruct (Str.eqb (Path.dirname dest) "/").
    - by injection Hmade as <- _.
    - by apply (ensureDir_files _ _ _ _ _ Hmade). }
  destruct made as [[]|e]; [|done].
  destruct (pathExists dest fs1) eqn:Hex; [done|].
  intros Hren sc lbl p sz a mt c.
  rewrite (rename_files _ _ _ _ Hne Hren). split.
  - intros [(q & -> & H)|(Hd & Hs & H)].
    + left. exists q. split; [done|]. by apply Hsame.
    + right. split; [done|]. by apply Hsame.
  - intros [(q & -> & H)|(Hs & H)].
    + left. exists q. split; [done|]. by apply Hsame.
    + right. split_and!; [|done|by apply Hsame].
      intros [k ->]. apply Hsame in H. apply walk_prefix_found in H as [y Hy].
      by rewrite (pathExists_found _ _ _ _ _ Hy) in Hex.
Qed.

(** A move that succeeds found nothing at its target. *)
Lemma move_dest_free now src dest fs fs' :
  move now src dest fs = (fs', OK ()) →
  ∀ sc lbl q sz a mt c,
    walk sc lbl (Path.segments dest ++ q) fs ≠ OK (IFile sz a mt c).
Proof.
  unfold move. destruct (checkPaths src dest fs) as [[]|e] eqn:Hchk; [|done].
  destruct (if Str.eqb (Path.dirname dest) "/" then (fs, OK ())
            else ensureDir now (Path.dirname dest) fs) as [fs1 made] eqn:Hmade.
  assert (∀ sc lbl p sz a mt c,
            walk sc lbl p fs1 = OK (IFile sz a mt c) ↔
            walk sc lbl p fs = OK (IFile sz a mt c)) as Hsame.
  { destruct (Str.eqb (Path.dirname dest) "/").
    - by injection Hmade as <- _.
    - by apply (ensureDir_files _ _ _ _ _ Hmade). }
  destruct made as [[]|e]; [|done].
  destruct (pathExists dest fs1) eqn:Hex; [done|].
  intros _ sc lbl q sz a mt c H. apply Hsame in H.
  apply walk_prefix_found in H as [y Hy].
  by rewrite (pathExists_found _ _ _ _ _ Hy) in Hex.
Qed.


(** ** Well-formed disks stay well-formed *)

Lemma segments_clean p : Forall cleanSeg (Path.segments p).
Proof. apply normalize_segs_clean; [constructor|apply split_slash_noSlash]. Qed.

Lemma wfInode_dir a m es :
  wfInode (IDir a m es) = true ↔
  Forall (λ e, plainName e.1 = true ∧ wfInode e.2 = true) es ∧ NoDup es.*1.
Proof.
  simpl. rewrite andb_true_iff, bool_decide_eq_true, forallb_forall, Forall_forall.
  split; intros [H ?]; (split; [|done]); intros e He.
  - apply andb_true_iff, H. by apply list_elem_of_In.
  - apply andb_true_iff, H. by apply list_elem_of_In.
Qed.

Lemma assoc_None_keys {A} k (l : list (string * A)) : assoc k l = None ↔ k ∉ l.*1.
Proof.
  induction l as [|[j w] l IH]; simpl.
  - split; [intros _; apply not_elem_of_nil|done].
  - destruct (Str.eqb k j) eqn:Hj.
    + apply Str_eqb_eq in Hj as ->. split; [done|]. intros []. by left.
    + apply Str_eqb_neq in Hj. rewrite IH, not_elem_of_cons.
      split; [by intros H|by intros [_ H]].
Qed.

Lemma set_entry_present {A} k (v w : A) l :
  assoc k l = Some w →
  (set_entry k v l).*1 = l.*1
  ∧ ∀ e, e ∈ set_entry k v l → e = (k, v) ∨ e ∈ l.
Proof.
  induction l as [|[j u] l IH]; simpl; [done|].
  destruct (Str.eqb k j) eqn:Hj.
  - apply Str_eqb_eq in Hj as ->. intros _. split; [done|].
    intros e [->|He]%elem_of_cons; [by left|right; by right].
  - intros Hs. destruct (IH Hs) as [Hk He]. split; [by rewrite !fmap_cons, Hk|].
    intros e [->|Hin]%elem_of_cons; [right; by left|].
    destruct (He _ Hin) as [->|?]; [by left|right; by right].
Qed.

Lemma set_entry_absent {A} k (v : A) l :
  assoc k l = None → set_entry k v l = l ++ [(k, v)].
Proof.
  induction l as [|[j u] l IH]; simpl; [done|].
  destruct (Str.eqb k j); [done|]. intros H. by rewrite IH.
Qed.

Lemma wfInode_set_entry a m es k v :
  wfInode (IDir a m es) = true → plainName k = true → wfInode v = true →
  wfInode (IDir a m (set_entry k v es)) = true.
Proof.
  rewrite !wfInode_dir. intros [Hall Hnd] Hk Hv.
  destruct (assoc k es) as [w|] eqn:Hs.
  - destruct (set_entry_present k v w es Hs) as [Hkeys Hel].
    rewrite Hkeys. split; [|done]. apply Forall_forall. intros e He.
    destruct (Hel _ He) as [->|Hin]; [done|].
    by apply (proj1 (Forall_forall _ _) Hall).
  - rewrite (set_entry_absent _ _ _ Hs). split.
    + apply Forall_app. split; [done|]. by constructor.
    + rewrite fmap_app. apply NoDup_app. split_and!; [done| |apply NoDup_singleton].
      intros x Hx [->|[]%elem_of_nil]%elem_of_cons.
      by apply assoc_None_keys in Hs.
Qed.

Lemma del_entry_sub {A} k (l : list (string * A)) :
  (del_entry k l).*1 `sublist_of` l.*1 ∧ ∀ e, e ∈ del_entry k l → e ∈ l.
Proof.
  induction l as [|[j u] l [IH1 IH2]]; simpl; [done|].
  destruct (Str.eqb k j).
  - split; [by apply sublist_cons|]. intros e He. right. by apply IH2.
  - split; [by apply sublist_skip|].
    intros e [->|He]%elem_of_cons; [by left|right; by apply IH2].
Qed.

Lemma wfInode_del_entry a m es k :
  wfInode (IDir a m es) = true → wfInode (IDir a m (del_entry k es)) = true.
Proof.
  rewrite !wfInode_dir. intros [Hall Hnd].
  destruct (del_entry_sub k es) as [Hsub Hel]. split.
  - apply Forall_forall. intros e He.
    by apply (proj1 (Forall_forall _ _) Hall), Hel.
  - by eapply sublist_NoDup.
Qed.

Lemma wfInode_fresh_dirs now segs :
  Forall cleanSeg segs → wfInode (fresh_dirs now segs) = true.
Proof.
  induction 1 as [|s rest Hs _ IH]; [done|].
  apply wfInode_dir. split; [|apply NoDup_singleton].
  constructor; [|done]. split; [by apply plainName_of_cleanSeg|done].
Qed.

Lemma wfInode_child a m es k c :
  wfInode (IDir a m es) = true → assoc k es = Some c → wfInode c = true.
Proof.
  intros Hwf Hs. apply assoc_elem in Hs.
  by destruct (wfInode_entry _ _ _ _ _ Hwf Hs) as (_ & ? & _).
Qed.

Lemma mkdirp_wf now abs segs n n' :
  Forall cleanSeg segs → wfInode n = true →
  mkdirp now abs segs n = OK n' → wfInode n' = true.
Proof.
  intros Hsegs. revert n n'. induction Hsegs as [|s rest Hs Hrest IH]; intros n n' Hwf.
  - destruct n; simpl; [done|]. by intros [= <-].
  - destruct n as [|a m es]; simpl; [done|].
    destruct (assoc s es) as [c|] eqn:Hc.
    + destruct (mkdirp now abs rest c) as [c'|e] eqn:Hm; simpl; [|done].
      intros [= <-]. apply wfInode_set_entry; [done|by apply plainName_of_cleanSeg|].
      apply (IH c); [|done]. exact (wfInode_child _ _ _ _ _ Hwf Hc).
    + intros [= <-]. rewrite <- (set_entry_absent _ _ _ Hc).
      apply wfInode_set_entry; [done|by apply plainName_of_cleanSeg|].
      by apply wfInode_fresh_dirs.
Qed.

Lemma ensureDir_wf now d fs fs' r :
  wfInode fs = true → ensureDir now d fs = (fs', r) → wfInode fs' = true.
Proof.
  intros Hwf. unfold ensureDir.
  destruct (mkdirp now d _ fs) as [n|e] eqn:Hm; intros [= <- _]; [|done].
  eapply mkdirp_wf; [apply segments_clean|done..].
Qed.

Lemma unlink_wf s n : wfInode n = true → wfInode (unlink s n) = true.
Proof.
  revert n. induction s as [|s1 srest IH]; intros n Hwf; [by destruct n|].
  destruct n as [|a m es]; [by destruct srest|].
  destruct srest as [|s2 srest].
  - change (wfInode (IDir a m (del_entry s1 es)) = true).
    by apply wfInode_del_entry.
  - rewrite unlink_step. destruct (assoc s1 es) as [c|] eqn:Hc; [|done].
    pose proof (assoc_elem _ _ _ Hc) as Hin.
    destruct (wfInode_entry _ _ _ _ _ Hwf Hin) as (Hclean & Hwc & _).
    apply wfInode_set_entry; [done|by apply plainName_of_cleanSeg|by apply IH].
Qed.

Lemma link_wf abs d new n n' :
  Forall cleanSeg d → wfInode new = true → wfInode n = true →
  link abs d new n = OK n' → wfInode n' = true.
Proof.
  intros Hd Hnew. revert n n'. induction Hd as [|d1 drest Hd1 Hrest IH]; intros n n' Hwf.
  - by destruct n.
  - destruct n as [|a m es]; [by destruct drest|].
    destruct drest as [|d2 drest].
    + simpl. intros [= <-].
      apply wfInode_set_entry; [done|by apply plainName_of_cleanSeg|done].
    + rewrite link_step. destruct (assoc d1 es) as [c|] eqn:Hc; [|done].
      destruct (link abs (d2 :: drest) new c) as [c'|e] eqn:Hl; simpl; [|done].
      intros [= <-].
      apply wfInode_set_entry; [done|by apply plainName_of_cleanSeg|].
      apply (IH c); [|done]. exact (wfInode_child _ _ _ _ _ Hwf Hc).
Qed.

Lemma rename_wf src dest fs fs' r :
  wfInode fs = true → rename src dest fs = (fs', r) → wfInode fs' = true.
Proof.
  intros Hwf. unfold rename, fs_stat.
  destruct (walk "rename" src _ fs) as [n|e] eqn:Hsrc; [|by intros [= <- _]].
  destruct (link dest _ n _) as [fs1|e] eqn:Hl; intros [= <- _]; [|done].
  eapply link_wf; [apply segments_clean| |by apply unlink_wf|done].
  by eapply walk_wf.
Qed.

Lemma move_wf now src dest (fs : FS) fs' r :
  wfInode fs = true → move now src dest fs = (fs', r) → wfInode fs' = true.
Proof.
  intros Hwf. unfold move.
  destruct (checkPaths src dest fs) as [[]|e0]; [|by intros [= <- _]].
  destruct (if Str.eqb (Path.dirname dest) "/" then (fs, OK ())
            else ensureDir now (Path.dirname dest) fs) as [fs1 made] eqn:Hmade.
  assert (wfInode fs1 = true) as Hwf1.
  { destruct (Str.eqb (Path.dirname dest) "/").
    - by injection Hmade as <- _.
    - by eapply ensureDir_wf. }
  destruct made as [[]|e]; [|by intros [= <- _]].
  destruct (pathExists dest fs1); [by intros [= <- _]|].
  by apply rename_wf.
Qed.

Lemma applyMove_wf cwd root now m fs fs' r :
  wfInode fs = true → applyMove cwd root now m fs = (fs', r) → wfInode fs' = true.
Proof.
  intros Hwf. unfold applyMove.
  destruct (sanitizePath cwd root (from m)) as [fromAbs|e1]; [|by intros [= <- _]].
  destruct (sanitizePath cwd root (to m)) as [toAbs|e2]; [|by intros [= <- _]].
  destruct (ensureDir now (Path.dirname toAbs) fs) as [fs1 [[]|e3]] eqn:Hdir.
  - apply move_wf. by eapply ensureDir_wf.
  - intros [= <- _]. by eapply ensureDir_wf.
Qed.

Lemma applyPlan_loop_wf cwd root now ms k fs fs' k' r :
  wfInode fs = true →
  applyPlan_loop cwd root now ms k fs = (fs', k', r) → wfInode fs' = true.
Proof.
  revert k fs. induction ms as [|m ms IH]; intros k fs Hwf; simpl.
  - by intros [= <- _ _].
  - destruct (applyMove cwd root now m fs) as [fs1 [[]|e]] eqn:Hm.
    + apply IH. by eapply applyMove_wf.
    + intros [= <- _ _]. by eapply applyMove_wf.
Qed.


(** ** The regular files of a disk *)

Lemma regularFiles_dir a m es p x :
  (p, x) ∈ regularFiles (IDir a m es) ↔
  ∃ k c q, (k, c) ∈ es ∧ (q, x) ∈ regularFiles c ∧ p = k :: q.
Proof.
  simpl. rewrite list_elem_of_In, in_flat_map. split.
  - intros ([k c] & Hin & Hx). apply list_elem_of_In in Hin, Hx.
    apply list_elem_of_fmap in Hx as ([q y] & [= -> ->] & Hq).
    by exists k, c, q.
  - intros (k & c & q & Hin & Hq & ->). exists (k, c).
    split; [by apply list_elem_of_In|]. apply list_elem_of_In.
    apply list_elem_of_fmap. by exists (q, x).
Qed.

(** On a well-formed disk [regularFiles] lists what [walk] finds. *)
Lemma regularFiles_spec n :
  wfInode n = true →
  ∀ sc lbl p x,
    (p, x) ∈ regularFiles n ↔
    isDirectory x = false ∧ walk sc lbl p n = OK x.
Proof.
  induction n as [sz a m c|a m es IH] using Inode_nested_ind; intros Hwf sc lbl p x.
  - simpl. rewrite list_elem_of_singleton. split.
    + by intros [= -> ->].
    + intros [Hx Hw]. destruct p; [|done]. by injection Hw as <-.
  - rewrite regularFiles_dir. split.
    + intros (k & c & q & Hin & Hq & ->).
      destruct (wfInode_entry _ _ _ _ _ Hwf Hin) as (_ & Hwc & Hassoc).
      simpl. rewrite Hassoc.
      apply (proj1 (Forall_forall _ _) IH (k, c) Hin Hwc sc lbl q x), Hq.
    + intros [Hx Hw]. destruct p as [|k q]; simpl in Hw.
      { injection Hw as <-. done. }
      destruct (assoc k es) as [c|] eqn:Hc; [|done].
      pose proof (assoc_elem _ _ _ Hc) as Hin.
      destruct (wfInode_entry _ _ _ _ _ Hwf Hin) as (_ & Hwc & _).
      exists k, c, q. split_and!; [done| |done].
      by apply (proj1 (Forall_forall _ _) IH (k, c) Hin Hwc sc lbl q x).
Qed.

Lemma regularFiles_NoDup n : wfInode n = true → NoDup (regularFiles n).*1.
Proof.
  induction n as [sz a m c|a m es IH] using Inode_nested_ind; intros Hwf.
  - simpl. apply NoDup_singleton.
  - apply wfInode_dir in Hwf as [Hall Hnd]. simpl.
    induction es as [|[k c] es IHes]; simpl; [apply NoDup_nil_2|].
    apply Forall_cons in IH as [IHc IHrest].
    apply Forall_cons in Hall as [[_ Hwc] Hall].
    apply NoDup_cons in Hnd as [Hk Hnd].
    rewrite fmap_app. apply NoDup_app. split_and!.
    + rewrite <- list_fmap_compose.
      apply (NoDup_fmap_2 (cons k)) in IHc; [|done].
      by rewrite <- list_fmap_compose in IHc.
    + intros p Hp Hp'.
      apply list_elem_of_fmap in Hp as ([p1 x1] & -> & H1).
      apply list_elem_of_fmap in H1 as ([q1 y1] & [= -> ->] & H1).
      apply list_elem_of_fmap in Hp' as ([p2 x2] & Heq & H2).
      simpl in Heq. subst p2.
      apply list_elem_of_In, in_flat_map in H2 as ([k2 c2] & Hin2 & H2).
      apply list_elem_of_In, list_elem_of_fmap in H2 as ([q2 y2] & [= -> _ _] & _).
      apply Hk. apply list_elem_of_fmap. exists (k2, c2).
      split; [done|by apply list_elem_of_In].
    + by apply IHes.
Qed.

Lemma regularFiles_fresh_dirs now segs : regularFiles (fresh_dirs now segs) = [].
Proof. induction segs as [|s rest IH]; simpl; [done|]. by rewrite IH. Qed.

Lemma flat_map_set_entry {A B} (F : string * A → list B) k v w l :
  assoc k l = Some w → F (k, v) = F (k, w) →
  flat_map F (set_entry k v l) = flat_map F l.
Proof.
  induction l as [|[j u] l IH]; simpl; [done|].
  destruct (Str.eqb k j) eqn:Hj.
  - apply Str_eqb_eq in Hj as ->. intros [= ->] HF. simpl. by rewrite HF.
  - intros Hs HF. simpl. by rewrite IH.
Qed.

(** Making directories leaves the list of regular files as it is. *)
Lemma mkdirp_regularFiles now abs segs n n' :
  mkdirp now abs segs n = OK n' → regularFiles n' = regularFiles n.
Proof.
  revert n n'. induction segs as [|s rest IH]; intros n n'.
  - destruct n; simpl; [done|]. by intros [= <-].
  - destruct n as [|a m es]; simpl; [done|].
    destruct (assoc s es) as [c|] eqn:Hs.
    + destruct (mkdirp now abs rest c) as [c'|e] eqn:Hc; simpl; [|done].
      intros [= <-]. simpl. apply (flat_map_set_entry _ _ _ c); [done|].
      simpl. by rewrite (IH _ _ Hc).
    + intros [= <-]. simpl. rewrite flat_map_app. simpl.
      by rewrite regularFiles_fresh_dirs, !app_nil_r.
Qed.

Lemma ensureDir_regularFiles now d fs fs' r :
  ensureDir now d fs = (fs', r) → regularFiles fs' = regularFiles fs.
Proof.
  unfold ensureDir. destruct (mkdirp now d _ fs) as [n|e] eqn:Hm.
  - intros [= <- _]. by apply (mkdirp_regularFiles _ _ _ _ _ Hm).
  - by intros [= <- _].
Qed.


(** ** What is found stays found *)

Lemma mkdirp_found now abs segs n n' :
  mkdirp now abs segs n = OK n' →
  ∀ sc lbl p y,
    walk sc lbl p n = OK y →
    ∃ y', walk sc lbl p n' = OK y' ∧ isDirectory y' = isDirectory y.
Proof.
  revert n n'. induction segs as [|s rest IH]; intros n n'.
  - destruct n; simpl; [done|]. intros [= <-] sc lbl p y H. by exists y.
  - destruct n as [|a m es]; simpl; [done|].
    destruct (assoc s es) as [c|] eqn:Hs.
    + destruct (mkdirp now abs rest c) as [c'|e] eqn:Hc; simpl; [|done].
      intros [= <-] sc lbl p y. destruct p as [|t p]; simpl.
      { intros [= <-]. by eexists. }
      rewrite assoc_set_entry. destruct (decide (t = s)) as [->|Hne].
      * rewrite Hs. by apply IH.
      * intros H. by exists y.
    + intros [= <-] sc lbl p y. destruct p as [|t p]; simpl.
      { intros [= <-]. by eexists. }
      destruct (assoc t es) as [c1|] eqn:Ht; [|done].
      rewrite (assoc_app_Some _ _ _ _ Ht). intros H. by exists y.
Qed.

Lemma unlink_found s n :
  ∀ sc lbl p y,
    ¬ s `prefix_of` p → walk sc lbl p n = OK y →
    ∃ y', walk sc lbl p (unlink s n) = OK y' ∧ isDirectory y' = isDirectory y.
Proof.
  revert n. induction s as [|s1 srest IH]; intros n sc lbl p y Hp.
  { destruct Hp. apply prefix_nil. }
  destruct n as [fsz fa fm fc|a0 m0 es].
  { assert (unlink (s1 :: srest) (IFile fsz fa fm fc) = IFile fsz fa fm fc) as ->
      by by destruct srest.
    intros H. by exists y. }
  destruct p as [|t p].
  { intros [= <-]. simpl. eexists. split; [done|].
    destruct srest as [|s2 srest]; simpl; [done|]. by destruct (assoc s1 es). }
  destruct srest as [|s2 srest].
  - simpl. rewrite assoc_del_entry. destruct (decide (t = s1)) as [->|Hts].
    + destruct Hp. by apply prefix_cons, prefix_nil.
    + intros H. by exists y.
  - rewrite unlink_step. destruct (assoc s1 es) as [c0|] eqn:Hs.
    + cbn [walk]. rewrite assoc_set_entry. destruct (decide (t = s1)) as [->|Hts].
      * rewrite Hs. apply IH. intros Hpre. apply Hp. by apply prefix_cons.
      * intros H. by exists y.
    + intros H. by exists y.
Qed.

Lemma link_found abs d new n n' :
  link abs d new n = OK n' →
  ∀ sc lbl p y,
    ¬ d `prefix_of` p → walk sc lbl p n = OK y →
    ∃ y', walk sc lbl p n' = OK y' ∧ isDirectory y' = isDirectory y.
Proof.
  revert n n'. induction d as [|d1 drest IH]; intros n n'; [by destruct n|].
  destruct n as [|a0 m0 es]; [by destruct drest|].
  destruct drest as [|d2 drest].
  - simpl. intros [= <-] sc lbl p y Hp.
    destruct p as [|t p].
    { intros [= <-]. by eexists. }
    simpl. rewrite assoc_set_entry. destruct (decide (t = d1)) as [->|Hne].
    + destruct Hp. by apply prefix_cons, prefix_nil.
    + intros H. by exists y.
  - rewrite link_step. destruct (assoc d1 es) as [c0|] eqn:Hs; [|done].
    destruct (link abs (d2 :: drest) new c0) as [c'|e] eqn:Hc; simpl; [|done].
    intros [= <-] sc lbl p y Hp.
    destruct p as [|t p].
    { intros [= <-]. by eexists. }
    simpl. rewrite assoc_set_entry. destruct (decide (t = d1)) as [->|Hne].
    + rewrite Hs. apply (IH _ _ Hc). intros Hpre. apply Hp. by apply prefix_cons.
    + intros H. by exists y.
Qed.

Lemma ensureDir_found now d fs fs' r :
  ensureDir now d fs = (fs', r) →
  ∀ sc lbl p y,
    walk sc lbl p fs = OK y →
    ∃ y', walk sc lbl p fs' = OK y' ∧ isDirectory y' = isDirectory y.
Proof.
  unfold ensureDir. destruct (mkdirp now d _ fs) as [n|e] eqn:Hm.
  - intros [= <- _]. by apply (mkdirp_found _ _ _ _ _ Hm).
  - intros [= <- _] sc lbl p y H. by exists y.
Qed.

(** A move that succeeds leaves what is neither at or below its source
    nor at or below its target where it is. *)
Lemma move_found now src dest fs fs' :
  move now src dest fs = (fs', OK ()) →
  ∀ sc lbl p y,
    ¬ Path.segments src `prefix_of` p → ¬ Path.segments dest `prefix_of` p →
    walk sc lbl p fs = OK y →
    ∃ y', walk sc lbl p fs' = OK y' ∧ isDirectory y' = isDirectory y.
Proof.
  unfold move. destruct (checkPaths src dest fs) as [[]|e] eqn:Hchk; [|done].
  destruct (if Str.eqb (Path.dirname dest) "/" then (fs, OK ())
            else ensureDir now (Path.dirname dest) fs) as [fs1 made] eqn:Hmade.
  assert (∀ sc lbl p y,
            walk sc lbl p fs = OK y →
            ∃ y', walk sc lbl p fs1 = OK y' ∧ isDirectory y' = isDirectory y) as Hdir.
  { destruct (Str.eqb (Path.dirname dest) "/").
    - injection Hmade as <- _. intros sc lbl p y H. by exists y.
    - by apply (ensureDir_found _ _ _ _ _ Hmade). }
  destruct made as [[]|e]; [|done].
  destruct (pathExists dest fs1) eqn:Hex; [done|].
  unfold rename, fs_stat.
  destruct (walk "rename" src (Path.segments src) fs1) as [n|e] eqn:Hsrc; [|done].
  destruct (link dest _ n _) as [fs2|e] eqn:Hlink; [|done].
  intros [= <-] sc lbl p y Hs Hd Hw.
  destruct (Hdir _ _ _ _ Hw) as (y1 & Hw1 & Hk1).
  destruct (unlink_found (Path.segments src) fs1 _ _ _ _ Hs Hw1) as (y2 & Hw2 & Hk2).
  destruct (link_found _ _ _ _ _ Hlink _ _ _ _ Hd Hw2) as (y3 & Hw3 & Hk3).
  exists y3. split; [done|]. congruence.
Qed.


(** ** What a plan does to the regular files *)

Lemma movedTo_below s d q x : movedTo s d (s ++ q, x) = (d ++ q, x).
Proof.
  unfold movedTo. simpl.
  rewrite bool_decide_eq_true_2 by by apply prefix_app_r.
  by rewrite drop_app_length.
Qed.

Lemma movedTo_elsewhere s d p x : ¬ s `prefix_of` p → movedTo s d (p, x) = (p, x).
Proof. intros H. unfold movedTo. simpl. by rewrite bool_decide_eq_false_2. Qed.

(** When the regular files at or below [s] have gone to [d], where
    nothing was, and the others have stayed, the list of regular files
    is the old one with the paths below [s] rewritten. *)
Lemma relocated_regularFiles s d (n n' : Inode) :
  wfInode n = true → wfInode n' = true →
  (∀ p sz a mt c,
     walk "" "" p n' = OK (IFile sz a mt c) ↔
     (∃ q, p = d ++ q ∧ walk "" "" (s ++ q) n = OK (IFile sz a mt c))
     ∨ (¬ s `prefix_of` p ∧ walk "" "" p n = OK (IFile sz a mt c))) →
  (∀ q sz a mt c, walk "" "" (d ++ q) n ≠ OK (IFile sz a mt c)) →
  regularFiles n' ≡ₚ movedTo s d <$> regularFiles n.
Proof.
  intros Hwf Hwf' Hfiles Hfree.
  assert (∀ p x, (p, x) ∈ regularFiles n → ¬ d `prefix_of` p) as Hnot.
  { intros p x Hin [q ->].
    apply (regularFiles_spec _ Hwf "" "") in Hin as [Hx Hw].
    destruct x; [|done]. by apply Hfree in Hw. }
  apply NoDup_Permutation.
  - eapply NoDup_fmap_1, regularFiles_NoDup, Hwf'.
  - apply NoDup_fmap_2_strong; [|eapply NoDup_fmap_1, regularFiles_NoDup, Hwf].
    intros [p1 x1] [p2 x2] H1 H2. unfold movedTo. simpl.
    case_bool_decide as Hp1; case_bool_decide as Hp2; intros [= Hp ->].
    + destruct Hp1 as [q1 ->], Hp2 as [q2 ->].
      rewrite !drop_app_length in Hp. by apply app_inv_head in Hp as ->.
    + subst p2. destruct (Hnot _ _ H2). by apply prefix_app_r.
    + subst p1. destruct (Hnot _ _ H1). by apply prefix_app_r.
    + by subst.
  - intros [p x]. rewrite list_elem_of_fmap.
    rewrite (regularFiles_spec _ Hwf' "" ""). split.
    + intros [Hx Hw]. destruct x as [sz a mt c|]; [|done].
      apply Hfiles in Hw as [(q & -> & Hw)|[Hs Hw]].
      * exists (s ++ q, IFile sz a mt c). split; [by rewrite movedTo_below|].
        by apply (regularFiles_spec _ Hwf "" "").
      * exists (p, IFile sz a mt c). split; [by rewrite movedTo_elsewhere|].
        by apply (regularFiles_spec _ Hwf "" "").
    + intros ([p0 x0] & Heq & Hin).
      apply (regularFiles_spec _ Hwf "" "") in Hin as [Hx Hw].
      destruct x0 as [sz a mt c|]; [|done].
      destruct (decide (s `prefix_of` p0)) as [[q ->]|Hs].
      * rewrite movedTo_below in Heq. injection Heq as -> ->.
        split; [done|]. apply Hfiles. left. by exists q.
      * rewrite movedTo_elsewhere in Heq by done. injection Heq as -> ->.
        split; [done|]. apply Hfiles. by right.
Qed.

Lemma move_regularFiles now src dest (fs : FS) fs' :
  wfInode fs = true →
  move now src dest fs = (fs', OK ()) →
  regularFiles fs'
  ≡ₚ movedTo (Path.segments src) (Path.segments dest) <$> regularFiles fs.
Proof.
  intros Hwf Hmove. apply relocated_regularFiles.
  - done.
  - by apply (move_wf _ _ _ _ _ _ Hwf Hmove).
  - intros p sz a mt c. apply (move_files _ _ _ _ _ Hmove).
  - intros q sz a mt c. apply (move_dest_free _ _ _ _ _ Hmove).
Qed.

Lemma movedTo_data s d l : (movedTo s d <$> l).*2 = l.*2.
Proof. rewrite <- list_fmap_compose. by apply list_fmap_ext. Qed.

Lemma applyMove_regularFiles cwd root now m (fs : FS) fs' r :
  wfInode fs = true →
  applyMove cwd root now m fs = (fs', r) →
  (regularFiles fs').*2 ≡ₚ (regularFiles fs).*2.
Proof.
  intros Hwf. unfold applyMove.
  destruct (sanitizePath cwd root (from m)) as [fromAbs|e1]; [|by intros [= <- _]].
  destruct (sanitizePath cwd root (to m)) as [toAbs|e2]; [|by intros [= <- _]].
  destruct (ensureDir now (Path.dirname toAbs) fs) as [fs1 [[]|e3]] eqn:Hdir.
  - pose proof (ensureDir_wf _ _ _ _ _ Hwf Hdir) as Hwf1.
    rewrite <- (ensureDir_regularFiles _ _ _ _ _ Hdir).
    destruct r as [[]|e].
    + intros Hmove. rewrite (move_regularFiles _ _ _ _ _ Hwf1 Hmove).
      by rewrite movedTo_data.
    + intros Hmove. by rewrite (move_error_disk _ _ _ _ _ _ _ Hdir Hmove).
  - intros [= <- _]. by rewrite (ensureDir_regularFiles _ _ _ _ _ Hdir).
Qed.

Lemma applyPlan_loop_regularFiles cwd root now ms k (fs : FS) fs' k' r :
  wfInode fs = true →
  applyPlan_loop cwd root now ms k fs = (fs', k', r) →
  (regularFiles fs').*2 ≡ₚ (regularFiles fs).*2.
Proof.
  revert k fs. induction ms as [|m ms IH]; intros k fs Hwf; simpl.
  - by intros [= <- _ _].
  - destruct (applyMove cwd root now m fs) as [fs1 [[]|e]] eqn:Hm.
    + intros Hloop. rewrite (IH _ _ (applyMove_wf _ _ _ _ _ _ _ Hwf Hm) Hloop).
      by apply (applyMove_regularFiles _ _ _ _ _ _ _ Hwf Hm).
    + intros [= <- _ _]. by apply (applyMove_regularFiles _ _ _ _ _ _ _ Hwf Hm).
Qed.

(** X1. Whatever a plan asks for and whether it fails or not, applying it
    moves regular files and nothing else: the regular files on disk
    afterwards are those before, counted with repetition, each with
    its size, times and content; none is lost, copied or altered.
    [POST /apply] inherits this. *)
Theorem applyPlan_keeps_every_file cwd root (now : Z) (plan : Plan) (fs : FS) :
  wfInode fs = true →
  (regularFiles (applyPlan cwd root now plan fs).1).*2 ≡ₚ (regularFiles fs).*2
  ∧ ∀ stored,
      (regularFiles
         (disk (post_apply cwd root now {| disk := fs; currentPlan := stored |}).1)).*2
      ≡ₚ (regularFiles fs).*2.
Proof.
  intros Hwf.
  assert (∀ p, (regularFiles (applyPlan cwd root now p fs).1).*2
               ≡ₚ (regularFiles fs).*2) as Hplan.
  { intros p. unfold applyPlan.
    destruct (applyPlan_loop cwd root now (moves p) 0 fs) as [[fs' k] r] eqn:Hl.
    pose proof (applyPlan_loop_regularFiles _ _ _ _ _ _ _ _ _ Hwf Hl) as H.
    by destruct r. }
  split; [apply Hplan|]. intros stored. unfold post_apply. simpl.
  specialize (Hplan stored).
  by destruct (applyPlan cwd root now stored fs) as [fs' [n|e]].
Qed.


(** ** The files of a snapshot are the regular files of the disk *)

Lemma take_while_all f l : forallb f l = true → Path.take_while f l = l.
Proof.
  induction l as [|x l IH]; simpl; [done|].
  intros [Hx Hl]%andb_true_iff. by rewrite Hx, IH.
Qed.

Lemma basename_plain ent : cleanSeg ent → Path.basename ent = ent.
Proof.
  intros (Hne & _ & _ & Hns). unfold Path.basename.
  assert (forallb (λ c, negb (Path.is_slash c)) (rev (Str.chars ent)) = true) as Hrev.
  { apply forallb_forall. intros c Hc%in_rev.
    by apply (proj1 (forallb_forall _ _) Hns). }
  destruct (rev (Str.chars ent)) as [|c l] eqn:Hr.
  { destruct ent; [done|]. apply (f_equal length) in Hr.
    by rewrite length_rev in Hr. }
  assert (Path.is_slash c = false) as Hc.
  { simpl in Hrev. apply andb_true_iff in Hrev as [Hc _].
    by apply negb_true_iff in Hc. }
  cbn [Path.drop_while]. rewrite Hc.
  rewrite take_while_all by done.
  rewrite <- Hr, rev_involutive. apply of_chars_chars.
Qed.

Lemma extname_child pre ent :
  cleanSeg ent → Path.extname (pre +:+ "/" +:+ ent) = Path.extname ent.
Proof.
  intros He. unfold Path.extname. by rewrite basename_child, basename_plain.
Qed.

Lemma last_clean segs :
  Forall cleanSeg segs → segs ≠ [] →
  cleanSeg (List.last segs "")
  ∧ ∃ init, segs = init ++ [List.last segs ""].
Proof.
  intros Hall Hne. destruct (exists_last Hne) as (init & l & ->).
  rewrite last_last. split; [|by exists init].
  apply Forall_app in Hall as [_ Hl]. exact (proj1 (Forall_singleton _ _) Hl).
Qed.

Section SnapshotFiles.
Variables (cwd DEMO_FS_PATH : string).
Variable rootSegs : list string.
Hypothesis rootSegs_clean : Forall cleanSeg rootSegs.
Hypothesis root_resolved : DEMO_FS_PATH = "/" +:+ Str.join "/" rootSegs.

Lemma buildTreeAt_file segs sz a m c :
  Forall cleanSeg segs → segs ≠ [] →
  buildTreeAt cwd DEMO_FS_PATH ("/" +:+ Str.join "/" (rootSegs ++ segs))
    (IFile sz a m c)
  = snapshotFile segs (IFile sz a m c).
Proof.
  intros Hsegs Hne.
  destruct (last_clean _ Hsegs Hne) as (Hlast & init & Hinit).
  unfold snapshotFile. simpl.
  rewrite (toRel_below cwd DEMO_FS_PATH rootSegs) by done.
  assert ("/" +:+ Str.join "/" (rootSegs ++ segs)
          = match (rootSegs ++ init)%list with
            | [] => ""
            | _ => "/" +:+ Str.join "/" (rootSegs ++ init)
            end +:+ "/" +:+ List.last segs "") as ->.
  { rewrite Hinit at 1. rewrite app_assoc. apply resolved_snoc. }
  by rewrite basename_child, extname_child.
Qed.

Lemma snapshot_files n :
  ∀ segs,
    Forall cleanSeg segs → wfInode n = true →
    isDirectory n = true ∨ segs ≠ [] →
    flattenFiles (buildTreeAt cwd DEMO_FS_PATH
                    ("/" +:+ Str.join "/" (rootSegs ++ segs)) n)
    = (λ pf, snapshotFile (segs ++ pf.1) pf.2) <$> regularFiles n.
Proof.
  induction n as [sz a m c|a m es IH] using Inode_nested_ind;
    intros segs Hsegs Hwf Hpos.
  - destruct Hpos as [?|Hne]; [done|].
    cbn [regularFiles fmap list_fmap fst snd]. rewrite app_nil_r.
    rewrite buildTreeAt_file by done. done.
  - apply wfInode_dir in Hwf as [Hall _].
    cbn [buildTreeAt flattenFiles regularFiles].
    induction es as [|[ent c] es IHes]; [done|].
    apply Forall_cons in IH as [IHc IHrest]. simpl in IHc.
    apply Forall_cons in Hall as [[Hent%cleanSeg_of_plainName Hc] Hall].
    cbn [map flat_map]. rewrite fmap_app. f_equal; [|by apply IHes].
    cbn [fst snd]. rewrite join_child by (done || by apply Forall_app).
    rewrite <- app_assoc, IHc; [| |done|].
    + rewrite <- list_fmap_compose. apply list_fmap_ext.
      intros i [q x] _. simpl. by rewrite <- app_assoc.
    + apply Forall_app. split; [done|by constructor].
    + right. by destruct segs.
Qed.
End SnapshotFiles.


(** ** One move of a plan *)

(** What a move of a plan that succeeds does: the regular files at or
    below the source are at or below the target, the other regular
    files are where they were, nothing was at the target, and what is
    not on the way is found as before. *)
Lemma applyMove_files cwd root now m (fs : FS) fs' :
  applyMove cwd root now m fs = (fs', OK ()) →
  ∃ fromAbs toAbs,
    sanitizePath cwd root (from m) = OK fromAbs
    ∧ sanitizePath cwd root (to m) = OK toAbs
    ∧ (∀ sc lbl p sz a mt c,
         walk sc lbl p fs' = OK (IFile sz a mt c) ↔
         (∃ q, p = Path.segments toAbs ++ q
               ∧ walk sc lbl (Path.segments fromAbs ++ q) fs = OK (IFile sz a mt c))
         ∨ (¬ Path.segments fromAbs `prefix_of` p
            ∧ walk sc lbl p fs = OK (IFile sz a mt c)))
    ∧ (∀ sc lbl q sz a mt c,
         walk sc lbl (Path.segments toAbs ++ q) fs ≠ OK (IFile sz a mt c))
    ∧ (∀ sc lbl p y,
         ¬ Path.segments fromAbs `prefix_of` p →
         ¬ Path.segments toAbs `prefix_of` p →
         walk sc lbl p fs = OK y →
         ∃ y', walk sc lbl p fs' = OK y' ∧ isDirectory y' = isDirectory y).
Proof.
  unfold applyMove.
  destruct (sanitizePath cwd root (from m)) as [fromAbs|e1]; [|done].
  destruct (sanitizePath cwd root (to m)) as [toAbs|e2]; [|done].
  destruct (ensureDir now (Path.dirname toAbs) fs) as [fs1 [[]|e3]] eqn:Hdir; [|done].
  intros Hmove. exists fromAbs, toAbs. split_and!; [done|done| | |].
  - intros sc lbl p sz a mt c.
    rewrite (move_files _ _ _ _ _ Hmove).
    by setoid_rewrite (ensureDir_files _ _ _ _ _ Hdir).
  - intros sc lbl q sz a mt c H.
    apply (ensureDir_files _ _ _ _ _ Hdir) in H.
    by apply (move_dest_free _ _ _ _ _ Hmove) in H.
  - intros sc lbl p y Hs Hd Hw.
    destruct (ensureDir_found _ _ _ _ _ Hdir _ _ _ _ Hw) as (y1 & Hw1 & Hk1).
    destruct (move_found _ _ _ _ _ Hmove _ _ _ _ Hs Hd Hw1) as (y2 & Hw2 & Hk2).
    exists y2. split; [done|congruence].
Qed.

Lemma app_not_prefix {A} (l k : list A) : k ≠ [] → ¬ l ++ k `prefix_of` l.
Proof.
  intros Hk Hpre%prefix_length. rewrite length_app in Hpre.
  destruct k; [done|]. simpl in Hpre. lia.
Qed.

Lemma prefix_app_iff {A} (k l1 l2 : list A) :
  k ++ l1 `prefix_of` k ++ l2 ↔ l1 `prefix_of` l2.
Proof. split; [apply prefix_app_inv|apply prefix_app]. Qed.

Section BelowRoot.
Variables (cwd root : string) (rootSegs : list string).
Hypothesis rootSegs_clean : Forall cleanSeg rootSegs.
Hypothesis root_resolved : root = "/" +:+ Str.join "/" rootSegs.

(** A move between two places below the sandbox root, seen from the
    root. *)
Lemma applyMove_below_root now m (fs : FS) fs' n sb db :
  wfInode fs = true →
  walk "" "" rootSegs fs = OK n →
  Forall cleanSeg sb → Forall cleanSeg db → sb ≠ [] → db ≠ [] →
  from m = "/" +:+ Str.join "/" sb → to m = "/" +:+ Str.join "/" db →
  applyMove cwd root now m fs = (fs', OK ()) →
  ∃ n', walk "" "" rootSegs fs' = OK n'
        ∧ isDirectory n' = isDirectory n
        ∧ regularFiles n' ≡ₚ movedTo sb db <$> regularFiles n.
Proof.
  intros Hwf Hroot Hsb Hdb Hsne Hdne Hfrom Hto Hmove.
  destruct (applyMove_files _ _ _ _ _ _ Hmove)
    as (fromAbs & toAbs & Hf & Ht & Hfiles & Hfree & Hfound).
  rewrite Hfrom, (sanitizePath_below cwd root rootSegs) in Hf by done.
  rewrite Hto, (sanitizePath_below cwd root rootSegs) in Ht by done.
  injection Hf as <-. injection Ht as <-.
  assert (Path.segments ("/" +:+ Str.join "/" (rootSegs ++ sb)) = rootSegs ++ sb)
    as Hs by (apply segments_of_resolved; by apply Forall_app).
  assert (Path.segments ("/" +:+ Str.join "/" (rootSegs ++ db)) = rootSegs ++ db)
    as Hd by (apply segments_of_resolved; by apply Forall_app).
  rewrite Hs, Hd in Hfiles. rewrite Hd in Hfree. rewrite Hs, Hd in Hfound.
  clear Hs Hd.
  destruct (Hfound "" "" rootSegs n) as (n' & Hroot' & Hkind);
    [by apply app_not_prefix|by apply app_not_prefix|done|].
  exists n'. split_and!; [done|done|].
  apply relocated_regularFiles.
  - by apply (walk_wf _ _ _ _ _ Hwf Hroot).
  - apply (walk_wf _ _ _ _ _ (applyMove_wf _ _ _ _ _ _ _ Hwf Hmove) Hroot').
  - intros p sz a mt c.
    assert (∀ q x, walk "" "" (rootSegs ++ q) fs = OK x ↔ walk "" "" q n = OK x) as Hn
      by (intros q x; by rewrite walk_app, Hroot).
    assert (∀ q x, walk "" "" (rootSegs ++ q) fs' = OK x ↔ walk "" "" q n' = OK x) as Hn'
      by (intros q x; by rewrite walk_app, Hroot').
    rewrite <- Hn', Hfiles. split.
    + intros [(q & Hp & Hw)|[Hs Hw]].
      * left. exists q. rewrite <- app_assoc in Hp. apply app_inv_head in Hp.
        split; [done|]. apply Hn. by rewrite app_assoc.
      * right. split; [by rewrite prefix_app_iff in Hs|by apply Hn].
    + intros [(q & -> & Hw)|[Hs Hw]].
      * left. exists q. split; [by rewrite app_assoc|].
        rewrite <- app_assoc. by apply Hn.
      * right. split; [by rewrite prefix_app_iff|by apply Hn].
  - intros q sz a mt c Hw. apply (Hfree "" "" q sz a mt c).
    by rewrite <- app_assoc, walk_app, Hroot.
Qed.
End BelowRoot.


(** ** Applying the plan of the heuristic tier *)

Lemma walk_clean sc lbl p n x :
  wfInode n = true → walk sc lbl p n = OK x → Forall cleanSeg p.
Proof.
  revert n. induction p as [|s p IH]; intros n Hwf; simpl; [constructor|].
  destruct n as [|a m es]; [done|].
  destruct (assoc s es) as [c|] eqn:Hs; [|done].
  pose proof (assoc_elem _ _ _ Hs) as Hin.
  destruct (wfInode_entry _ _ _ _ _ Hwf Hin) as (Hclean & Hwc & _).
  intros H. constructor; [done|by apply (IH c)].
Qed.

Lemma walk_below_file sc lbl p q n x y :
  walk sc lbl p n = OK x → isDirectory x = false →
  walk sc lbl (p ++ q) n = OK y → q = [].
Proof.
  intros Hp Hx. rewrite walk_app, Hp. simpl.
  destruct q as [|s q]; [done|]. by destruct x.
Qed.

Lemma regularFiles_elem n p x :
  wfInode n = true → isDirectory n = true → (p, x) ∈ regularFiles n →
  Forall cleanSeg p ∧ p ≠ [] ∧ isDirectory x = false
  ∧ walk "" "" p n = OK x.
Proof.
  intros Hwf Hdir Hin.
  apply (regularFiles_spec _ Hwf "" "") in Hin as [Hx Hw].
  split_and!; [by eapply walk_clean| |done|done].
  intros ->. simpl in Hw. injection Hw as ->. congruence.
Qed.

Lemma snapshotFile_name below x :
  name (snapshotFile below x) = List.last below "".
Proof. done. Qed.

Lemma snapshotFile_path below x :
  path (snapshotFile below x) = "/" +:+ Str.join "/" below.
Proof. done. Qed.

Lemma snapshotFile_lowerExt below below' x :
  List.last below "" = List.last below' "" →
  lowerExt (snapshotFile below x) = lowerExt (snapshotFile below' x).
Proof. intros H. unfold lowerExt, snapshotFile. simpl. by rewrite H. Qed.

Lemma homeOf_clean below x :
  Forall cleanSeg below → below ≠ [] → Forall cleanSeg (homeOf (below, x)).1.
Proof.
  intros Hb Hne. destruct (last_clean _ Hb Hne) as [Hlast _].
  unfold homeOf. cbn [fst snd]. rewrite snapshotFile_name.
  repeat apply Forall_cons_2; [| |done|constructor].
  - by apply cleanSeg_of_plainName.
  - apply cleanSeg_of_plainName, categoryOf_plain.
Qed.

Lemma homeOf_target below x :
  categoryTarget (snapshotFile below x)
  = "/" +:+ Str.join "/" (homeOf (below, x)).1.
Proof. done. Qed.

Lemma homeOf_node below x :
  snapshotFile (homeOf (below, x)).1 (homeOf (below, x)).2
  = withPath (categoryTarget (snapshotFile below x)) (snapshotFile below x).
Proof. done. Qed.

Lemma resolved_inj segs segs' :
  Forall cleanSeg segs → Forall cleanSeg segs' →
  "/" +:+ Str.join "/" segs = "/" +:+ Str.join "/" segs' → segs = segs'.
Proof.
  intros H H' Heq. apply (f_equal Path.segments) in Heq.
  by rewrite !segments_of_resolved in Heq.
Qed.

Lemma homeOf_at_home below x :
  Forall cleanSeg below → below ≠ [] →
  path (snapshotFile below x) = categoryTarget (snapshotFile below x) →
  homeOf (below, x) = (below, x).
Proof.
  intros Hb Hne Heq. rewrite homeOf_target, snapshotFile_path in Heq.
  apply resolved_inj in Heq; [|done|by apply homeOf_clean].
  unfold homeOf in *. cbn [fst snd] in *. by rewrite <- Heq.
Qed.


Section HeuristicApply.
Variables (cwd root : string) (rootSegs : list string).
Hypothesis rootSegs_clean : Forall cleanSeg rootSegs.
Hypothesis root_resolved : root = "/" +:+ Str.join "/" rootSegs.

Local Abbreviation nodeOf_ := (λ pf : list string * Inode, snapshotFile pf.1 pf.2).

(** Among the regular files of a directory no path leads on to
    another. *)
Lemma regularFiles_apart n A below x L :
  wfInode n = true →
  regularFiles n ≡ₚ A ++ (below, x) :: L →
  Forall (λ pf, ¬ below `prefix_of` pf.1) (A ++ L).
Proof.
  intros Hwf Hperm. apply Forall_forall. intros [p' x'] Hin [q Hq].
  simpl in Hq. subst p'.
  assert ((below, x) ∈ regularFiles n) as Hx.
  { rewrite Hperm. apply elem_of_app. right. by left. }
  assert ((below ++ q, x') ∈ regularFiles n) as Hx'.
  { rewrite Hperm. apply elem_of_app. apply elem_of_app in Hin as [?|?];
      [by left|right; by right]. }
  apply (regularFiles_spec _ Hwf "" "") in Hx as [Hfile Hw].
  apply (regularFiles_spec _ Hwf "" "") in Hx' as [_ Hw'].
  pose proof (walk_below_file _ _ _ _ _ _ _ Hw Hfile Hw') as ->.
  rewrite app_nil_r in Hin.
  pose proof (regularFiles_NoDup _ Hwf) as Hnd.
  rewrite Hperm, fmap_app, fmap_cons in Hnd. simpl in Hnd.
  apply NoDup_app in Hnd as (_ & HA & HL). apply NoDup_cons in HL as [HL _].
  apply elem_of_app in Hin as [Hin|Hin].
  - apply (HA below); [|by left].
    apply list_elem_of_fmap. by exists (below, x').
  - apply HL. apply list_elem_of_fmap. by exists (below, x').
Qed.

Lemma movedTo_others s d (l : list (list string * Inode)) :
  Forall (λ pf, ¬ s `prefix_of` pf.1) l → movedTo s d <$> l = l.
Proof.
  intros H. rewrite <- (list_fmap_id l) at 2. apply Forall_fmap_ext_1.
  eapply Forall_impl; [exact H|]. intros [p x] Hp. by apply movedTo_elsewhere.
Qed.

(** The loop of [applyPlan] on the moves of the heuristic tier for the
    files [L]: if no move fails, each of them ends up at home. *)
Lemma heuristic_loop now L :
  ∀ A (fs : FS) fs' n k k',
    wfInode fs = true →
    walk "" "" rootSegs fs = OK n → isDirectory n = true →
    regularFiles n ≡ₚ A ++ L →
    applyPlan_loop cwd root now (flat_map categoryMoves (nodeOf_ <$> L)) k fs
      = (fs', k', None) →
    ∃ n', walk "" "" rootSegs fs' = OK n' ∧ isDirectory n' = true
          ∧ regularFiles n' ≡ₚ A ++ (homeOf <$> L).
Proof.
  induction L as [|[below x] L IH]; intros A fs fs' n k k' Hwf Hroot Hdir Hperm.
  - simpl. intros [= <- _]. by exists n.
  - assert ((below, x) ∈ regularFiles n) as Hin.
    { rewrite Hperm. apply elem_of_app. right. by left. }
    destruct (regularFiles_elem _ _ _ (walk_wf _ _ _ _ _ Hwf Hroot) Hdir Hin)
      as (Hclean & Hne & Hfile & Hw).
    rewrite fmap_cons. cbn [flat_map fst snd]. unfold categoryMoves at 1.
    destruct (decide (path (snapshotFile below x)
                      = categoryTarget (snapshotFile below x))) as [Hhome|Haway].
    + cbn [app]. intros Hloop.
      destruct (IH (A ++ [(below, x)]) fs fs' n k k') as (n' & Hroot' & Hdir' & Hperm');
        [done|done|done|by rewrite <- app_assoc|done|].
      exists n'. split_and!; [done|done|].
      rewrite fmap_cons, (homeOf_at_home _ _ Hclean Hne Hhome).
      by rewrite <- app_assoc in Hperm'.
    + cbn [app applyPlan_loop].
      destruct (applyMove cwd root now (categoryMove (snapshotFile below x)) fs)
        as [fs1 [[]|e]] eqn:Hmove; [|done].
      intros Hloop.
      destruct (applyMove_below_root cwd root rootSegs rootSegs_clean root_resolved
                  now (categoryMove (snapshotFile below x)) fs fs1 n
                  below (homeOf (below, x)).1)
        as (n1 & Hroot1 & Hdir1 & Hperm1);
        [done|done|done|by apply homeOf_clean|done|done|done|done|done|].
      assert (regularFiles n1 ≡ₚ (A ++ [homeOf (below, x)]) ++ L) as Hperm2.
      { rewrite Hperm1, Hperm, fmap_app, fmap_cons.
        pose proof (regularFiles_apart _ _ _ _ _ (walk_wf _ _ _ _ _ Hwf Hroot) Hperm)
          as [HA HL]%Forall_app.
        rewrite !movedTo_others by done.
        pose proof (movedTo_below below (homeOf (below, x)).1 [] x) as Hm.
        rewrite !app_nil_r in Hm. rewrite Hm.
        by rewrite <- app_assoc. }
      destruct (IH (A ++ [homeOf (below, x)]) fs1 fs' n1 (S k) k')
        as (n' & Hroot' & Hdir' & Hperm');
        [by apply (applyMove_wf _ _ _ _ _ _ _ Hwf Hmove)|done|congruence|done|done|].
      exists n'. split_and!; [done|done|].
      rewrite fmap_cons. by rewrite <- app_assoc in Hperm'.
Qed.
End HeuristicApply.


(** The mapping of the plan of the heuristic tier sends every file to
    its target. *)
Lemma planMapping_categoryMoves files f :
  NoDup (path <$> files) → f ∈ files →
  planMapping (flat_map categoryMoves files) (path f) = categoryTarget f.
Proof.
  intros Hnd Hf. unfold planMapping.
  assert (∀ m, m ∈ flat_map categoryMoves files → from m = path f →
               m = categoryMove f ∧ path f ≠ categoryTarget f) as Hone.
  { intros m Hm Hfrom.
    apply list_elem_of_In, in_flat_map in Hm as (g & Hg%list_elem_of_In & Hm).
    unfold categoryMoves in Hm. destruct (decide _) as [|Hne]; [done|].
    destruct Hm as [<-|[]]. simpl in Hfrom.
    assert (g = f) as ->; [|done].
    apply list_elem_of_lookup in Hg as [i Hi], Hf as [j Hj].
    assert (i = j) as ->; [|congruence].
    apply (NoDup_lookup _ i j (path f) Hnd); rewrite list_lookup_fmap.
    - rewrite Hi. simpl. by rewrite Hfrom.
    - by rewrite Hj. }
  destruct (find _ _) as [m|] eqn:Hfind.
  - apply find_some in Hfind as [Hin Heq].
    apply in_rev, list_elem_of_In in Hin. apply Str_eqb_eq in Heq.
    by destruct (Hone _ Hin Heq) as [-> _].
  - destruct (decide (path f = categoryTarget f)) as [|Hne]; [done|].
    assert (categoryMove f ∈ flat_map categoryMoves files) as Hin.
    { apply list_elem_of_In, in_flat_map. exists f.
      split; [by apply list_elem_of_In|].
      unfold categoryMoves. rewrite decide_False by done. by left. }
    apply list_elem_of_In, in_rev in Hin.
    pose proof (find_none _ _ Hfind _ Hin) as Hno. simpl in Hno.
    by rewrite Str_eqb_refl in Hno.
Qed.

Section HeuristicPlans.
Variables (cwd root : string) (rootSegs : list string).
Hypothesis rootSegs_clean : Forall cleanSeg rootSegs.
Hypothesis root_resolved : root = "/" +:+ Str.join "/" rootSegs.

Local Abbreviation nodeOf_ := (λ pf : list string * Inode, snapshotFile pf.1 pf.2).

(** The snapshot of the sandbox root, when the root is a
    directory. *)
Lemma snapshot_of_root (fs : FS) n :
  wfInode fs = true →
  fs_stat "stat" root fs = OK n → isDirectory n = true →
  wfInode n = true
  ∧ walk "" "" rootSegs fs = OK n
  ∧ buildTree cwd root root fs = OK (buildTreeAt cwd root root n)
  ∧ flattenFiles (buildTreeAt cwd root root n) = nodeOf_ <$> regularFiles n.
Proof.
  intros Hwf Hstat Hdir. unfold buildTree. rewrite Hstat. simpl.
  unfold fs_stat in Hstat.
  assert (Path.segments root = rootSegs) as Hsegs
    by (rewrite root_resolved; by apply segments_of_resolved).
  rewrite Hsegs in Hstat.
  pose proof (walk_wf _ _ _ _ _ Hwf Hstat) as Hwfn.
  split_and!; [done|by apply (walk_found _ _ _ _ _ _ _ Hstat)|done|].
  assert (buildTreeAt cwd root root n
          = buildTreeAt cwd root ("/" +:+ Str.join "/" (rootSegs ++ [])) n) as ->
    by (by rewrite app_nil_r, <- root_resolved).
  rewrite (snapshot_files cwd root rootSegs rootSegs_clean root_resolved n [])
    by (done || by left).
  done.
Qed.

Lemma snapshot_nodes_plain n :
  wfInode n = true → isDirectory n = true →
  Forall (λ f, plainName (name f) = true) (nodeOf_ <$> regularFiles n).
Proof.
  intros Hwf Hdir. apply Forall_fmap, Forall_forall. intros [p x] Hin.
  destruct (regularFiles_elem _ _ _ Hwf Hdir Hin) as (Hclean & Hne & _).
  simpl. apply plainName_of_cleanSeg. by apply last_clean.
Qed.

Lemma snapshot_nodes_distinct n :
  wfInode n = true → isDirectory n = true →
  NoDup (path <$> (nodeOf_ <$> regularFiles n)).
Proof.
  intros Hwf Hdir. rewrite <- list_fmap_compose.
  apply NoDup_fmap_2_strong; [|eapply NoDup_fmap_1, regularFiles_NoDup, Hwf].
  intros [p x] [q y] Hp Hq. simpl. intros Heq.
  destruct (regularFiles_elem _ _ _ Hwf Hdir Hp) as (Hcp & _ & _ & Hwp).
  destruct (regularFiles_elem _ _ _ Hwf Hdir Hq) as (Hcq & _ & _ & Hwq).
  apply resolved_inj in Heq as ->; [|done..]. congruence.
Qed.

(** What applying the plan of the heuristic tier leaves below the
    root, if no move fails. *)
Lemma heuristic_apply now instructions (fs : FS) fs' n moved :
  wfInode fs = true →
  fs_stat "stat" root fs = OK n → isDirectory n = true →
  applyPlan cwd root now
    (heuristicPlan (nodeOf_ <$> regularFiles n) instructions) fs = (fs', OK moved) →
  ∃ n', fs_stat "stat" root fs' = OK n' ∧ isDirectory n' = true
        ∧ wfInode fs' = true
        ∧ regularFiles n' ≡ₚ homeOf <$> regularFiles n.
Proof.
  intros Hwf Hstat Hdir Happly.
  destruct (snapshot_of_root _ _ Hwf Hstat Hdir) as (Hwfn & Hroot & _ & _).
  destruct (heuristic_on_plain_names _ instructions (snapshot_nodes_plain _ Hwfn Hdir))
    as [Hplan _].
  rewrite Hplan in Happly. apply applyPlan_ok_loop in Happly.
  destruct (heuristic_loop cwd root rootSegs rootSegs_clean root_resolved
              now (regularFiles n) [] fs fs' n 0%nat _ Hwf Hroot Hdir
              (reflexivity _) Happly) as (n' & Hroot' & Hdir' & Hperm).
  exists n'. split_and!; [|done| |done].
  - unfold fs_stat.
    assert (Path.segments root = rootSegs) as ->
      by (rewrite root_resolved; by apply segments_of_resolved).
    by apply (walk_found _ _ _ _ _ _ _ Hroot').
  - by apply (applyPlan_loop_wf _ _ _ _ _ _ _ _ _ Hwf Happly).
Qed.

(** The files of the snapshot taken after that. *)
Lemma heuristic_apply_files now instructions (fs : FS) fs' n moved :
  wfInode fs = true →
  fs_stat "stat" root fs = OK n → isDirectory n = true →
  applyPlan cwd root now
    (heuristicPlan (nodeOf_ <$> regularFiles n) instructions) fs = (fs', OK moved) →
  ∃ tree', buildTree cwd root root fs' = OK tree'
    ∧ flattenFiles tree'
      ≡ₚ (λ f, withPath (categoryTarget f) f) <$> (nodeOf_ <$> regularFiles n).
Proof.
  intros Hwf Hstat Hdir Happly.
  destruct (heuristic_apply _ _ _ _ _ _ Hwf Hstat Hdir Happly)
    as (n' & Hstat' & Hdir' & Hwf' & Hperm).
  destruct (snapshot_of_root _ _ Hwf' Hstat' Hdir') as (_ & _ & Htree' & Hfiles').
  eexists. split; [exact Htree'|].
  rewrite Hfiles', Hperm, <- !list_fmap_compose.
  apply eq_subrelation; [apply _|]. apply list_fmap_ext. by intros i [p x] _.
Qed.
End HeuristicPlans.


Lemma flat_map_all_nil {A B} (g : A → list B) l :
  Forall (λ x, g x = []) l → flat_map g l = [].
Proof. induction 1 as [|x l Hx _ IH]; [done|]. simpl. by rewrite Hx. Qed.

Lemma heuristic_synthesis cwd root w instructions (fs : FS) n plan :
  resolvedDir root → wfInode fs = true →
  fs_stat "stat" root fs = OK n → isDirectory n = true →
  createPlanFromInstructions cwd root w instructions fs = OK (FromHeuristic plan) →
  let files := (λ pf, snapshotFile pf.1 pf.2) <$> regularFiles n in
  buildTree cwd root root fs = OK (buildTreeAt cwd root root n)
  ∧ flattenFiles (buildTreeAt cwd root root n) = files
  ∧ NoDup (path <$> files)
  ∧ plan = heuristicPlan files instructions
  ∧ moves plan = flat_map categoryMoves files.
Proof.
  intros (rootSegs & Hclean & Hroot) Hwf Hstat Hdir Hplan files.
  destruct (snapshot_of_root cwd root rootSegs Hclean Hroot _ _ Hwf Hstat Hdir)
    as (Hwfn & _ & Htree & Hfiles).
  unfold createPlanFromInstructions in Hplan. rewrite Htree in Hplan. simpl in Hplan.
  rewrite Hfiles in Hplan.
  destruct (Agent.tryLlmOrganize w _ instructions); [done|].
  injection Hplan as <-.
  split_and!; [done|done|by apply snapshot_nodes_distinct|done|].
  by destruct (heuristic_on_plain_names _ instructions
                 (snapshot_nodes_plain _ Hwfn Hdir)) as [-> _].
Qed.

(** X2. A plan of the heuristic tier that applies without error leaves the
    files where the preview of the plan showed them: the files of the
    snapshot taken afterwards are the files of the [after] view, each
    with its name, size, extension and times.  The sandbox root is a
    directory of a well-formed disk. *)
Theorem heuristic_plan_applies_as_previewed
    cwd root (now : Z) w instructions (fs : FS) n plan fs' moved :
  resolvedDir root → wfInode fs = true →
  fs_stat "stat" root fs = OK n → isDirectory n = true →
  createPlanFromInstructions cwd root w instructions fs = OK (FromHeuristic plan) →
  applyPlan cwd root now plan fs = (fs', OK moved) →
  ∃ before after tree',
    (previewPlan cwd root plan fs).2 = OK (before, after)
    ∧ buildTree cwd root root fs' = OK tree'
    ∧ flattenFiles tree' ≡ₚ flattenFiles after.
Proof.
  intros Hres Hwf Hstat Hdir Hplan Happly.
  destruct (heuristic_synthesis _ _ _ _ _ _ _ Hres Hwf Hstat Hdir Hplan)
    as (Htree & Hfiles & Hnd & Heq & Hmoves).
  destruct Hres as (rootSegs & Hclean & Hroot).
  rewrite Heq in Happly.
  destruct (heuristic_apply_files cwd root rootSegs Hclean Hroot _ _ _ _ _ _
              Hwf Hstat Hdir Happly) as (tree' & Htree' & Hperm).
  exists (buildTreeAt cwd root root n),
    (cloneNode (afterPaths (moves plan)) (buildTreeAt cwd root root n)), tree'.
  split_and!; [|done|].
  - unfold previewPlan. cbn [snd]. by rewrite Htree.
  - rewrite Hperm.
    rewrite (cloneNode_relabel _ _ (buildTree_dirsListed _ _ _ _ _ Htree)).
    rewrite flattenFiles_relabel, Hfiles.
    apply eq_subrelation; [apply _|]. apply list_fmap_ext. intros i f Hf.
    f_equal. apply list_elem_of_lookup_2 in Hf.
    rewrite Hmoves, mapPath_planMapping.
    + by rewrite planMapping_categoryMoves.
    + apply Forall_forall. intros m Hm.
      apply list_elem_of_In, in_flat_map in Hm as (g & _ & Hm).
      unfold categoryMoves in Hm. destruct (decide _); [done|].
      by destruct Hm as [<-|[]].
Qed.

(** X3. After a plan of the heuristic tier has been applied without error
    the heuristic tier has nothing left to do: whatever the next
    instructions are, its plan for the new snapshot has no move. *)
Theorem heuristic_plan_settles
    cwd root (now : Z) w instructions instructions' (fs : FS) n plan fs' moved :
  resolvedDir root → wfInode fs = true →
  fs_stat "stat" root fs = OK n → isDirectory n = true →
  createPlanFromInstructions cwd root w instructions fs = OK (FromHeuristic plan) →
  applyPlan cwd root now plan fs = (fs', OK moved) →
  ∃ tree',
    buildTree cwd root root fs' = OK tree'
    ∧ heuristicPlan (flattenFiles tree') instructions' = emptyPlan
    ∧ ∀ w', Agent.tryLlmOrganize w' (flattenFiles tree') instructions' = None →
        createPlanFromInstructions cwd root w' instructions' fs'
        = OK (FromHeuristic emptyPlan).
Proof.
  intros Hres Hwf Hstat Hdir Hplan Happly.
  destruct (heuristic_synthesis _ _ _ _ _ _ _ Hres Hwf Hstat Hdir Hplan)
    as (Htree & Hfiles & Hnd & -> & Hmoves).
  destruct Hres as (rootSegs & Hclean & Hroot).
  destruct (snapshot_of_root cwd root rootSegs Hclean Hroot _ _ Hwf Hstat Hdir)
    as (Hwfn & _ & _ & _).
  destruct (heuristic_apply_files cwd root rootSegs Hclean Hroot _ _ _ _ _ _
              Hwf Hstat Hdir Happly) as (tree' & Htree' & Hperm).
  assert (heuristicPlan (flattenFiles tree') instructions' = emptyPlan) as Hempty.
  { assert (Forall (λ f, plainName (name f) = true ∧ categoryMoves f = [])
              (flattenFiles tree')) as Hall.
    { rewrite Hperm. apply Forall_fmap, Forall_forall. intros f Hf. simpl.
      pose proof (proj1 (Forall_forall _ _) (snapshot_nodes_plain _ Hwfn Hdir) f Hf).
      rewrite name_withPath. split; [done|]. unfold categoryMoves.
      rewrite path_withPath, categoryTarget_withPath. by rewrite decide_True. }
    destruct (heuristic_on_plain_names (flattenFiles tree') instructions') as [-> _].
    { eapply Forall_impl; [exact Hall|]. by intros f [? _]. }
    unfold emptyPlan. f_equal. apply flat_map_all_nil.
    eapply Forall_impl; [exact Hall|]. by intros f [_ ?]. }
  exists tree'. split_and!; [done|done|].
  intros w' Hnull. unfold createPlanFromInstructions. rewrite Htree'. simpl.
  by rewrite Hnull, Hempty.
Qed.


(** ** The sandbox, the snapshot and single moves *)

(** X4. [sanitizePath] never refuses a path of the sandbox: when the
    resolved target is the root or below it, the target is returned;
    what is refused is outside and the error is
    [Path escapes demo filesystem]; what is returned is the resolved
    target, which resolves to itself. *)
Theorem sanitizePath_never_refuses_the_sandbox cwd root rel :
  Path.isAbsolute cwd = true →
  let target := Path.resolve cwd [safeRoot cwd root; "." +:+ rel] in
  (insideRoot (safeRoot cwd root) target → sanitizePath cwd root rel = OK target)
  ∧ (∀ e, sanitizePath cwd root rel = Err e →
       message e = "Path escapes demo filesystem"
       ∧ ¬ insideRoot (safeRoot cwd root) target)
  ∧ (∀ abs, sanitizePath cwd root rel = OK abs →
       abs = target ∧ Path.resolve cwd [abs] = abs).
Proof.
  intros Hcwd target. split_and!.
  - by apply sanitizePath_accepts_inside.
  - intros e He.
    by destruct (sanitizePath_refuses_only_outside cwd root Hcwd rel e He) as [-> ?].
  - intros abs Habs. unfold sanitizePath in Habs. fold target in Habs.
    destruct (negb _); [done|]. injection Habs as <-. split; [done|].
    destruct (resolve_absolute_shape cwd Hcwd [safeRoot cwd root; "." +:+ rel])
      as (segs & Hsegs & Ht).
    fold target in Ht. rewrite Ht. by apply resolve_resolved.
Qed.

(** X5. A scan of a directory of the sandbox lists the regular files at
    and below it and nothing else: one file node per regular file, in
    directory order, with the path from the sandbox root, the last
    segment as name, the size and times of the file and the lower-case
    extension of the name; no two have the same path.  The snapshot
    of the sandbox root is the scan of [/]. *)
Theorem scan_lists_the_regular_files cwd root segs (fs : FS) abs n :
  resolvedDir root → wfInode fs = true → Forall cleanSeg segs →
  sanitizePath cwd root ("/" +:+ Str.join "/" segs) = OK abs →
  fs_stat "stat" abs fs = OK n → isDirectory n = true →
  ∃ tree,
    scanDirectory cwd root ("/" +:+ Str.join "/" segs) fs = OK tree
    ∧ flattenFiles tree
      = (λ pf, snapshotFile (segs ++ pf.1) pf.2) <$> regularFiles n
    ∧ NoDup (path <$> flattenFiles tree)
    ∧ (segs = [] → buildTree cwd root root fs = OK tree).
Proof.
  intros (rootSegs & Hclean & Hroot) Hwf Hsegs Habs Hstat Hdir.
  rewrite (sanitizePath_below cwd root rootSegs Hclean Hroot segs Hsegs) in Habs.
  injection Habs as <-.
  assert (Forall cleanSeg (rootSegs ++ segs)) as Hall by (by apply Forall_app).
  assert (wfInode n = true) as Hwfn.
  { unfold fs_stat in Hstat. by apply (walk_wf _ _ _ _ _ Hwf Hstat). }
  exists (buildTreeAt cwd root ("/" +:+ Str.join "/" (rootSegs ++ segs)) n).
  assert (flattenFiles (buildTreeAt cwd root ("/" +:+ Str.join "/" (rootSegs ++ segs)) n)
          = (λ pf, snapshotFile (segs ++ pf.1) pf.2) <$> regularFiles n) as Hfiles.
  { apply (snapshot_files cwd root rootSegs Hclean Hroot); [done|done|by left]. }
  split_and!.
  - unfold scanDirectory.
    rewrite (sanitizePath_below cwd root rootSegs Hclean Hroot segs Hsegs). simpl.
    unfold buildTree. by rewrite Hstat.
  - done.
  - rewrite Hfiles, <- list_fmap_compose.
    apply NoDup_fmap_2_strong; [|eapply NoDup_fmap_1, regularFiles_NoDup, Hwfn].
    intros [p x] [q y] Hp Hq. simpl. intros Heq.
    destruct (regularFiles_elem _ _ _ Hwfn Hdir Hp) as (Hcp & _ & _ & Hwp).
    destruct (regularFiles_elem _ _ _ Hwfn Hdir Hq) as (Hcq & _ & _ & Hwq).
    apply resolved_inj in Heq; [|by apply Forall_app..].
    apply app_inv_head in Heq as ->. congruence.
  - intros ->. rewrite app_nil_r in *. rewrite <- Hroot in *.
    unfold buildTree. by rewrite Hstat.
Qed.

(** X6. What a snapshot says about a file leads back to the file: the
    path of the node passes [sanitizePath], the absolute path it
    returns has this path as its [toRel] and the name of the node as
    its base name, and there the disk has a regular file with the
    size and the times of the node. *)
Theorem snapshot_paths_lead_back cwd root (fs : FS) n tree f :
  resolvedDir root → wfInode fs = true →
  fs_stat "stat" root fs = OK n → isDirectory n = true →
  buildTree cwd root root fs = OK tree → f ∈ flattenFiles tree →
  ∃ abs sz atm mtm content,
    sanitizePath cwd root (path f) = OK abs
    ∧ toRel cwd root abs = path f
    ∧ Path.basename abs = name f
    ∧ (∀ syscall, fs_stat syscall abs fs = OK (IFile sz atm mtm content))
    ∧ type f = file ∧ children f = None
    ∧ size f = Some sz ∧ atimeMs f = Some atm ∧ mtimeMs f = Some mtm.
Proof.
  intros (rootSegs & Hclean & Hroot) Hwf Hstat Hdir Htree Hf.
  destruct (snapshot_of_root cwd root rootSegs Hclean Hroot _ _ Hwf Hstat Hdir)
    as (Hwfn & Hwalk & Htree' & Hfiles).
  rewrite Htree' in Htree. injection Htree as <-. rewrite Hfiles in Hf.
  apply list_elem_of_fmap in Hf as ([below x] & -> & Hin).
  destruct (regularFiles_elem _ _ _ Hwfn Hdir Hin) as (Hb & Hne & Hfile & Hw).
  destruct x as [sz atm mtm content|]; [|done].
  destruct (last_clean _ Hb Hne) as (Hlast & init & Hinit).
  exists ("/" +:+ Str.join "/" (rootSegs ++ below)), sz, atm, mtm, content.
  cbn [fst snd]. rewrite snapshotFile_path, snapshotFile_name.
  split_and!; try done.
  - by apply sanitizePath_below.
  - by apply (toRel_below cwd root rootSegs).
  - rewrite Hinit at 1. rewrite app_assoc, resolved_snoc. by apply basename_child.
  - intros syscall. unfold fs_stat.
    rewrite segments_of_resolved by (by apply Forall_app).
    rewrite walk_app, (walk_found _ _ syscall _ _ _ _ Hwalk). simpl.
    by apply (walk_found _ _ _ _ _ _ _ Hw).
Qed.

(** X7. A move of a plan that succeeds takes what is at its source to its
    target and touches no other file: afterwards a regular file is at
    a path exactly if it was at the corresponding path at or below
    the source, or was there before and not at or below the source;
    size, times and content are those it had; the target was free.
    When the source is a regular file, the file is at the target
    afterwards and no regular file is at the source. *)
Theorem applyMove_relocates cwd root (now : Z) (m : MoveOp) (fs fs' : FS) :
  applyMove cwd root now m fs = (fs', OK ()) →
  ∃ fromAbs toAbs,
    sanitizePath cwd root (from m) = OK fromAbs
    ∧ sanitizePath cwd root (to m) = OK toAbs
    ∧ (∀ syscall abs p sz atm mtm content,
         walk syscall abs p fs' = OK (IFile sz atm mtm content) ↔
         (∃ q, p = Path.segments toAbs ++ q
               ∧ walk syscall abs (Path.segments fromAbs ++ q) fs
                 = OK (IFile sz atm mtm content))
         ∨ (¬ Path.segments fromAbs `prefix_of` p
            ∧ walk syscall abs p fs = OK (IFile sz atm mtm content)))
    ∧ (∀ syscall abs q sz atm mtm content,
         walk syscall abs (Path.segments toAbs ++ q) fs
         ≠ OK (IFile sz atm mtm content))
    ∧ (∀ syscall sz atm mtm content,
         fs_stat syscall fromAbs fs = OK (IFile sz atm mtm content) →
         fs_stat syscall toAbs fs' = OK (IFile sz atm mtm content)
         ∧ ∀ sz' atm' mtm' content',
             fs_stat syscall fromAbs fs' ≠ OK (IFile sz' atm' mtm' content')).
Proof.
  intros Hmove.
  destruct (applyMove_files _ _ _ _ _ _ Hmove)
    as (fromAbs & toAbs & Hf & Ht & Hfiles & Hfree & _).
  exists fromAbs, toAbs. split_and!; [done..|].
  intros syscall sz atm mtm content Hsrc. unfold fs_stat in *. split.
  - apply walk_found with (sc' := syscall) (lbl' := toAbs) in Hsrc.
    apply Hfiles. left. exists []. by rewrite !app_nil_r.
  - intros sz' atm' mtm' content' H.
    apply Hfiles in H as [(q & Hq & Hw)|[Hn _]]; [|by destruct Hn].
    pose proof (walk_below_file _ _ _ _ _ _ _ Hsrc eq_refl Hw) as ->.
    rewrite app_nil_r in Hq. rewrite Hq, <- (app_nil_r (Path.segments toAbs)) in Hsrc.
    by apply Hfree in Hsrc.
Qed.

(** ** A move that fails *)






(** ** More on garbage detection *)

Lemma duplicatesOf_elem_files g p :
  p ∈ map ds_file (duplicatesOf g) → p ∈ concat (map snd g).
Proof. intros H. by apply (elem_of_submseteq _ _ _ H), duplicatesOf_files. Qed.

(** The first path of a group is no duplicate of anything. *)
Lemma original_not_duplicated g h original others :
  NoDup (concat (map snd g)) → (h, original :: others) ∈ g →
  original ∉ map ds_file (duplicatesOf g).
Proof.
  induction g as [|[h' ps] g IH]; intros Hnd Hin; [by apply elem_of_nil in Hin|].
  simpl in Hnd. apply NoDup_app in Hnd as (Hps & Hdis & Hg).
  rewrite duplicatesOf_cons, map_app. intros [H|H]%elem_of_app.
  - destruct ps as [|o oth]; [by apply elem_of_nil in H|].
    rewrite map_map in H. simpl in H. rewrite map_id in H.
    apply elem_of_cons in Hin as [[= -> -> ->]|Hin].
    + by apply NoDup_cons in Hps as [? _].
    + apply (Hdis original); [by right|].
      apply list_elem_of_In, in_concat. exists (original :: others).
      split; [|by left]. apply in_map_iff. exists (h, original :: others).
      split; [done|by apply list_elem_of_In].
  - apply elem_of_cons in Hin as [[= <- <-]|Hin].
    + apply (Hdis original); [by left|]. by apply duplicatesOf_elem_files.
    + by apply IH.
Qed.

Lemma large_not_duplicate now f original p :
  largeSuggestion now f ≠ duplicateSuggestion original p.
Proof. intros H. by apply (f_equal confidence) in H. Qed.

Lemma junk_not_duplicate now f original p :
  junkSuggestion now f ≠ duplicateSuggestion original p.
Proof. intros H. apply (f_equal ds_reason) in H. simpl in H. discriminate H. Qed.

Section GarbageMore.
Variables (cwd root : string) (sha : string → string).
Hypothesis root_resolved : resolvedDir root.

Local Abbreviation digest_ fs := (digest cwd root sha fs).

Lemma detectGarbage_parts now fs tree :
  wfInode fs = true →
  buildTree cwd root root fs = OK tree →
  let files := flattenFiles tree in
  NoDup (map path files)
  ∧ detectGarbage cwd root sha now fs
    = OK (flat_map (perFile now) files
          ++ duplicatesOf (groupsOf cwd root sha fs files []))
  ∧ NoDup (map ds_file (flat_map (perFile now) files
                        ++ duplicatesOf (groupsOf cwd root sha fs files []))).
Proof.
  intros Hwf Htree files.
  destruct (detectGarbage_ok cwd root sha root_resolved now fs tree Hwf Htree)
    as (Hscan & Hnd & ->).
  split_and!; [done|by apply detectIn_ok|].
  by apply (submseteq_NoDup _ _ (detect_files_submseteq cwd root sha fs now files)).
Qed.

(** X8. In every duplicate suggestion the file named as the original is a
    file of the snapshot that is suggested by no rule, so following
    every suggestion still leaves a copy; the duplicate is another
    file of the snapshot with the same digest, and neither of the two
    is a junk artifact. *)
Theorem duplicate_originals_are_kept (now : Z) (fs : FS) (tree : FileNode) :
  wfInode fs = true →
  buildTree cwd root root fs = OK tree →
  ∃ s, detectGarbage cwd root sha now fs = OK s
     ∧ ∀ original p,
         duplicateSuggestion original p ∈ s →
         (original ∉ map ds_file s)
         ∧ original ≠ p
         ∧ ∃ f0 f, f0 ∈ flattenFiles tree ∧ f ∈ flattenFiles tree
             ∧ path f0 = original ∧ path f = p
             ∧ digest_ fs f0 = digest_ fs f
             ∧ isJunk f0 = false ∧ isJunk f = false.
Proof.
  intros Hwf Htree.
  destruct (detectGarbage_parts now fs tree Hwf Htree) as (Hnd & Hs & Hnds).
  set (files := flattenFiles tree) in *.
  set (g := groupsOf cwd root sha fs files []) in *.
  eexists. split; [exact Hs|]. intros original p Hin.
  assert (duplicateSuggestion original p ∈ duplicatesOf g) as Hdup.
  { apply elem_of_app in Hin as [Hin|Hin]; [|done].
    apply list_elem_of_In, in_flat_map in Hin as (f & _ & Hf).
    unfold perFile in Hf. destruct (isJunk f).
    - destruct Hf as [Hf|[]]. by apply junk_not_duplicate in Hf.
    - destruct (isStaleLarge now f); [|done].
      destruct Hf as [Hf|[]]. by apply large_not_duplicate in Hf. }
  apply duplicatesOf_elem in Hdup as (h & o & others & p' & Hg & Hp' & Heq).
  assert (p = p') as <- by exact (f_equal ds_file Heq).
  assert (original = o) as <-.
  { apply (f_equal ds_reason) in Heq. simpl in Heq.
    apply (f_equal Str.chars) in Heq. rewrite !chars_app in Heq.
    apply app_inv_head, app_inv_tail in Heq.
    by rewrite <- (of_chars_chars original), Heq, of_chars_chars. }
  destruct (groupsOf_elem cwd root sha fs files [] h _ Hg original)
    as [(ps0 & H0 & _)|(f0 & Hf0 & He0 & Hd0 & Hp0)];
    [by left|by apply elem_of_nil in H0|].
  destruct (groupsOf_elem cwd root sha fs files [] h _ Hg p)
    as [(ps0 & H0 & _)|(f & Hf & He & Hd & Hp)];
    [by right|by apply elem_of_nil in H0|].
  assert (NoDup (concat (map snd g))) as Hgroups.
  { unfold g. rewrite concat_groupsOf. simpl.
    apply (submseteq_NoDup _ (map path files)); [|done].
    apply (fmap_submseteq path), sublist_submseteq, sublist_filter. }
  assert (original ∉ map ds_file (flat_map (perFile now) files
                                  ++ duplicatesOf g)) as Hkept.
  { rewrite map_app, perFile_files. intros [H|H]%elem_of_app.
    - apply list_elem_of_fmap in H as (f' & Heq' & Hf').
      apply list_elem_of_filter in Hf' as [Hper Hf'].
      assert (f' = f0) as ->.
      { apply list_elem_of_lookup in Hf' as [i Hi], Hf0 as [j Hj].
        assert (i = j) as ->; [|congruence].
        apply (NoDup_lookup _ i j original Hnd);
          change (map path files) with (path <$> files);
          rewrite list_lookup_fmap.
        - rewrite Hi. simpl. by rewrite Heq'.
        - rewrite Hj. simpl. by rewrite Hp0. }
      by apply (eligible_not_perFile now f0).
    - by apply (original_not_duplicated g h original others Hgroups Hg). }
  split_and!; [done| |].
  - intros ->. apply Hkept. by apply (list_elem_of_fmap_2 ds_file) in Hin.
  - exists f0, f. apply eligible_spec in He0 as [Hj0 _], He as [Hj _].
    split_and!; try done. congruence.
Qed.

Lemma path_not_filtered (P : FileNode → Prop) `{!∀ f, Decision (P f)}
    (files : list FileNode) f :
  NoDup (map path files) → f ∈ files → ¬ P f →
  path f ∉ map path (filter P files).
Proof.
  intros Hnd Hf HP Hin.
  apply list_elem_of_fmap in Hin as (f' & Heq & Hf').
  apply list_elem_of_filter in Hf' as [HP' Hf'].
  assert (f' = f) as ->; [|done].
  apply list_elem_of_lookup in Hf' as [i Hi], Hf as [j Hj].
  assert (i = j) as ->; [|congruence].
  apply (NoDup_lookup _ i j (path f) Hnd);
    change (map path files) with (path <$> files); rewrite list_lookup_fmap.
  - rewrite Hi. simpl. by rewrite Heq.
  - by rewrite Hj.
Qed.

(** X9. The rule for large files that were not read for long, for a file
    of the snapshot that is no junk artifact: larger than 50 MiB and
    last read more than 90 days ago, it gets one suggestion, with
    confidence medium and not safe to delete; empty or of 20 MiB and
    more, and not both so large and so long unread, it gets no
    suggestion at all. *)
Theorem large_unread_file_is_flagged_not_deleted
    (now : Z) (fs : FS) (tree f : FileNode) (z : Z) :
  wfInode fs = true →
  buildTree cwd root root fs = OK tree →
  f ∈ flattenFiles tree → isJunk f = false → size f = Some z →
  ∃ s, detectGarbage cwd root sha now fs = OK s
     ∧ (50 * 1024 * 1024 < z → 90 < ageDays now f →
        filter (λ sg, ds_file sg = path f) s
        = [ {| ds_file := path f;
               ds_reason := "Large file (" +:+ toFixed1_MiB z
                            +:+ " MB) rarely accessed ("
                            +:+ Str.of_Z (ageDays now f) +:+ " days)";
               confidence := medium;
               sizeBytes := Some z;
               safeToDelete := false |} ])
     ∧ (z = 0 ∨ 20 * 1024 * 1024 ≤ z →
        z ≤ 50 * 1024 * 1024 ∨ ageDays now f ≤ 90 →
        filter (λ sg, ds_file sg = path f) s = []).
Proof.
  intros Hwf Htree Hf Hjunk Hsize.
  destruct (detectGarbage_parts now fs tree Hwf Htree) as (Hnd & Hs & Hnds).
  set (files := flattenFiles tree) in *.
  set (g := groupsOf cwd root sha fs files []) in *.
  eexists. split; [exact Hs|]. split.
  - intros Hbig Hold.
    assert (isStaleLarge now f = true) as Hlarge.
    { unfold isStaleLarge, truthyZ, MiB. rewrite Hsize. simpl.
      rewrite !andb_true_iff, negb_true_iff, Z.eqb_neq, !Z.ltb_lt. lia. }
    assert (largeSuggestion now f
            = {| ds_file := path f;
                 ds_reason := "Large file (" +:+ toFixed1_MiB z
                              +:+ " MB) rarely accessed ("
                              +:+ Str.of_Z (ageDays now f) +:+ " days)";
                 confidence := medium;
                 sizeBytes := Some z;
                 safeToDelete := false |}) as <-
      by (unfold largeSuggestion; by rewrite Hsize).
    apply (filter_same_key ds_file _ (largeSuggestion now f)); [done|].
    apply elem_of_app. left. apply list_elem_of_In, in_flat_map. exists f.
    split; [by apply list_elem_of_In|].
    unfold perFile. rewrite Hjunk, Hlarge. by left.
  - intros Hsmall Hnot. apply filter_key_absent.
    rewrite map_app, perFile_files. intros [H|H]%elem_of_app.
    + revert H. apply path_not_filtered; [done|done|].
      rewrite Hjunk. simpl. unfold isStaleLarge, truthyZ, MiB. rewrite Hsize. simpl.
      rewrite !andb_true_iff, !Z.ltb_lt. lia.
    + apply duplicatesOf_elem_files in H. unfold g in H.
      rewrite concat_groupsOf in H. simpl in H. revert H.
      apply path_not_filtered; [done|done|].
      rewrite eligible_spec. intros (_ & z' & Hz' & ? & ?).
      rewrite Hsize in Hz'. injection Hz' as <-. lia.
Qed.
End GarbageMore.


(** ** More on the agent *)

Lemma move_of_json_of_move m : move_of_json (Json.of_move m) = Some m.
Proof. by destruct m. Qed.

Lemma mapM_move_of_json ms : mapM move_of_json (map Json.of_move ms) = Some ms.
Proof.
  induction ms as [|m ms IH]; [done|].
  cbn [map mapM]. rewrite move_of_json_of_move. simpl. by rewrite IH.
Qed.

(** X10. The agent is shown the first 500 files and no more: its answer
    for a list of files is its answer for the first 500 of them, so
    whatever comes after them changes nothing. *)
Theorem agent_sees_the_first_500_files w (files : list FileNode) instructions :
  Agent.tryLlmOrganize w files instructions
  = Agent.tryLlmOrganize w (take 500 files) instructions
  ∧ ∀ more, (500 ≤ length files)%nat →
      Agent.tryLlmOrganize w (files ++ more) instructions
      = Agent.tryLlmOrganize w files instructions.
Proof.
  assert (∀ l l', take 500 l = take 500 l' →
            Agent.tryLlmOrganize w l instructions
            = Agent.tryLlmOrganize w l' instructions) as Hsame.
  { intros l l' Heq.
    unfold Agent.tryLlmOrganize, Agent.organizer_tier, Agent.model_tier.
    by rewrite Heq. }
  split.
  - apply Hsame. by rewrite take_take.
  - intros more Hlen. apply Hsame. by rewrite take_app_le.
Qed.

(** X11. With neither an organizer nor a model key configured (unset or
    empty), the plan is the plan of the heuristic tier for all files of
    the snapshot, and what [fetch] and [invoke] would answer plays no
    part. *)
Theorem without_credentials_the_heuristic_tier_decides
    cwd root w instructions (fs : FS) tree :
  LLM_BASE_URL w = None ∨ LLM_BASE_URL w = Some "" →
  GOOGLE_API_KEY w = None ∨ GOOGLE_API_KEY w = Some "" →
  buildTree cwd root root fs = OK tree →
  Agent.tryLlmOrganize w (flattenFiles tree) instructions = None
  ∧ createPlanFromInstructions cwd root w instructions fs
    = OK (FromHeuristic (heuristicPlan (flattenFiles tree) instructions)).
Proof.
  intros Hurl Hkey Htree.
  assert (Agent.tryLlmOrganize w (flattenFiles tree) instructions = None) as Hnone.
  { unfold Agent.tryLlmOrganize, Agent.organizer_tier, Agent.model_tier.
    by destruct Hurl as [-> | ->], Hkey as [-> | ->]. }
  split; [done|].
  unfold createPlanFromInstructions. rewrite Htree. simpl. by rewrite Hnone.
Qed.

(** X12. The organizer tier decides whenever it answers with [res.ok] and a
    body that parses to something other than [null]: its [moves], if
    truthy, are passed on as received, unchecked, and [[]] stands in
    for a falsy or missing [moves]; the model is not asked.  When the
    request is rejected, the status is not ok, the body does not parse
    or parses to [null], the model tier is what decides. *)
Theorem organizer_decides_or_falls_through w (files : list FileNode) instructions llmBase :
  Agent.env_set (LLM_BASE_URL w) = Some llmBase →
  let answer := fetch w (llmBase +:+ "/v1/organize") instructions
                      (map (summarize (Date_now w)) (take 500 files)) in
  (∀ status body data,
     answer = FetchResponse true status body →
     JSON_parse w body = Some data → data ≠ JNull →
     ∃ mv, Json.get data "moves" = OK mv
       ∧ Agent.tryLlmOrganize w files instructions
         = Some {| ap_moves := match mv with
                               | Some v => if Json.truthy v then v else JArr []
                               | None => JArr []
                               end;
                   ap_deletions := [] |})
  ∧ (answer = FetchRejected
     ∨ (∃ status body, answer = FetchResponse false status body)
     ∨ (∃ status body, answer = FetchResponse true status body
          ∧ (JSON_parse w body = None ∨ JSON_parse w body = Some JNull)) →
     Agent.tryLlmOrganize w files instructions
     = Agent.model_tier w files instructions).
Proof.
  intros Hurl answer. split.
  - intros status body data Hans Hparse Hnull.
    unfold Agent.tryLlmOrganize, Agent.organizer_tier. rewrite Hurl.
    fold answer. rewrite Hans. simpl. rewrite Hparse.
    destruct data as [|b|q|s|items|fields]; try done; simpl;
      try (by exists None).
    exists (assoc "moves" fields). split; [done|].
    by destruct (assoc "moves" fields).
  - intros Hfail.
    unfold Agent.tryLlmOrganize, Agent.organizer_tier. rewrite Hurl. fold answer.
    destruct Hfail as [->|[(status & body & ->)|(status & body & -> & Hparse)]];
      [done|done|].
    simpl. by destruct Hparse as [-> | ->].
Qed.

(** X13. The model tier takes all moves of an answer or none.  When the
    extracted JSON is an object whose [moves] is an array: if every
    element has string fields [from], [to] and [reason], the plan has
    exactly these moves, in order, and is a typed plan; if one element
    does not, the plan is empty, the other elements are dropped with
    it. *)
Theorem model_tier_takes_all_moves_or_none
    w (files : list FileNode) instructions apiKey raw fields items :
  Agent.env_set (LLM_BASE_URL w) = None →
  Agent.env_set (GOOGLE_API_KEY w) = Some apiKey →
  invoke w (default "gemini-1.5-flash" (GEMINI_MODEL w)) instructions
         (map (summarize (Date_now w)) (take 500 files)) = Some raw →
  Agent.extractJson (JSON_parse w) (Agent.content_text raw) = JObj fields →
  assoc "moves" fields = Some (JArr items) →
  (∀ ms, mapM move_of_json items = Some ms →
     ∃ plan, Agent.tryLlmOrganize w files instructions = Some plan
       ∧ plan_of_agent plan = Some {| moves := ms; deletions := [] |})
  ∧ (mapM move_of_json items = None →
     Agent.tryLlmOrganize w files instructions = Some emptyAgentPlan).
Proof.
  intros Hurl Hkey Hinvoke Hjson Hmoves.
  assert (∀ parsed, mapM move_of_json items = parsed →
            Agent.tryLlmOrganize w files instructions
            = Some {| ap_moves := JArr (map Json.of_move (default [] parsed));
                      ap_deletions := [] |}) as Hplan.
  { intros parsed Hparsed.
    unfold Agent.tryLlmOrganize, Agent.organizer_tier, Agent.model_tier.
    rewrite Hurl, Hkey, Hinvoke, Hjson. simpl. rewrite Hmoves, Hparsed.
    by destruct parsed. }
  split.
  - intros ms Hms. eexists. split; [by apply Hplan|].
    unfold plan_of_agent. simpl. by rewrite mapM_move_of_json.
  - intros Hnone. by rewrite (Hplan None Hnone).
Qed.


(** ** A fenced answer *)

Lemma length_toLowerCase s : String.length (Str.toLowerCase s) = String.length s.
Proof. induction s as [|c s IH]; simpl; [done|]. by rewrite IH. Qed.

Lemma toLowerCase_app a b :
  Str.toLowerCase (a +:+ b) = Str.toLowerCase a +:+ Str.toLowerCase b.
Proof.
  induction a as [|c a IH]; [done|].
  rewrite append_cons. simpl. by rewrite IH, append_cons.
Qed.

Lemma lower_char_backquote c :
  Str.ceqb c "`" = false → Str.ceqb (Str.lower_char c) "`" = false.
Proof.
  unfold Str.ceqb. rewrite !bool_decide_eq_false. intros Hc Hl. apply Hc.
  revert Hl. unfold Str.lower_char.
  destruct (_ && _)%nat eqn:Hup; [|done].
  apply andb_true_iff in Hup as [H1%Nat.leb_le H2%Nat.leb_le].
  intros Hl. apply (f_equal nat_of_ascii) in Hl.
  rewrite nat_ascii_embedding in Hl by lia.
  assert (nat_of_ascii "`"%char = 96%nat) as E by reflexivity.
  rewrite E in Hl. lia.
Qed.

Lemma noBackquote_toLowerCase s :
  noBackquote s = true → noBackquote (Str.toLowerCase s) = true.
Proof.
  unfold noBackquote, Str.chars. induction s as [|c s IH]; simpl; [done|].
  rewrite !andb_true_iff, !negb_true_iff. intros [Hc Hs].
  split; [by apply lower_char_backquote|by apply IH].
Qed.

Lemma indexOf_unfold s p :
  Str.indexOf s p
  = if Str.startsWith s p then Some 0%nat
    else match s with
         | EmptyString => None
         | String _ s' => S <$> Str.indexOf s' p
         end.
Proof. by destruct s. Qed.

(** The first occurrence of a needle that starts with a backquote,
    behind a text that has none. *)
Lemma indexOf_behind pre needle rest :
  noBackquote pre = true → Str.startsWith needle "`" = true →
  Str.indexOf (pre +:+ needle +:+ rest) needle = Some (String.length pre).
Proof.
  intros Hpre Hneedle. induction pre as [|c pre IH].
  - change ("" +:+ needle +:+ rest) with (needle +:+ rest).
    by rewrite indexOf_unfold, startsWith_app.
  - unfold noBackquote, Str.chars in Hpre. simpl in Hpre.
    apply andb_true_iff in Hpre as [Hc Hpre]. apply negb_true_iff in Hc.
    rewrite append_cons, indexOf_unfold.
    assert (Str.startsWith (String c (pre +:+ needle +:+ rest)) needle = false) as ->.
    { destruct needle as [|d needle]; [done|]. simpl in Hneedle |- *.
      apply andb_true_iff in Hneedle as [Hd _].
      unfold Str.ceqb in *. apply bool_decide_eq_true in Hd as <-.
      apply bool_decide_eq_false in Hc.
      rewrite bool_decide_eq_false_2; [done|]. congruence. }
    rewrite IH by done. done.
Qed.

Lemma drop_app_length_str a b : Str.drop (String.length a) (a +:+ b) = b.
Proof. induction a as [|c a IH]; [by destruct b|]. by rewrite append_cons. Qed.

Lemma take_app_length_str a b : Str.take (String.length a) (a +:+ b) = a.
Proof.
  induction a as [|c a IH]; [by destruct b|].
  rewrite append_cons. simpl. by rewrite IH.
Qed.

Lemma length_app_str a b :
  String.length (a +:+ b) = (String.length a + String.length b)%nat.
Proof. induction a as [|c a IH]; [done|]. rewrite append_cons. simpl. by rewrite IH. Qed.

Lemma skip_spaces_app ws s :
  allSpaces ws = true →
  Agent.skip_spaces (ws +:+ s) = Agent.skip_spaces s.
Proof.
  unfold allSpaces, Str.chars. induction ws as [|c ws IH]; simpl; [done|].
  intros [Hc Hws]%andb_true_iff. by rewrite Hc, IH.
Qed.

(** The capture of the fence expression on an answer that has one
    fence: what is between the white space behind the opening fence
    and the closing fence. *)
Lemma match_codeBlock_fenced pre fence ws c body post :
  noBackquote pre = true → Str.toLowerCase fence = "```json" →
  allSpaces ws = true → Agent.is_space c = false →
  noBackquote (String c body) = true →
  Agent.match_codeBlock
    (pre +:+ fence +:+ ws +:+ String c body +:+ "```" +:+ post)
  = Some (String c body).
Proof.
  intros Hpre Hfence Hws Hc Hbody. unfold Agent.match_codeBlock.
  rewrite !toLowerCase_app, Hfence.
  rewrite indexOf_behind by (by apply noBackquote_toLowerCase || done).
  simpl. rewrite length_toLowerCase.
  assert (String.length fence = 7%nat) as Hlen
    by (by rewrite <- (length_toLowerCase fence), Hfence).
  replace (String.length pre + 7)%nat with (String.length (pre +:+ fence))
    by (by rewrite length_app_str, Hlen).
  rewrite <- app_assoc_str, drop_app_length_str.
  rewrite skip_spaces_app by done.
  rewrite append_cons. cbn [Agent.skip_spaces]. rewrite Hc, <- append_cons.
  change (String c body +:+ "```" +:+ post)
    with (String c body +:+ Agent.fence_close +:+ post).
  rewrite indexOf_behind by done. simpl.
  by rewrite take_app_length_str.
Qed.

(** X14. An answer of the model that wraps its JSON in a [```json] fence
    is read: when the whole answer is no JSON, the text before the
    fence and the fenced text have no backquote, and the fenced text
    parses, [extractJson] returns what the fenced text parses to,
    whatever comes behind the closing fence. *)
Theorem extractJson_reads_a_fenced_answer
    (parse : string → option json) pre fence ws c body post v :
  noBackquote pre = true → Str.toLowerCase fence = "```json" →
  allSpaces ws = true → Agent.is_space c = false →
  noBackquote (String c body) = true →
  let text := pre +:+ fence +:+ ws +:+ String c body +:+ "```" +:+ post in
  parse text = None → parse (String c body) = Some v →
  Agent.extractJson parse text = v.
Proof.
  intros Hpre Hfence Hws Hc Hbody text Hwhole Hparse.
  unfold Agent.extractJson, Agent.try_whole, Agent.try_codeBlock.
  rewrite Hwhole. unfold text. rewrite match_codeBlock_fenced by done.
  by rewrite Hparse.
Qed.

(** ** Searching a text *)

Lemma append_nil_r s : s +:+ "" = s.
Proof. induction s as [|c s IH]; [done|]. by rewrite append_cons, IH. Qed.

Lemma startsWith_spec s p :
  Str.startsWith s p = true ↔ ∃ post, s = p +:+ post.
Proof.
  split; [|intros [post ->]; apply startsWith_app].
  revert s. induction p as [|c p IH]; intros s; [by exists s|].
  destruct s as [|d s]; simpl; [done|].
  intros [Hc Hp]%andb_true_iff. apply bool_decide_eq_true in Hc as ->.
  destruct (IH _ Hp) as [post ->]. by exists post.
Qed.

Lemma append_inj_length a1 b1 a2 b2 :
  a1 +:+ b1 = a2 +:+ b2 → String.length a1 = String.length a2 →
  a1 = a2 ∧ b1 = b2.
Proof.
  revert a2. induction a1 as [|c a1 IH]; intros [|d a2]; try done.
  rewrite !append_cons. intros [= -> H] [= Hlen].
  by destruct (IH _ H Hlen) as [-> ->].
Qed.

(** Two ways to cut a text: the shorter head is a head of the longer. *)
Lemma append_eq_split a1 b1 a2 b2 :
  a1 +:+ b1 = a2 +:+ b2 → (String.length a1 ≤ String.length a2)%nat →
  ∃ mid, a2 = a1 +:+ mid ∧ b1 = mid +:+ b2.
Proof.
  revert a2. induction a1 as [|c a1 IH]; intros a2.
  - intros H _. by exists a2.
  - destruct a2 as [|d a2]; [simpl; lia|].
    rewrite !append_cons. intros [= -> H] Hlen. simpl in Hlen.
    destruct (IH _ H ltac:(lia)) as (mid & -> & ->). by exists mid.
Qed.

Lemma take_drop_str n s : Str.take n s +:+ Str.drop n s = s.
Proof.
  revert s. induction n as [|n IH]; intros s; [done|].
  destruct s as [|c s]; [done|]. simpl. by rewrite append_cons, IH.
Qed.

Lemma length_take_str n s :
  (n ≤ String.length s)%nat → String.length (Str.take n s) = n.
Proof.
  revert s. induction n as [|n IH]; intros s Hn; [done|].
  destruct s as [|c s]; simpl in *; [lia|]. rewrite IH; lia.
Qed.

(** [s.indexOf(p)] is where [p] occurs first. *)
Lemma indexOf_spec s p i :
  Str.indexOf s p = Some i ↔
  ∃ pre post, s = pre +:+ p +:+ post ∧ String.length pre = i
    ∧ ∀ pre' post', s = pre' +:+ p +:+ post' → (i ≤ String.length pre')%nat.
Proof.
  split.
  - revert i. induction s as [|c s IH]; intros i; rewrite indexOf_unfold.
    + destruct (Str.startsWith "" p) eqn:Hp; [|done].
      intros [= <-]. apply startsWith_spec in Hp as [post Hpost].
      exists "", post. split_and!; [done|done|]. intros; lia.
    + destruct (Str.startsWith (String c s) p) eqn:Hp.
      * intros [= <-]. apply startsWith_spec in Hp as [post Hpost].
        exists "", post. split_and!; [done|done|]. intros; lia.
      * destruct (Str.indexOf s p) as [i'|] eqn:Hi; [|done].
        intros [= <-]. destruct (IH i' eq_refl) as (pre & post & -> & <- & Hmin).
        exists (String c pre), post. split_and!; [done|done|].
        intros [|d pre'] post' Heq.
        { change ("" +:+ p +:+ post') with (p +:+ post') in Heq.
          rewrite Heq, startsWith_app in Hp. done. }
        rewrite !append_cons in Heq. injection Heq as _ Heq.
        simpl. apply Hmin in Heq. lia.
  - intros (pre & post & -> & <- & Hmin).
    induction pre as [|c pre IH].
    + change ("" +:+ p +:+ post) with (p +:+ post).
      by rewrite indexOf_unfold, startsWith_app.
    + rewrite append_cons, indexOf_unfold.
      destruct (Str.startsWith _ p) eqn:Hp.
      * apply startsWith_spec in Hp as [post' Hpost'].
        specialize (Hmin "" post'). rewrite append_cons in Hmin.
        specialize (Hmin Hpost'). simpl in Hmin. lia.
      * rewrite IH; [done|]. intros pre' post' Heq.
        specialize (Hmin (String c pre') post'). rewrite !append_cons in Hmin.
        rewrite Heq in Hmin. specialize (Hmin eq_refl). simpl in Hmin. lia.
Qed.

(** The first and the last occurrence of a character. *)
Lemma indexOf_char_spec s c i :
  Str.indexOf s (String c "") = Some i ↔
  ∃ pre post, s = pre +:+ String c post ∧ String.length pre = i
    ∧ c ∉ Str.chars pre.
Proof.
  rewrite indexOf_spec. split.
  - intros (pre & post & -> & <- & Hmin). exists pre, post.
    split_and!; [done|done|].
    intros Hin. unfold Str.chars in Hin.
    apply list_elem_of_In, in_split in Hin as (l1 & l2 & Hl).
    assert (pre = string_of_list_ascii l1 +:+ String c (string_of_list_ascii l2))
      as Hpre.
    { rewrite <- (string_of_list_ascii_of_string pre), Hl.
      clear. induction l1 as [|x l1 IH]; [done|]. simpl. by rewrite IH. }
    specialize (Hmin (string_of_list_ascii l1)
                  (string_of_list_ascii l2 +:+ String c "" +:+ post)).
    assert (String.length (string_of_list_ascii l1) < String.length pre)%nat as Hlt.
    { rewrite Hpre, length_app_str. simpl. lia. }
    assert (pre +:+ String c "" +:+ post
            = string_of_list_ascii l1 +:+ String c ""
              +:+ string_of_list_ascii l2 +:+ String c "" +:+ post) as Heq.
    { rewrite Hpre at 1. by rewrite app_assoc_str. }
    specialize (Hmin Heq). lia.
  - intros (pre & post & -> & <- & Hno). exists pre, post.
    split_and!; [done|done|].
    intros pre' post' Heq.
    destruct (decide (String.length pre' < String.length pre)%nat) as [Hlt|]; [|lia].
    exfalso. apply Hno.
    symmetry in Heq.
    destruct (append_eq_split _ _ _ _ Heq ltac:(lia)) as (mid & -> & Hmid).
    destruct mid as [|d mid]; [rewrite append_nil_r in Hlt; lia|].
    change (String c "" +:+ post') with (String c post') in Hmid.
    rewrite append_cons in Hmid. injection Hmid as -> _.
    rewrite chars_app. apply elem_of_app. right. unfold Str.chars. simpl.
    apply list_elem_of_here.
Qed.

Lemma lastIndexOfChar_None s c :
  Str.lastIndexOfChar s c = None ↔ c ∉ Str.chars s.
Proof.
  unfold Str.chars. induction s as [|d s IH]; simpl.
  - split; [intros _; apply not_elem_of_nil|done].
  - destruct (Str.lastIndexOfChar s c) as [i|].
    + split; [done|]. intros Hno. apply not_elem_of_cons in Hno as [_ Hno].
      by apply IH in Hno.
    + unfold Str.ceqb. destruct (decide (c = d)) as [->|Hne].
      * rewrite bool_decide_eq_true_2 by done. split; [done|].
        intros Hno. by apply not_elem_of_cons in Hno as [Hno _].
      * rewrite bool_decide_eq_false_2 by done. split; [|done]. intros _.
        apply not_elem_of_cons. split; [done|]. by apply IH.
Qed.

Lemma lastIndexOfChar_spec s c j :
  Str.lastIndexOfChar s c = Some j ↔
  ∃ pre post, s = pre +:+ String c post ∧ String.length pre = j
    ∧ c ∉ Str.chars post.
Proof.
  split.
  - revert j. induction s as [|d s IH]; intros j; simpl; [done|].
    destruct (Str.lastIndexOfChar s c) as [i|] eqn:Hi.
    + intros [= <-]. destruct (IH i eq_refl) as (pre & post & -> & <- & Hno).
      by exists (String d pre), post.
    + unfold Str.ceqb. destruct (bool_decide (c = d)) eqn:Hc; [|done].
      apply bool_decide_eq_true in Hc as <-. intros [= <-].
      exists "", s. split_and!; [done|done|]. by apply lastIndexOfChar_None.
  - intros (pre & post & -> & <- & Hno).
    induction pre as [|d pre IH].
    + change ("" +:+ String c post) with (String c post). simpl.
      rewrite (proj2 (lastIndexOfChar_None post c) Hno).
      unfold Str.ceqb. by rewrite bool_decide_eq_true_2.
    + rewrite append_cons. simpl. by rewrite IH.
Qed.

Lemma skip_spaces_fixed s :
  (∀ c rest, s = String c rest → Agent.is_space c = false) →
  Agent.skip_spaces s = s.
Proof.
  destruct s as [|c s]; [done|]. intros H. simpl. by rewrite (H c s eq_refl).
Qed.

(** What [skip_spaces] skips is white space, and all of it. *)
Lemma skip_spaces_spec s :
  ∃ ws, s = ws +:+ Agent.skip_spaces s ∧ allSpaces ws = true
    ∧ ∀ c rest, Agent.skip_spaces s = String c rest → Agent.is_space c = false.
Proof.
  induction s as [|c s (ws & Hs & Hws & Hrest)]; simpl.
  - by exists "".
  - destruct (Agent.is_space c) eqn:Hc.
    + exists (String c ws). split_and!; [|by unfold allSpaces in *; simpl; rewrite Hc|done].
      rewrite append_cons. by f_equal.
    + exists "". split_and!; [done|done|]. by intros ? ? [= <- _].
Qed.

(** ** The regions of an answer *)

(** A cut of the lower-case text is a cut of the text. *)
Lemma toLowerCase_cut text a b :
  Str.toLowerCase text = a +:+ b →
  ∃ a' b', text = a' +:+ b' ∧ Str.toLowerCase a' = a ∧ Str.toLowerCase b' = b.
Proof.
  intros Heq.
  exists (Str.take (String.length a) text), (Str.drop (String.length a) text).
  split; [by rewrite take_drop_str|].
  apply append_inj_length.
  - by rewrite <- toLowerCase_app, take_drop_str.
  - rewrite length_toLowerCase. apply length_take_str.
    rewrite <- (length_toLowerCase text), Heq, length_app_str. lia.
Qed.

Lemma fence_length fence :
  Str.toLowerCase fence = "```json" → String.length fence = 7%nat.
Proof. intros H. by rewrite <- (length_toLowerCase fence), H. Qed.

(** The capture of the fence expression is the contents of the first
    fence, where they are not empty. *)
Lemma fencedBlock_spec text body :
  fencedBlock text = Some body ↔ fencedBody text body.
Proof.
  unfold fencedBlock, Agent.match_codeBlock. split.
  - destruct (Str.indexOf (Str.toLowerCase text) Agent.fence_open) as [i|] eqn:Hi;
      cbn [mbind option_bind]; [|done].
    set (rest := Str.drop (i + String.length Agent.fence_open) text).
    destruct (Str.indexOf (Agent.skip_spaces rest) Agent.fence_close) as [j|] eqn:Hj;
      cbn [mbind option_bind]; [|done].
    destruct (Str.truthy _) eqn:Hbody; [|done]. intros [= <-].
    apply indexOf_spec in Hi as (lpre & lpost & Hlow & Hlen & Hmin).
    apply indexOf_spec in Hj as (b & post & Hrest & <- & Hminb).
    destruct (toLowerCase_cut _ _ _ Hlow) as (pre & tail & Htext & Hpre & Htail).
    destruct (toLowerCase_cut _ _ _ Htail) as (fence & rest' & Htail' & Hfence & _).
    assert (String.length pre = i) as Hi
      by (by rewrite <- (length_toLowerCase pre), Hpre).
    assert (rest = rest') as Hrest'.
    { unfold rest. rewrite Htext, Htail'.
      replace (i + String.length Agent.fence_open)%nat
        with (String.length (pre +:+ fence))
        by (rewrite length_app_str, (fence_length _ Hfence), Hi; reflexivity).
      by rewrite <- app_assoc_str, drop_app_length_str. }
    destruct (skip_spaces_spec rest) as (ws & Hws & Hspaces & Hfirst).
    rewrite Hrest in Hbody, Hws, Hfirst |- *.
    change Agent.fence_close with "```" in *.
    rewrite take_app_length_str in Hbody |- *.
    exists pre, fence, ws, post. split_and!.
    + by rewrite Htext, Htail', <- Hrest', Hws at 1.
    + done.
    + intros pre' fence' post' Heq Hf'. rewrite Hi.
      rewrite <- (length_toLowerCase pre'). apply (Hmin _ (Str.toLowerCase post')).
      by rewrite Heq, !toLowerCase_app, Hf'.
    + done.
    + done.
    + intros body' post' Heq. apply (Hminb body' post'). by rewrite Hrest.
    + unfold Str.truthy in Hbody. apply negb_true_iff in Hbody.
      by apply Str_eqb_neq in Hbody.
  - intros (pre & fence & ws & post & -> & Hfence & Hmin & Hws & Hfirst & Hminb & Hne).
    assert (Str.indexOf
              (Str.toLowerCase (pre +:+ fence +:+ ws +:+ body +:+ "```" +:+ post))
              Agent.fence_open = Some (String.length pre)) as ->.
    { apply indexOf_spec.
      exists (Str.toLowerCase pre),
        (Str.toLowerCase (ws +:+ body +:+ "```" +:+ post)).
      split_and!.
      - by rewrite !toLowerCase_app, Hfence.
      - apply length_toLowerCase.
      - intros lpre lpost Hlow.
        destruct (toLowerCase_cut _ _ _ Hlow) as (pre' & tail & Htext & Hpre & Htail).
        destruct (toLowerCase_cut _ _ _ Htail) as (fence' & post' & -> & Hf' & _).
        rewrite <- Hpre, length_toLowerCase. by apply (Hmin pre' fence' post'). }
    cbn [mbind option_bind].
    replace (String.length pre + String.length Agent.fence_open)%nat
      with (String.length (pre +:+ fence))
      by (rewrite length_app_str, (fence_length _ Hfence); reflexivity).
    rewrite <- app_assoc_str, drop_app_length_str.
    rewrite skip_spaces_app, skip_spaces_fixed by done.
    assert (Str.indexOf (body +:+ "```" +:+ post) Agent.fence_close
            = Some (String.length body)) as ->.
    { apply indexOf_spec. exists body, post. split_and!; [done|done|].
      intros body' post'. apply Hminb. }
    cbn [mbind option_bind]. rewrite take_app_length_str.
    unfold Str.truthy. by rewrite (proj2 (Str_eqb_neq _ _) Hne).
Qed.

Lemma slice_middle pre mid post :
  Str.slice (String.length pre) (String.length pre + String.length mid) 
            (pre +:+ mid +:+ post) = mid.
Proof.
  unfold Str.slice. rewrite drop_app_length_str.
  replace (String.length pre + String.length mid - String.length pre)%nat
    with (String.length mid) by lia.
  apply take_app_length_str.
Qed.

Lemma braces_assoc pre mid post :
  pre +:+ "{" +:+ mid +:+ "}" +:+ post = pre +:+ ("{" +:+ mid +:+ "}") +:+ post.
Proof. by rewrite !app_assoc_str. Qed.

(** The slice between the braces is the widest [{...}] substring. *)
Lemma widestBraces_spec text region :
  widestBraces text = Some region ↔ bracedRegion text region.
Proof.
  unfold widestBraces, bracedRegion. split.
  - destruct (Str.indexOf text "{") as [i|] eqn:Hi; [|done].
    destruct (Str.lastIndexOfChar text "}") as [j|] eqn:Hj; [|done].
    destruct (i <? j)%nat eqn:Hij; [|done]. apply Nat.ltb_lt in Hij.
    intros [= <-].
    apply indexOf_char_spec in Hi as (pre & post1 & Htext & Hlen & Hno).
    apply lastIndexOfChar_spec in Hj as (pre2 & post & Htext2 & Hlen2 & Hno2).
    rewrite Htext in Htext2.
    destruct (append_eq_split _ _ _ _ Htext2 ltac:(lia)) as (mid & -> & Hmid).
    destruct mid as [|c mid]; [rewrite append_nil_r in Hlen2; lia|].
    rewrite append_cons in Hmid. injection Hmid as <- ->.
    exists pre, mid, post. split_and!; [| done | done |].
    + rewrite Htext. done.
    + rewrite Htext. rewrite <- Hlen, <- Hlen2.
      change (pre +:+ String "{" (mid +:+ String "}" post))
        with (pre +:+ "{" +:+ mid +:+ "}" +:+ post).
      rewrite braces_assoc.
      replace (String.length (pre +:+ String "{" mid) + 1)%nat
        with (String.length pre + String.length ("{" +:+ mid +:+ "}"))%nat.
      * apply slice_middle.
      * rewrite !length_app_str. simpl. rewrite ?length_app_str. simpl. lia.
  - intros (pre & mid & post & -> & Hno & Hno2 & ->).
    assert (Str.indexOf (pre +:+ "{" +:+ mid +:+ "}" +:+ post) "{"
            = Some (String.length pre)) as ->.
    { apply indexOf_char_spec. by exists pre, (mid +:+ "}" +:+ post). }
    assert (Str.lastIndexOfChar (pre +:+ "{" +:+ mid +:+ "}" +:+ post) "}"
            = Some (String.length (pre +:+ "{" +:+ mid))) as ->.
    { apply lastIndexOfChar_spec. exists (pre +:+ "{" +:+ mid), post.
      split_and!; [by rewrite !app_assoc_str|done|done]. }
    assert ((String.length pre <? String.length (pre +:+ "{" +:+ mid))%nat = true)
      as ->.
    { apply Nat.ltb_lt. rewrite !length_app_str. simpl. lia. }
    f_equal. rewrite braces_assoc.
    replace (String.length (pre +:+ "{" +:+ mid) + 1)%nat
      with (String.length pre + String.length ("{" +:+ mid +:+ "}"))%nat.
    + apply slice_middle.
    + rewrite !length_app_str. simpl. rewrite ?length_app_str. simpl. lia.
Qed.

Lemma parseRegion_spec parse (region : string → option string)
    (R : string → string → Prop) text :
  (∀ r, region text = Some r ↔ R text r) →
  (∀ v, parseRegion parse region text = Some v ↔ ∃ r, R text r ∧ parse r = Some v)
  ∧ (parseRegion parse region text = None ↔ ∀ r, R text r → parse r = None).
Proof.
  intros HR. unfold parseRegion. destruct (region text) as [r0|] eqn:Hr.
  - assert (∀ r, R text r → r = r0) as Huniq.
    { intros r Hr'. apply HR in Hr'. congruence. }
    split.
    + intros v. split.
      * intros Hv. exists r0. split; [by apply HR|done].
      * intros (r & Hr' & Hv). by rewrite <- (Huniq r Hr').
    + split.
      * intros Hnone r Hr'. by rewrite (Huniq r Hr').
      * intros Hall. apply Hall. by apply HR.
  - assert (∀ r, ¬ R text r) as Hno.
    { intros r Hr'. apply HR in Hr'. congruence. }
    split.
    + intros v. split; [done|]. intros (r & Hr' & _). by destruct (Hno r).
    + split; [|done]. intros _ r Hr'. by destruct (Hno r).
Qed.

(** [extractJson] returns the first success of the three regions. *)
Lemma extractJson_extracted parse text v :
  Agent.extractJson parse text = v ↔ extracted parse text v.
Proof.
  rewrite extractJson_firstSuccess. unfold extracted. cbn [firstSuccess].
  destruct (parseRegion_spec parse fencedBlock fencedBody text
              (fencedBlock_spec text)) as [Hf Hfn].
  destruct (parseRegion_spec parse widestBraces bracedRegion text
              (widestBraces_spec text)) as [Hb Hbn].
  unfold parseRegion at 1. unfold wholeResponse.
  destruct (parse text) as [v0|] eqn:Hwhole.
  { simpl. split; [intros <-; by left|]. intros [[= ->]|[? _]]; done. }
  destruct (parseRegion parse fencedBlock text) as [v1|] eqn:Hfenced.
  { simpl. split.
    - intros <-. right. split; [done|]. left. by apply Hf.
    - intros [|[_ [Hv|[Hnone _]]]]; [done| |].
      + apply Hf in Hv. congruence.
      + apply Hfn in Hnone. congruence. }
  destruct (parseRegion parse widestBraces text) as [v2|] eqn:Hbraces.
  { simpl. split.
    - intros <-. right. split; [done|]. right. split; [by apply Hfn|].
      left. by apply Hb.
    - intros [|[_ [Hv|[_ [Hv|[Hnone _]]]]]]; [done| | |].
      + apply Hf in Hv. congruence.
      + apply Hb in Hv. congruence.
      + apply Hbn in Hnone. congruence. }
  simpl. split.
  - intros <-. right. split; [done|]. right. split; [by apply Hfn|].
    right. split; [by apply Hbn|done].
  - intros [|[_ [Hv|[_ [Hv|[_ ->]]]]]]; [done| | |done].
    + apply Hf in Hv. congruence.
    + apply Hb in Hv. congruence.
Qed.

(** ** The shape of an answer *)

Lemma move_of_json_isMoveObject v :
  is_Some (move_of_json v) ↔ isMoveObject v.
Proof.
  unfold isMoveObject. split.
  - intros [m Hm]. destruct v as [| | | | |fields]; try done. simpl in Hm.
    destruct (assoc "from" fields) as [[| | |f| |]|] eqn:Hf; try done.
    destruct (assoc "to" fields) as [[| | |t| |]|] eqn:Ht; try done.
    destruct (assoc "reason" fields) as [[| | |r| |]|] eqn:Hr; try done.
    by exists fields, f, t, r.
  - intros (fields & f & t & r & -> & Hf & Ht & Hr). simpl.
    rewrite Hf, Ht, Hr. by eexists.
Qed.

(** The schema accepts exactly the answers of the expected shape. *)
Lemma schema_safeParse_expectedShape v :
  is_Some (Agent.schema_safeParse v) ↔ expectedShape v.
Proof.
  unfold expectedShape. split.
  - intros [r Hr]. destruct v as [| | | | |fields]; try done. simpl in Hr.
    exists fields. split; [done|].
    destruct (assoc "moves" fields) as [[| | | |items|]|] eqn:Hm; try done; [|by left].
    right. exists items. split; [done|].
    destruct (mapM move_of_json items) as [ms|] eqn:Hms; [|done].
    assert (is_Some (mapM move_of_json items)) as Hsome by (by rewrite Hms).
    apply mapM_is_Some in Hsome.
    eapply Forall_impl; [exact Hsome|]. intros x Hx. by apply move_of_json_isMoveObject.
  - intros (fields & -> & [Hm|(items & Hm & Hitems)]); simpl; rewrite Hm; [by eexists|].
    assert (is_Some (mapM move_of_json items)) as [ms Hms].
    { apply mapM_is_Some. eapply Forall_impl; [exact Hitems|].
      intros x Hx. by apply move_of_json_isMoveObject. }
    rewrite Hms. by eexists.
Qed.

Lemma model_tier_none w files instructions :
  Agent.model_tier w files instructions = None ↔
  Agent.env_set (GOOGLE_API_KEY w) = None
  ∨ invoke w (default "gemini-1.5-flash" (GEMINI_MODEL w)) instructions
           (map (summarize (Date_now w)) (take 500 files)) = None.
Proof.
  unfold Agent.model_tier.
  destruct (Agent.env_set (GOOGLE_API_KEY w)) as [apiKey|]; [|by split; [left|]].
  destruct (invoke w _ instructions _) as [raw|]; [|by split; [right|]].
  split; [done|]. by intros [|].
Qed.

Lemma model_tier_invalid w files instructions apiKey raw :
  Agent.env_set (GOOGLE_API_KEY w) = Some apiKey →
  invoke w (default "gemini-1.5-flash" (GEMINI_MODEL w)) instructions
         (map (summarize (Date_now w)) (take 500 files)) = Some raw →
  ¬ expectedShape (Agent.extractJson (JSON_parse w) (Agent.content_text raw)) →
  Agent.model_tier w files instructions = Some emptyAgentPlan.
Proof.
  intros Hkey Hinv Hshape. unfold Agent.model_tier. rewrite Hkey, Hinv.
  destruct (Agent.schema_safeParse _) as [r|] eqn:Hr.
  { destruct Hshape. apply schema_safeParse_expectedShape. by rewrite Hr. }
  by destruct (Json.truthy _).
Qed.

(** C9 (as amended). [extractJson] returns the first success of three
    regions of the answer, tried in this order: the whole text, the
    non-empty contents of the first [```json] fence, the widest [{...}]
    substring; it is [null] when none parses.  With no organizer
    configured: after an answer of the model whose extraction is [null]
    or not of the expected shape the model tier does not fall through,
    [tryLlmOrganize] returns the plan [{ moves: [], deletions: [] }]
    and so does [createPlanFromInstructions]; [tryLlmOrganize] returns
    [null] exactly when no key is set or the import or the call of the
    model throws, and only then is the plan the one of the heuristic
    tier. *)
Theorem extractJson_three_strategies_then_empty_plan
    cwd root w instructions fs tree :
  buildTree cwd root root fs = OK tree →
  Agent.env_set (LLM_BASE_URL w) = None →
  let files := flattenFiles tree in
  let answer := invoke w (default "gemini-1.5-flash" (GEMINI_MODEL w)) instructions
                       (map (summarize (Date_now w)) (take 500 files)) in
  (∀ text v,
     Agent.extractJson (JSON_parse w) text = v ↔ extracted (JSON_parse w) text v)
  ∧ (∀ apiKey raw,
       Agent.env_set (GOOGLE_API_KEY w) = Some apiKey → answer = Some raw →
       let json := Agent.extractJson (JSON_parse w) (Agent.content_text raw) in
       json = JNull ∨ ¬ expectedShape json →
       Agent.tryLlmOrganize w files instructions = Some emptyAgentPlan
       ∧ createPlanFromInstructions cwd root w instructions fs
         = OK (FromAgent emptyAgentPlan))
  ∧ (Agent.tryLlmOrganize w files instructions = None ↔
     Agent.env_set (GOOGLE_API_KEY w) = None ∨ answer = None)
  ∧ (∀ plan,
       createPlanFromInstructions cwd root w instructions fs
       = OK (FromHeuristic plan) ↔
       plan = heuristicPlan files instructions
       ∧ (Agent.env_set (GOOGLE_API_KEY w) = None ∨ answer = None)).
Proof.
  intros Htree Hbase files answer.
  assert (Agent.tryLlmOrganize w files instructions
          = Agent.model_tier w files instructions) as Htry.
  { unfold Agent.tryLlmOrganize, Agent.organizer_tier. by rewrite Hbase. }
  assert (createPlanFromInstructions cwd root w instructions fs
          = match Agent.model_tier w files instructions with
            | Some llmPlan => OK (FromAgent llmPlan)
            | None => OK (FromHeuristic (heuristicPlan files instructions))
            end) as Hcreate.
  { unfold createPlanFromInstructions. rewrite Htree. simpl.
    fold files. by rewrite Htry. }
  split_and!.
  - intros text v. apply extractJson_extracted.
  - intros apiKey raw Hkey Hinv json Hjson.
    assert (¬ expectedShape json) as Hshape.
    { destruct Hjson as [-> |]; [|done]. by intros (fields & ? & _). }
    rewrite Hcreate, Htry.
    by rewrite (model_tier_invalid _ _ _ _ _ Hkey Hinv Hshape).
  - rewrite Htry. apply model_tier_none.
  - intros plan. rewrite Hcreate.
    destruct (Agent.model_tier w files instructions) as [p|] eqn:Hm.
    + split; [done|]. intros [_ Hnone].
      by rewrite (proj2 (model_tier_none w files instructions) Hnone) in Hm.
    + apply model_tier_none in Hm. split.
      * by intros [= <-].
      * by intros [-> _].
Qed.


(** ** The [/apply] route *)

(** X15. [POST /apply] is spent after one success: the answer counts the
    moves of the plan, the plan in the store is then empty, and a
    second [POST /apply] moves nothing and leaves the disk as it
    is. *)
Theorem post_apply_twice cwd root (now now' : Z) (s s' : Server) (moved : nat) :
  post_apply cwd root now s = (s', ApplyOk moved) →
  moved = length (moves (currentPlan s))
  ∧ currentPlan s' = emptyPlan
  ∧ post_apply cwd root now' s' = (s', ApplyOk 0).
Proof.
  unfold post_apply.
  destruct (applyPlan cwd root now (currentPlan s) (disk s)) as [fs' [n|e]] eqn:Happly;
    [|done].
  intros [= <- <-]. split_and!; [|done|done].
  unfold applyPlan in Happly.
  destruct (applyPlan_loop cwd root now (moves (currentPlan s)) 0 (disk s))
    as [[fs1 k] [e|]] eqn:Hloop; [done|].
  injection Happly as _ <-. by apply applyPlan_loop_count in Hloop.
Qed.

(** ** The terminal *)

Lemma split_space_nonempty s : split_space s ≠ [].
Proof.
  destruct s as [|c s]; simpl; [done|].
  destruct (Str.ceqb c " "); [done|]. by destruct (split_space s).
Qed.

(** Joining what [split] has cut gives the text back. *)
Lemma join_split_space s : Str.join " " (split_space s) = s.
Proof.
  induction s as [|c s IH]; [done|]. simpl.
  destruct (Str.ceqb c " ") eqn:Hc.
  - apply bool_decide_eq_true in Hc as ->.
    destruct (split_space s) as [|seg rest] eqn:Hs; [by apply split_space_nonempty in Hs|].
    change (Str.join " " ("" :: seg :: rest))
      with ("" +:+ " " +:+ Str.join " " (seg :: rest)).
    by rewrite IH.
  - destruct (split_space s) as [|seg rest] eqn:Hs; [by apply split_space_nonempty in Hs|].
    rewrite <- IH. by destruct rest.
Qed.

Lemma split_space_word (word : string) rest :
  forallb (λ c, negb (Str.ceqb c " ")) (Str.chars word) = true →
  split_space (word +:+ " " +:+ rest) = word :: split_space rest.
Proof.
  unfold Str.chars. induction word as [|c word IH]; [done|].
  cbn [list_ascii_of_string forallb].
  intros [Hc Hword]%andb_true_iff. apply negb_true_iff in Hc.
  rewrite append_cons. cbn [split_space]. by rewrite Hc, IH.
Qed.

Lemma rev_app_acc s acc : String.rev_app s acc = String.rev s +:+ acc.
Proof.
  unfold String.rev. revert acc. induction s as [|c s IH]; intros acc; [done|].
  simpl. rewrite (IH (String c acc)), (IH (String c "")).
  by rewrite app_assoc_str.
Qed.

Lemma rev_cons_str c s : String.rev (String c s) = String.rev s +:+ String c "".
Proof. unfold String.rev at 1. simpl. apply rev_app_acc. Qed.

Lemma rev_app_str a b : String.rev (a +:+ b) = String.rev b +:+ String.rev a.
Proof.
  induction a as [|c a IH].
  - change ("" +:+ b) with b. change (String.rev "") with "".
    by rewrite append_nil_r.
  - by rewrite append_cons, !rev_cons_str, IH, app_assoc_str.
Qed.

Lemma rev_rev_str s : String.rev (String.rev s) = s.
Proof.
  induction s as [|c s IH]; [done|].
  by rewrite rev_cons_str, rev_app_str, IH.
Qed.

(** Taking the quotes off a quoted text gives the text, whatever it
    is. *)
Lemma stripQuotes_quoted text :
  stripQuotes (String quote (text +:+ String quote "")) = text.
Proof.
  assert (Str.ceqb quote quote = true) as Hq by (by apply bool_decide_eq_true).
  unfold stripQuotes. rewrite Hq, rev_app_str.
  change (String.rev (String quote "") +:+ String.rev text)
    with (String quote (String.rev text)).
  cbv beta iota. rewrite Hq. apply rev_rev_str.
Qed.

Lemma skip_spaces_quoted s :
  Agent.skip_spaces (String quote s) = String quote s.
Proof. done. Qed.

Lemma trim_quoted text :
  trim (" " +:+ String quote (text +:+ String quote ""))
  = String quote (text +:+ String quote "").
Proof.
  unfold trim.
  change (Agent.skip_spaces (" " +:+ String quote (text +:+ String quote "")))
    with (String quote (text +:+ String quote "")).
  rewrite rev_cons_str, rev_app_str.
  change (String.rev (String quote "") +:+ String.rev text)
    with (String quote (String.rev text)).
  rewrite append_cons, skip_spaces_quoted, <- append_cons.
  change (String quote (String.rev text))
    with (String.rev (String quote "") +:+ String.rev text).
  rewrite <- rev_app_str, <- rev_cons_str. apply rev_rev_str.
Qed.

Section TerminalProps.
Variables (http : string → json → HttpOutcome) (stringify : json → string).
Variable apiBase : string.

Local Abbreviation run_ := (run http stringify apiBase).
Local Abbreviation request_ := (request http stringify apiBase).

Lemma run_unfold t :
  Str.truthy (trim (input t)) = true →
  run_ t
  = let raw := trim (input t) in
    let t' := {| lines := lines t ++ [cmd raw]; input := "" |} in
    match split_space raw with
    | [] => print (out help) t'
    | command :: rest =>
        if Str.eqb command "scan" then
          let dir := trim (Str.join " " rest) in
          let dir := if Str.truthy dir then dir else "/demo" in
          request_ "/api/scan" (JObj [("dir", JStr dir)]) t'
        else if Str.eqb command "organize" then
          let q := stripQuotes (trim (Str.drop (String.length "organize") raw)) in
          request_ "/api/organize" (JObj [("instructions", JStr q)]) t'
        else if Str.eqb command "preview" then
          request_ "/api/preview" (JObj []) t'
        else if Str.eqb command "apply" then
          request_ "/api/apply" (JObj []) t'
        else if Str.eqb command "clean" then
          request_ "/api/detect-garbage" (JObj []) t'
        else if Str.eqb command "reset" then
          request_ "/api/reset" (JObj []) t'
        else print (out help) t'
    end.
Proof. intros H. unfold run. by rewrite H. Qed.

(** X18. [scan] sends the rest of the line as it was typed: what follows
    [scan ] in the trimmed input, trimmed itself, however many spaces
    are in it; [scan] alone, or with nothing but white space behind
    it, asks for [/demo]. *)
Theorem scan_command_sends_the_rest_of_the_line (t : Terminal) (arg : string) :
  trim (input t) = "scan" ∨ trim (input t) = "scan " +:+ arg →
  let dir := if Str.truthy (trim arg) then trim arg else "/demo" in
  let shown := {| lines := lines t ++ [cmd (trim (input t))]; input := "" |} in
  run_ t
  = request_ "/api/scan"
      (JObj [("dir", JStr (if decide (trim (input t) = "scan") then "/demo" else dir))])
      shown.
Proof.
  intros Hraw dir shown. rewrite run_unfold by (by destruct Hraw as [-> | ->]).
  unfold shown. cbv zeta. destruct Hraw as [Hraw|Hraw]; rewrite Hraw.
  - by rewrite decide_True.
  - rewrite decide_False by (by destruct arg).
    change ("scan " +:+ arg) with ("scan" +:+ " " +:+ arg).
    rewrite split_space_word by done.
    rewrite Str_eqb_refl. by rewrite join_split_space.
Qed.

(** X19. [organize] sends the quoted text without its quotes, whatever
    the text is; spaces and quotes in it stay.  [organize] alone
    sends empty instructions. *)
Theorem organize_command_unquotes_its_instructions (t : Terminal) (text : string) :
  let quoted := String quote (text +:+ String quote "") in
  let shown := {| lines := lines t ++ [cmd (trim (input t))]; input := "" |} in
  (trim (input t) = "organize " +:+ quoted →
   run_ t = request_ "/api/organize" (JObj [("instructions", JStr text)]) shown)
  ∧ (trim (input t) = "organize" →
     run_ t = request_ "/api/organize" (JObj [("instructions", JStr "")]) shown).
Proof.
  intros quoted shown. split; intros Hraw.
  - rewrite run_unfold by (by rewrite Hraw). unfold shown. cbv zeta. rewrite Hraw.
    change ("organize " +:+ quoted) with ("organize" +:+ " " +:+ quoted).
    rewrite split_space_word by done.
    assert (Str.eqb "organize" "scan" = false) as -> by done.
    rewrite Str_eqb_refl.
    change (Str.drop (String.length "organize") ("organize" +:+ " " +:+ quoted))
      with (" " +:+ quoted).
    unfold quoted. by rewrite trim_quoted, stripQuotes_quoted.
  - rewrite run_unfold by (by rewrite Hraw). unfold shown. cbv zeta. by rewrite Hraw.
Qed.
End TerminalProps.

(** X20. Input that is blank does nothing at all, and a first word other
    than the six commands (matched as typed, up to the first space)
    prints the help: in both cases nothing is sent, whatever the
    network would answer. *)
Theorem other_input_sends_no_request
    (http http' : string → json → HttpOutcome) (stringify : json → string)
    (apiBase : string) (t : Terminal) :
  (trim (input t) = "" → run http stringify apiBase t = t)
  ∧ (trim (input t) ≠ "" →
     hd "" (split_space (trim (input t)))
       ∉ ["scan"; "organize"; "preview"; "apply"; "clean"; "reset"] →
     run http stringify apiBase t
     = {| lines := lines t ++ [cmd (trim (input t)); out help]; input := "" |}
     ∧ run http' stringify apiBase t = run http stringify apiBase t).
Proof.
  split.
  - intros Hblank. unfold run. by rewrite Hblank.
  - intros Hraw Hother.
    assert (∀ h, run h stringify apiBase t
                 = {| lines := lines t ++ [cmd (trim (input t)); out help];
                      input := "" |}) as Hhelp.
    { intros h. rewrite run_unfold
        by (unfold Str.truthy; apply negb_true_iff; by apply Str_eqb_neq).
      cbv zeta.
      destruct (split_space (trim (input t))) as [|command rest] eqn:Hsplit;
        [by apply split_space_nonempty in Hsplit|].
      simpl in Hother.
      rewrite !not_elem_of_cons in Hother.
      destruct Hother as (H1 & H2 & H3 & H4 & H5 & H6 & _).
      rewrite !(proj2 (Str_eqb_neq _ _)) by done.
      unfold print. simpl. by rewrite <- app_assoc. }
    by rewrite !Hhelp.
Qed.


(** ** More on previews and heuristic plans *)

Lemma relabel_fixed rho n :
  (∀ f, f ∈ flattenFiles n → rho (path f) = path f) → relabel rho n = n.
Proof.
  induction n as [n Hn|n cs Hcs IH] using FileNode_nested_ind; intros Hfix.
  - destruct n as [nm p t s e c a m]. simpl in Hn. subst c.
    destruct t; simpl; [|done].
    f_equal. apply (Hfix (mkFileNode nm p file s e None a m)). simpl. by left.
  - destruct n as [nm p t s e c a m]. simpl in Hcs. subst c.
    destruct t; simpl.
    + f_equal. apply (Hfix (mkFileNode nm p file s e (Some cs) a m)). simpl. by left.
    + do 2 f_equal. simpl in Hfix.
      induction cs as [|c cs IHcs]; [done|].
      apply Forall_cons in IH as [IHc IHrest]. simpl. f_equal.
      * apply IHc. intros f Hf. apply Hfix. simpl. apply elem_of_app. by left.
      * apply IHcs; [done|]. intros f Hf. apply Hfix. simpl. apply elem_of_app. by right.
Qed.

Lemma mapPath_absent ms p :
  Forall (λ m, from m ≠ p) ms → mapPath (afterPaths ms) p = p.
Proof.
  intros Hall. unfold mapPath. rewrite afterPaths_lookup.
  destruct (find _ (rev ms)) as [m|] eqn:Hfind; [|done].
  apply find_some in Hfind as [Hin Heq]. apply Str_eqb_eq in Heq.
  apply in_rev, list_elem_of_In in Hin.
  by destruct (proj1 (Forall_forall _ _) Hall m Hin).
Qed.

(** X21. A preview shows only moves of files.  A plan none of whose
    sources is the path of a file of the snapshot, because the
    sources are directories or are not there, is previewed as no
    change at all: [after] is [before]. *)
Theorem preview_shows_only_moves_of_files cwd root (plan : Plan) (fs : FS) before :
  buildTree cwd root root fs = OK before →
  Forall (λ m, from m ∉ map path (flattenFiles before)) (moves plan) →
  (previewPlan cwd root plan fs).2 = OK (before, before).
Proof.
  intros Htree Hall. unfold previewPlan. cbn [snd]. rewrite Htree. simpl.
  do 2 f_equal.
  rewrite (cloneNode_relabel _ _ (buildTree_dirsListed _ _ _ _ _ Htree)).
  apply relabel_fixed. intros f Hf. apply mapPath_absent.
  eapply Forall_impl; [exact Hall|]. intros m Hm Heq. apply Hm.
  rewrite Heq. by apply (list_elem_of_fmap_2 path).
Qed.

(** X22. In the default configuration the sandbox root is a resolved
    directory path: with [DEMO_FS_PATH] unset or empty and a working
    directory that is a resolved path itself, the root is
    [data/demo_fs] below the working directory, and [path.resolve]
    leaves it as it is. *)
Theorem default_root_is_resolved (segs : list string) (env : option string) :
  Forall cleanSeg segs → env = None ∨ env = Some "" →
  let cwd := "/" +:+ Str.join "/" segs in
  default_DEMO_FS_PATH cwd env
  = "/" +:+ Str.join "/" (segs ++ ["data"; "demo_fs"])
  ∧ resolvedDir (default_DEMO_FS_PATH cwd env)
  ∧ safeRoot cwd (default_DEMO_FS_PATH cwd env) = default_DEMO_FS_PATH cwd env.
Proof.
  intros Hsegs Henv cwd.
  assert (Forall cleanSeg ["data"; "demo_fs"]) as Hdata.
  { repeat apply Forall_cons_2; [| |constructor]; by apply cleanSeg_of_plainName. }
  assert (default_DEMO_FS_PATH cwd env
          = "/" +:+ Str.join "/" (segs ++ ["data"; "demo_fs"])) as Hdef.
  { unfold default_DEMO_FS_PATH.
    assert (Agent.env_set env = None) as -> by (by destruct Henv as [-> | ->]).
    unfold Path.resolve. cbn [rev app Path.resolve_scan].
    assert (Str.eqb "data/demo_fs" "" = false) as -> by done.
    assert (Path.isAbsolute "data/demo_fs" = false) as -> by done.
    assert (Str.eqb cwd "" = false) as -> by (by apply Str_eqb_neq).
    assert (Path.isAbsolute cwd = true) as -> by done.
    cbn [negb]. unfold Path.normalizeString, cwd.
    rewrite split_slash_app.
    change (Str.split_slash ("/" +:+ Str.join "/" segs))
      with ("" :: Str.split_slash (Str.join "/" segs)).
    cbn [app Path.normalize_segs]. rewrite Str_eqb_refl. cbn [orb].
    rewrite normalize_segs_join by done.
    change (Str.split_slash ("data/demo_fs" +:+ "/" +:+ ""))
      with (["data"; "demo_fs"] ++ [""]).
    rewrite normalize_segs_clean_app by done.
    cbn [Path.normalize_segs]. rewrite Str_eqb_refl. cbn [orb].
    by rewrite app_nil_r, rev_app_distr, !rev_involutive. }
  assert (Forall cleanSeg (segs ++ ["data"; "demo_fs"])) as Hall
    by (by apply Forall_app).
  rewrite Hdef. split_and!; [done|by eexists|].
  unfold safeRoot. by apply resolve_resolved.
Qed.

Section HeuristicSandbox.
Variables (cwd root : string).
Hypothesis root_resolved : resolvedDir root.

(** X23. The heuristic tier never proposes a move out of the sandbox, nor
    two moves of one file: in its plan for the snapshot of a
    well-formed disk no source occurs twice, and for every move the
    source and the target pass [sanitizePath], both resolve to the
    root or below it, the source is a regular file on disk, the
    target differs from the source and keeps the name of the
    file. *)
Theorem heuristic_plan_stays_in_the_sandbox
    (w : World) (instructions : string) (fs : FS) (n : Inode) (plan : Plan) :
  wfInode fs = true →
  fs_stat "stat" root fs = OK n → isDirectory n = true →
  createPlanFromInstructions cwd root w instructions fs = OK (FromHeuristic plan) →
  NoDup (from <$> moves plan)
  ∧ ∀ m, m ∈ moves plan →
      ∃ fromAbs toAbs sz atm mtm content,
        sanitizePath cwd root (from m) = OK fromAbs
        ∧ sanitizePath cwd root (to m) = OK toAbs
        ∧ insideRoot (safeRoot cwd root) fromAbs
        ∧ insideRoot (safeRoot cwd root) toAbs
        ∧ fs_stat "lstat" fromAbs fs = OK (IFile sz atm mtm content)
        ∧ from m ≠ to m
        ∧ Path.basename toAbs = Path.basename fromAbs.
Proof.
  intros Hwf Hstat Hdir Hplan.
  destruct (heuristic_synthesis _ _ _ _ _ _ _ root_resolved Hwf Hstat Hdir Hplan)
    as (Htree & Hfiles & Hnd & _ & Hmoves).
  destruct root_resolved as (rootSegs & Hclean & Hroot).
  destruct (snapshot_of_root cwd root rootSegs Hclean Hroot _ _ Hwf Hstat Hdir)
    as (Hwfn & Hwalk & _ & _).
  rewrite Hmoves. clear Hmoves Hplan plan.
  set (files := (λ pf, snapshotFile pf.1 pf.2) <$> regularFiles n) in *.
  split.
  - clear Hfiles Htree. clearbody files. induction files as [|f files IH]; [constructor|].
    apply NoDup_cons in Hnd as [Hf Hnd]. cbn [flat_map].
    rewrite fmap_app. apply NoDup_app. split_and!; [| |by apply IH].
    + unfold categoryMoves. destruct (decide _); [constructor|apply NoDup_singleton].
    + intros p Hp Hp'. apply Hf.
      unfold categoryMoves in Hp. destruct (decide _); [by apply elem_of_nil in Hp|].
      apply list_elem_of_singleton in Hp as ->. simpl.
      apply list_elem_of_fmap in Hp' as (m & Hm & Hin).
      apply list_elem_of_In, in_flat_map in Hin as (g & Hg%list_elem_of_In & Hin).
      unfold categoryMoves in Hin. destruct (decide _); [done|].
      destruct Hin as [<-|[]]. simpl in Hm. rewrite Hm.
      by apply (list_elem_of_fmap_2 path).
  - intros m Hm.
    apply list_elem_of_In, in_flat_map in Hm as (f & Hf%list_elem_of_In & Hm).
    unfold categoryMoves in Hm. destruct (decide _) as [|Haway]; [done|].
    destruct Hm as [<-|[]]. cbn [from to categoryMove].
    apply list_elem_of_fmap in Hf as ([below x] & -> & Hin). cbn [fst snd] in *.
    destruct (regularFiles_elem _ _ _ Hwfn Hdir Hin) as (Hb & Hne & Hfile & Hw).
    destruct x as [sz atm mtm content|]; [|done].
    pose proof (homeOf_clean below (IFile sz atm mtm content) Hb Hne) as Hhome.
    set (home := (homeOf (below, IFile sz atm mtm content)).1) in *.
    assert (safeRoot cwd root = "/" +:+ Str.join "/" rootSegs) as Hsafe
      by (rewrite (safeRoot_resolved cwd root rootSegs Hclean Hroot); done).
    assert (∀ segs, Forall cleanSeg segs →
              insideRoot (safeRoot cwd root) ("/" +:+ Str.join "/" (rootSegs ++ segs)))
      as Hinside.
    { intros segs Hsegs. unfold insideRoot. rewrite Hsafe.
      rewrite !segments_of_resolved by (done || by apply Forall_app).
      by exists segs. }
    exists ("/" +:+ Str.join "/" (rootSegs ++ below)),
      ("/" +:+ Str.join "/" (rootSegs ++ home)), sz, atm, mtm, content.
    rewrite snapshotFile_path, homeOf_target.
    split_and!.
    + by apply sanitizePath_below.
    + by apply sanitizePath_below.
    + by apply Hinside.
    + by apply Hinside.
    + unfold fs_stat. rewrite segments_of_resolved by (by apply Forall_app).
      rewrite walk_app, (walk_found _ _ "lstat" _ _ _ _ Hwalk). simpl.
      by apply (walk_found _ _ _ _ _ _ _ Hw).
    + rewrite snapshotFile_path, homeOf_target in Haway. done.
    + destruct (last_clean _ Hb Hne) as (Hlast & init & Hinit).
      assert (∀ pre, Path.basename ("/" +:+ Str.join "/" (pre ++ [List.last below ""]))
                     = List.last below "") as Hbase.
      { intros pre. rewrite resolved_snoc. by apply basename_child. }
      transitivity (List.last below "").
      * unfold home, homeOf. cbn [fst snd]. rewrite snapshotFile_name.
        set (cat := categoryOf _).
        etransitivity; [|apply (Hbase (rootSegs ++ ["demo"; cat])%list)].
        by rewrite <- app_assoc.
      * symmetry. rewrite Hinit at 1. rewrite app_assoc. apply Hbase.
Qed.
End HeuristicSandbox.

(** ** The further theorems at the samples *)

Section MoreWitnesses.
Import Sample.

Lemma applyPlan_keeps_every_file_witness :
  wfInode applyDisk = true
  ∧ (regularFiles (applyPlan cwd root 5 planB applyDisk).1).*2
    ≡ₚ (regularFiles applyDisk).*2
  ∧ (regularFiles
       (disk (post_apply cwd root 5 {| disk := applyDisk; currentPlan := planB |}).1)).*2
    ≡ₚ (regularFiles applyDisk).*2.
Proof.
  assert (wfInode applyDisk = true) as H by (vm_compute; reflexivity).
  split; [exact H|].
  destruct (applyPlan_keeps_every_file cwd root 5 planB applyDisk H) as [Hdisk Hroute].
  split; [exact Hdisk|exact (Hroute planB)].
Defined.

Lemma heuristic_plan_applies_as_previewed_witness :
  resolvedDir root
  ∧ wfInode reportDisk = true
  ∧ fs_stat "stat" root reportDisk = OK reportRoot
  ∧ isDirectory reportRoot = true
  ∧ createPlanFromInstructions cwd root offline "tidy" reportDisk
    = OK (FromHeuristic {| moves := [reportMove]; deletions := [] |})
  ∧ applyPlan cwd root 5 {| moves := [reportMove]; deletions := [] |} reportDisk
    = (afterReportMove, OK 1%nat)
  ∧ ∃ before after tree',
      (previewPlan cwd root {| moves := [reportMove]; deletions := [] |} reportDisk).2
      = OK (before, after)
      ∧ buildTree cwd root root afterReportMove = OK tree'
      ∧ flattenFiles tree' ≡ₚ flattenFiles after.
Proof.
  assert (wfInode reportDisk = true) as H1 by (vm_compute; reflexivity).
  assert (fs_stat "stat" root reportDisk = OK reportRoot) as H2
    by (vm_compute; reflexivity).
  assert (createPlanFromInstructions cwd root offline "tidy" reportDisk
          = OK (FromHeuristic {| moves := [reportMove]; deletions := [] |})) as H3
    by (vm_compute; reflexivity).
  assert (applyPlan cwd root 5 {| moves := [reportMove]; deletions := [] |} reportDisk
          = (afterReportMove, OK 1%nat)) as H4 by (vm_compute; reflexivity).
  split; [exact sample_root_resolved|]. split; [exact H1|]. split; [exact H2|].
  split; [reflexivity|]. split; [exact H3|]. split; [exact H4|].
  exact (heuristic_plan_applies_as_previewed cwd root 5 offline "tidy" reportDisk
           reportRoot _ afterReportMove 1 sample_root_resolved H1 H2 eq_refl H3 H4).
Defined.

Lemma heuristic_plan_settles_witness :
  resolvedDir root
  ∧ wfInode reportDisk = true
  ∧ fs_stat "stat" root reportDisk = OK reportRoot
  ∧ isDirectory reportRoot = true
  ∧ createPlanFromInstructions cwd root offline "tidy" reportDisk
    = OK (FromHeuristic {| moves := [reportMove]; deletions := [] |})
  ∧ applyPlan cwd root 5 {| moves := [reportMove]; deletions := [] |} reportDisk
    = (afterReportMove, OK 1%nat)
  ∧ ∃ tree',
      buildTree cwd root root afterReportMove = OK tree'
      ∧ heuristicPlan (flattenFiles tree') "sort by type" = emptyPlan.
Proof.
  assert (wfInode reportDisk = true) as H1 by (vm_compute; reflexivity).
  assert (fs_stat "stat" root reportDisk = OK reportRoot) as H2
    by (vm_compute; reflexivity).
  assert (createPlanFromInstructions cwd root offline "tidy" reportDisk
          = OK (FromHeuristic {| moves := [reportMove]; deletions := [] |})) as H3
    by (vm_compute; reflexivity).
  assert (applyPlan cwd root 5 {| moves := [reportMove]; deletions := [] |} reportDisk
          = (afterReportMove, OK 1%nat)) as H4 by (vm_compute; reflexivity).
  split; [exact sample_root_resolved|]. split; [exact H1|]. split; [exact H2|].
  split; [reflexivity|]. split; [exact H3|]. split; [exact H4|].
  destruct (heuristic_plan_settles cwd root 5 offline "tidy" "sort by type" reportDisk
              reportRoot _ afterReportMove 1 sample_root_resolved H1 H2 eq_refl H3 H4)
    as (tree' & Htree & Hplan & _).
  exists tree'. split; [exact Htree|exact Hplan].
Defined.

Lemma sanitizePath_never_refuses_the_sandbox_witness :
  Path.isAbsolute cwd = true
  ∧ insideRoot (safeRoot cwd root)
      (Path.resolve cwd [safeRoot cwd root; "." +:+ "/demo/../demo/a.txt"])
  ∧ sanitizePath cwd root "/demo/../demo/a.txt"
    = OK (Path.resolve cwd [safeRoot cwd root; "." +:+ "/demo/../demo/a.txt"]).
Proof.
  assert (insideRoot (safeRoot cwd root)
            (Path.resolve cwd [safeRoot cwd root; "." +:+ "/demo/../demo/a.txt"])) as H
    by (apply (bool_decide_eq_true_1 _); vm_compute; reflexivity).
  split; [reflexivity|]. split; [exact H|].
  exact (proj1 (sanitizePath_never_refuses_the_sandbox cwd root "/demo/../demo/a.txt"
                  eq_refl) H).
Defined.

Lemma scan_lists_the_regular_files_witness :
  resolvedDir root
  ∧ wfInode twinsDisk = true
  ∧ Forall cleanSeg ["demo"]
  ∧ sanitizePath cwd root ("/" +:+ Str.join "/" ["demo"]) = OK "/app/data/demo_fs/demo"
  ∧ fs_stat "stat" "/app/data/demo_fs/demo" twinsDisk = OK twinsDemo
  ∧ isDirectory twinsDemo = true
  ∧ ∃ tree,
      scanDirectory cwd root ("/" +:+ Str.join "/" ["demo"]) twinsDisk = OK tree
      ∧ flattenFiles tree
        = (λ pf, snapshotFile (["demo"] ++ pf.1) pf.2) <$> regularFiles twinsDemo
      ∧ NoDup (path <$> flattenFiles tree).
Proof.
  assert (wfInode twinsDisk = true) as H1 by (vm_compute; reflexivity).
  assert (Forall cleanSeg ["demo"]) as H2.
  { apply List.Forall_cons; [|apply List.Forall_nil].
    unfold cleanSeg, noSlash. split_and!; [discriminate..|reflexivity]. }
  assert (sanitizePath cwd root ("/" +:+ Str.join "/" ["demo"])
          = OK "/app/data/demo_fs/demo") as H3 by (vm_compute; reflexivity).
  assert (fs_stat "stat" "/app/data/demo_fs/demo" twinsDisk = OK twinsDemo) as H4
    by (vm_compute; reflexivity).
  split; [exact sample_root_resolved|]. split; [exact H1|]. split; [exact H2|].
  split; [exact H3|]. split; [exact H4|]. split; [reflexivity|].
  destruct (scan_lists_the_regular_files cwd root ["demo"] twinsDisk
              "/app/data/demo_fs/demo" twinsDemo
              sample_root_resolved H1 H2 H3 H4 eq_refl)
    as (tree & Hscan & Hfiles & Hnd & _).
  exists tree. split; [exact Hscan|]. split; [exact Hfiles|exact Hnd].
Defined.

Lemma snapshot_paths_lead_back_witness :
  resolvedDir root
  ∧ wfInode twinsDisk = true
  ∧ fs_stat "stat" root twinsDisk = OK twinsRoot
  ∧ isDirectory twinsRoot = true
  ∧ buildTree cwd root root twinsDisk = OK (treeOf twinsDisk)
  ∧ oneTxt ∈ flattenFiles (treeOf twinsDisk)
  ∧ ∃ abs sz atm mtm content,
      sanitizePath cwd root (path oneTxt) = OK abs
      ∧ toRel cwd root abs = path oneTxt
      ∧ Path.basename abs = name oneTxt
      ∧ (∀ syscall, fs_stat syscall abs twinsDisk = OK (IFile sz atm mtm content))
      ∧ type oneTxt = file ∧ children oneTxt = None
      ∧ size oneTxt = Some sz ∧ atimeMs oneTxt = Some atm ∧ mtimeMs oneTxt = Some mtm.
Proof.
  assert (wfInode twinsDisk = true) as H1 by (vm_compute; reflexivity).
  assert (fs_stat "stat" root twinsDisk = OK twinsRoot) as H2
    by (vm_compute; reflexivity).
  assert (buildTree cwd root root twinsDisk = OK (treeOf twinsDisk)) as H3
    by (vm_compute; reflexivity).
  assert (oneTxt ∈ flattenFiles (treeOf twinsDisk)) as H4
    by (vm_compute; apply list_elem_of_here).
  split; [exact sample_root_resolved|]. split; [exact H1|]. split; [exact H2|].
  split; [reflexivity|]. split; [exact H3|]. split; [exact H4|].
  exact (snapshot_paths_lead_back cwd root twinsDisk twinsRoot (treeOf twinsDisk) oneTxt
           sample_root_resolved H1 H2 eq_refl H3 H4).
Defined.

Lemma applyMove_relocates_witness :
  applyMove cwd root 5 goodMove applyDisk = (afterGoodMove, OK ())
  ∧ ∃ fromAbs toAbs,
      sanitizePath cwd root (from goodMove) = OK fromAbs
      ∧ sanitizePath cwd root (to goodMove) = OK toAbs
      ∧ (∀ syscall sz atm mtm content,
           fs_stat syscall fromAbs applyDisk = OK (IFile sz atm mtm content) →
           fs_stat syscall toAbs afterGoodMove = OK (IFile sz atm mtm content)
           ∧ ∀ sz' atm' mtm' content',
               fs_stat syscall fromAbs afterGoodMove
               ≠ OK (IFile sz' atm' mtm' content')).
Proof.
  assert (applyMove cwd root 5 goodMove applyDisk = (afterGoodMove, OK ())) as H
    by (vm_compute; reflexivity).
  split; [exact H|].
  destruct (applyMove_relocates cwd root 5 goodMove applyDisk afterGoodMove H)
    as (fromAbs & toAbs & Hfrom & Hto & _ & _ & Hfile).
  exists fromAbs, toAbs. split; [exact Hfrom|]. split; [exact Hto|exact Hfile].
Defined.


Lemma duplicate_originals_are_kept_witness :
  resolvedDir root
  ∧ wfInode twinsDisk = true
  ∧ buildTree cwd root root twinsDisk = OK (treeOf twinsDisk)
  ∧ ∃ s, detectGarbage cwd root sha1_hex (1000 * day) twinsDisk = OK s
       ∧ ∀ original p,
           duplicateSuggestion original p ∈ s →
           (original ∉ map ds_file s) ∧ original ≠ p.
Proof.
  assert (wfInode twinsDisk = true) as H1 by (vm_compute; reflexivity).
  assert (buildTree cwd root root twinsDisk = OK (treeOf twinsDisk)) as H2
    by (vm_compute; reflexivity).
  split; [exact sample_root_resolved|]. split; [exact H1|]. split; [exact H2|].
  destruct (duplicate_originals_are_kept cwd root sha1_hex sample_root_resolved
              (1000 * day) twinsDisk (treeOf twinsDisk) H1 H2) as (s & Hs & Hdup).
  exists s. split; [exact Hs|].
  intros original p Hin. destruct (Hdup original p Hin) as (Hkept & Hne & _).
  split; [exact Hkept|exact Hne].
Defined.

Lemma large_unread_file_is_flagged_not_deleted_witness :
  resolvedDir root
  ∧ wfInode largeDisk = true
  ∧ buildTree cwd root root largeDisk = OK (treeOf largeDisk)
  ∧ videoMp4 ∈ flattenFiles (treeOf largeDisk)
  ∧ isJunk videoMp4 = false
  ∧ size videoMp4 = Some (60 * MiB)
  ∧ 50 * 1024 * 1024 < 60 * MiB
  ∧ 90 < ageDays (1000 * day) videoMp4
  ∧ ∃ s, detectGarbage cwd root sha1_hex (1000 * day) largeDisk = OK s
       ∧ filter (λ sg, ds_file sg = path videoMp4) s
         = [ {| ds_file := "/demo/video.mp4";
                ds_reason := "Large file (60.0 MB) rarely accessed (999 days)";
                confidence := medium;
                sizeBytes := Some (60 * MiB);
                safeToDelete := false |} ].
Proof.
  assert (wfInode largeDisk = true) as H1 by (vm_compute; reflexivity).
  assert (buildTree cwd root root largeDisk = OK (treeOf largeDisk)) as H2
    by (vm_compute; reflexivity).
  assert (videoMp4 ∈ flattenFiles (treeOf largeDisk)) as H3
    by (vm_compute; apply list_elem_of_here).
  assert (isJunk videoMp4 = false) as H4 by (vm_compute; reflexivity).
  assert (50 * 1024 * 1024 < 60 * MiB) as H5 by reflexivity.
  assert (90 < ageDays (1000 * day) videoMp4) as H6 by reflexivity.
  split; [exact sample_root_resolved|]. split; [exact H1|]. split; [exact H2|].
  split; [exact H3|]. split; [exact H4|]. split; [reflexivity|].
  split; [exact H5|]. split; [exact H6|].
  destruct (large_unread_file_is_flagged_not_deleted cwd root sha1_hex
              sample_root_resolved (1000 * day) largeDisk (treeOf largeDisk) videoMp4
              (60 * MiB) H1 H2 H3 H4 eq_refl) as (s & Hs & Hlarge & _).
  exists s. split; [exact Hs|]. exact (Hlarge H5 H6).
Defined.

Lemma without_credentials_the_heuristic_tier_decides_witness :
  (LLM_BASE_URL offline = None ∨ LLM_BASE_URL offline = Some "")
  ∧ (GOOGLE_API_KEY offline = None ∨ GOOGLE_API_KEY offline = Some "")
  ∧ buildTree cwd root root reportDisk = OK (treeOf reportDisk)
  ∧ createPlanFromInstructions cwd root offline "tidy" reportDisk
    = OK (FromHeuristic (heuristicPlan (flattenFiles (treeOf reportDisk)) "tidy")).
Proof.
  assert (buildTree cwd root root reportDisk = OK (treeOf reportDisk)) as H
    by (vm_compute; reflexivity).
  split; [left; reflexivity|]. split; [left; reflexivity|]. split; [exact H|].
  exact (proj2 (without_credentials_the_heuristic_tier_decides cwd root offline "tidy"
                  reportDisk (treeOf reportDisk)
                  (or_introl eq_refl) (or_introl eq_refl) H)).
Defined.

Lemma organizer_decides_or_falls_through_witness :
  Agent.env_set (LLM_BASE_URL emptyOrganizer) = Some "http://organizer:8000"
  ∧ ∃ mv, Json.get (JObj []) "moves" = OK mv
      ∧ Agent.tryLlmOrganize emptyOrganizer [reportPdf] "tidy"
        = Some {| ap_moves := match mv with
                              | Some v => if Json.truthy v then v else JArr []
                              | None => JArr []
                              end;
                  ap_deletions := [] |}.
Proof.
  split; [reflexivity|].
  assert (JObj [] ≠ JNull) as Hne by discriminate.
  exact (proj1 (organizer_decides_or_falls_through emptyOrganizer [reportPdf] "tidy"
                  "http://organizer:8000" eq_refl)
           200 "{}" (JObj []) eq_refl eq_refl Hne).
Defined.

Lemma model_tier_takes_all_moves_or_none_witness :
  Agent.env_set (LLM_BASE_URL planModel) = None
  ∧ Agent.env_set (GOOGLE_API_KEY planModel) = Some "key"
  ∧ Agent.extractJson (JSON_parse planModel) (Agent.content_text (RawString planText))
    = JObj [("moves", JArr planItems)]
  ∧ mapM move_of_json planItems = Some [goodMove]
  ∧ ∃ plan, Agent.tryLlmOrganize planModel [reportPdf] "tidy" = Some plan
      ∧ plan_of_agent plan = Some {| moves := [goodMove]; deletions := [] |}.
Proof.
  assert (Agent.extractJson (JSON_parse planModel)
            (Agent.content_text (RawString planText))
          = JObj [("moves", JArr planItems)]) as H by (vm_compute; reflexivity).
  split; [reflexivity|]. split; [reflexivity|]. split; [exact H|].
  split; [reflexivity|].
  exact (proj1 (model_tier_takes_all_moves_or_none planModel [reportPdf] "tidy" "key"
                  (RawString planText) [("moves", JArr planItems)] planItems
                  eq_refl eq_refl eq_refl H eq_refl)
           [goodMove] eq_refl).
Defined.

Lemma extractJson_reads_a_fenced_answer_witness :
  noBackquote "Here is the plan: " = true
  ∧ Str.toLowerCase "```JSON" = "```json"
  ∧ allSpaces newline = true
  ∧ Agent.is_space "{" = false
  ∧ noBackquote "{}" = true
  ∧ parseSample ("Here is the plan: " +:+ "```JSON" +:+ newline +:+ "{}"
                 +:+ "```" +:+ " That is all.") = None
  ∧ parseSample "{}" = Some (JObj [])
  ∧ Agent.extractJson parseSample
      ("Here is the plan: " +:+ "```JSON" +:+ newline +:+ "{}"
       +:+ "```" +:+ " That is all.") = JObj [].
Proof.
  assert (parseSample ("Here is the plan: " +:+ "```JSON" +:+ newline +:+ "{}"
                       +:+ "```" +:+ " That is all.") = None) as H
    by (vm_compute; reflexivity).
  split; [reflexivity|]. split; [reflexivity|]. split; [reflexivity|].
  split; [reflexivity|]. split; [reflexivity|]. split; [exact H|].
  split; [reflexivity|].
  exact (extractJson_reads_a_fenced_answer parseSample "Here is the plan: " "```JSON"
           newline "{"%char "}" " That is all." (JObj [])
           eq_refl eq_refl eq_refl eq_refl eq_refl H eq_refl).
Defined.

Lemma extractJson_three_strategies_then_empty_plan_witness :
  buildTree cwd root root reportDisk = OK (treeOf reportDisk)
  ∧ Agent.env_set (LLM_BASE_URL proseModel) = None
  ∧ Agent.env_set (GOOGLE_API_KEY proseModel) = Some "key"
  ∧ extracted parseSample "Sorry, I cannot help." JNull
  ∧ Agent.tryLlmOrganize proseModel (flattenFiles (treeOf reportDisk)) "tidy"
    = Some emptyAgentPlan
  ∧ createPlanFromInstructions cwd root proseModel "tidy" reportDisk
    = OK (FromAgent emptyAgentPlan).
Proof.
  assert (buildTree cwd root root reportDisk = OK (treeOf reportDisk)) as Htree
    by (vm_compute; reflexivity).
  assert (Agent.extractJson parseSample "Sorry, I cannot help." = JNull) as Hnull
    by (vm_compute; reflexivity).
  split; [exact Htree|]. split; [reflexivity|]. split; [reflexivity|].
  pose proof (extractJson_three_strategies_then_empty_plan cwd root proseModel "tidy"
                reportDisk (treeOf reportDisk) Htree eq_refl) as H.
  cbv zeta in H. destruct H as (Hextracted & Hinvalid & _).
  split; [exact (proj1 (Hextracted "Sorry, I cannot help." JNull) Hnull)|].
  exact (Hinvalid "key" (RawString "Sorry, I cannot help.") eq_refl eq_refl
           (or_introl Hnull)).
Defined.

Lemma post_apply_twice_witness :
  post_apply cwd root 5
    {| disk := applyDisk;
       currentPlan := {| moves := [goodMove]; deletions := [] |} |}
  = ({| disk := afterGoodMove; currentPlan := emptyPlan |}, ApplyOk 1)
  ∧ post_apply cwd root 9 {| disk := afterGoodMove; currentPlan := emptyPlan |}
    = ({| disk := afterGoodMove; currentPlan := emptyPlan |}, ApplyOk 0).
Proof.
  assert (post_apply cwd root 5
            {| disk := applyDisk;
               currentPlan := {| moves := [goodMove]; deletions := [] |} |}
          = ({| disk := afterGoodMove; currentPlan := emptyPlan |}, ApplyOk 1)) as H
    by (vm_compute; reflexivity).
  split; [exact H|].
  destruct (post_apply_twice cwd root 5 9 _ _ 1 H) as (_ & _ & Hagain).
  exact Hagain.
Defined.

Lemma scan_command_sends_the_rest_of_the_line_witness :
  trim "  scan my  files " = "scan " +:+ "my  files"
  ∧ run noNetwork stringifySample "http://localhost:3001"
      {| lines := []; input := "  scan my  files " |}
    = request noNetwork stringifySample "http://localhost:3001" "/api/scan"
        (JObj [("dir", JStr "my  files")])
        {| lines := [cmd "scan my  files"]; input := "" |}.
Proof.
  assert (trim "  scan my  files " = "scan " +:+ "my  files") as H
    by (vm_compute; reflexivity).
  split; [exact H|].
  exact (scan_command_sends_the_rest_of_the_line noNetwork stringifySample
           "http://localhost:3001" {| lines := []; input := "  scan my  files " |}
           "my  files" (or_intror H)).
Defined.

Lemma preview_shows_only_moves_of_files_witness :
  buildTree cwd root root applyDisk = OK (treeOf applyDisk)
  ∧ Forall (λ m, from m ∉ map path (flattenFiles (treeOf applyDisk)))
      [lostMove; {| from := "/demo"; to := "/elsewhere"; reason := "all of it" |}]
  ∧ (previewPlan cwd root
       {| moves := [lostMove;
                    {| from := "/demo"; to := "/elsewhere"; reason := "all of it" |}];
          deletions := [] |} applyDisk).2
    = OK (treeOf applyDisk, treeOf applyDisk).
Proof.
  assert (buildTree cwd root root applyDisk = OK (treeOf applyDisk)) as H1
    by (vm_compute; reflexivity).
  assert (Forall (λ m, from m ∉ map path (flattenFiles (treeOf applyDisk)))
            [lostMove; {| from := "/demo"; to := "/elsewhere"; reason := "all of it" |}])
    as H2.
  { repeat apply List.Forall_cons; try apply List.Forall_nil;
      apply (bool_decide_eq_true_1 _); vm_compute; reflexivity. }
  split; [exact H1|]. split; [exact H2|].
  exact (preview_shows_only_moves_of_files cwd root
           {| moves := [lostMove;
                        {| from := "/demo"; to := "/elsewhere"; reason := "all of it" |}];
              deletions := [] |} applyDisk (treeOf applyDisk) H1 H2).
Defined.

Lemma default_root_is_resolved_witness :
  Forall cleanSeg ["app"]
  ∧ default_DEMO_FS_PATH "/app" None = "/app/data/demo_fs"
  ∧ resolvedDir (default_DEMO_FS_PATH "/app" None)
  ∧ safeRoot "/app" (default_DEMO_FS_PATH "/app" None)
    = default_DEMO_FS_PATH "/app" None.
Proof.
  assert (Forall cleanSeg ["app"]) as H.
  { apply List.Forall_cons; [|apply List.Forall_nil].
    unfold cleanSeg, noSlash. split_and!; [discriminate..|reflexivity]. }
  split; [exact H|].
  exact (default_root_is_resolved ["app"] None H (or_introl eq_refl)).
Defined.

Lemma heuristic_plan_stays_in_the_sandbox_witness :
  resolvedDir root
  ∧ wfInode reportDisk = true
  ∧ fs_stat "stat" root reportDisk = OK reportRoot
  ∧ isDirectory reportRoot = true
  ∧ createPlanFromInstructions cwd root offline "tidy" reportDisk
    = OK (FromHeuristic {| moves := [reportMove]; deletions := [] |})
  ∧ ∃ fromAbs toAbs sz atm mtm content,
      sanitizePath cwd root (from reportMove) = OK fromAbs
      ∧ sanitizePath cwd root (to reportMove) = OK toAbs
      ∧ insideRoot (safeRoot cwd root) fromAbs
      ∧ insideRoot (safeRoot cwd root) toAbs
      ∧ fs_stat "lstat" fromAbs reportDisk = OK (IFile sz atm mtm content)
      ∧ from reportMove ≠ to reportMove
      ∧ Path.basename toAbs = Path.basename fromAbs.
Proof.
  assert (wfInode reportDisk = true) as H1 by (vm_compute; reflexivity).
  assert (fs_stat "stat" root reportDisk = OK reportRoot) as H2
    by (vm_compute; reflexivity).
  assert (createPlanFromInstructions cwd root offline "tidy" reportDisk
          = OK (FromHeuristic {| moves := [reportMove]; deletions := [] |})) as H3
    by (vm_compute; reflexivity).
  split; [exact sample_root_resolved|]. split; [exact H1|]. split; [exact H2|].
  split; [reflexivity|]. split; [exact H3|].
  destruct (heuristic_plan_stays_in_the_sandbox cwd root sample_root_resolved
              offline "tidy" reportDisk reportRoot _ H1 H2 eq_refl H3) as [_ Hmoves].
  apply (Hmoves reportMove). apply list_elem_of_here.
Defined.
End MoreWitnesses.
